(** * Season and year extraction from media titles (src/lib/season-parser.ts)

    A shallow embedding of [parseSeasonFromTitle] and [chineseNumberToInt].
    JavaScript strings are sequences of UTF-16 code units; the regular
    expressions of the source are kept as data and run by a backtracking
    matcher written in continuation-passing style, the way ECMA-262
    describes pattern matching. *)

From Stdlib Require Import ZArith NArith Lia.
From stdpp Require Import base option list strings gmap.

Local Open Scope N_scope.

(** ** Strings *)

(** A code unit is a number below 65536.  Nothing below depends on the bound,
    so the statements hold for every list of numbers. *)
Definition jsstring := list N.

Definition is_digit (c : N) : bool := (48 <=? c) && (c <=? 57).

Definition is_upper (c : N) : bool := (65 <=? c) && (c <=? 90).

Definition is_lower (c : N) : bool := (97 <=? c) && (c <=? 122).

(** [\w]: the basic word characters [A-Za-z0-9_] (no pattern of the source
    has the [u] flag). *)
Definition is_word (c : N) : bool :=
  is_upper c || is_lower c || is_digit c || (c =? 95).

(** WhiteSpace and LineTerminator of ECMA-262: what [\s] matches, what
    [trim] strips and what [parseInt] skips. *)
Definition is_ws (c : N) : bool :=
  ((9 <=? c) && (c <=? 13)) || (c =? 32) || (c =? 160) || (c =? 5760)
  || ((8192 <=? c) && (c <=? 8202)) || (c =? 8232) || (c =? 8233)
  || (c =? 8239) || (c =? 8287) || (c =? 12288) || (c =? 65279).

(** Canonicalize of a pattern with the [i] flag and without [u].  Only the
    ASCII letters are folded: every literal of the two [/i] patterns is
    ASCII, and a code unit of 128 or more never canonicalizes to an ASCII
    one. *)
Definition canon (c : N) : N := if is_lower c then c - 32 else c.

Fixpoint drop_while (p : N -> bool) (s : jsstring) : jsstring :=
  match s with
  | [] => []
  | c :: tl => if p c then drop_while p tl else s
  end.

Fixpoint take_while (p : N -> bool) (s : jsstring) : jsstring :=
  match s with
  | [] => []
  | c :: tl => if p c then c :: take_while p tl else []
  end.

(** [String.prototype.trim]. *)
Definition trim (s : jsstring) : jsstring :=
  reverse (drop_while is_ws (reverse (drop_while is_ws s))).

Definition substring (s : jsstring) (from to : nat) : jsstring :=
  take (to - from) (drop from s).

Definition startsWith (s p : jsstring) : bool := bool_decide (take (length p) s = p).

Definition endsWith (s p : jsstring) : bool :=
  bool_decide (length p <= length s)%nat
  && bool_decide (drop (length s - length p) s = p).

(** [indexOf] of a single code unit; [None] stands for -1. *)
Fixpoint indexOf (s : jsstring) (c : N) : option nat :=
  match s with
  | [] => None
  | x :: tl => if x =? c then Some 0%nat else S <$> indexOf tl c
  end.

(** ** Numbers *)

(** The numbers that occur are integers far below 2^53, or NaN. *)
Inductive number := NaN | Num (z : Z).

Definition truthy (n : number) : bool :=
  match n with NaN => false | Num z => negb (z =? 0)%Z end.

Definition num_ge (n : number) (k : Z) : bool :=
  match n with NaN => false | Num z => (k <=? z)%Z end.

Definition num_le (n : number) (k : Z) : bool :=
  match n with NaN => false | Num z => (z <=? k)%Z end.

Fixpoint decimal_acc (acc : Z) (ds : jsstring) : Z :=
  match ds with
  | [] => acc
  | d :: tl => decimal_acc (10 * acc + Z.of_N (d - 48)) tl
  end.

Definition decimal (ds : jsstring) : Z := decimal_acc 0 ds.

(** [parseInt(s, 10)]: leading white space, an optional sign, then the
    longest run of decimal digits; NaN when that run is empty.  The value is
    exact as long as it is below 2^53; the parser passes at most four
    digits. *)
Definition parseInt (s : jsstring) : number :=
  let s1 := drop_while is_ws s in
  let '(neg, s2) :=
    match s1 with
    | c :: tl =>
        if c =? 45 then (true, tl) else if c =? 43 then (false, tl) else (false, s1)
    | [] => (false, s1)
    end in
  match take_while is_digit s2 with
  | [] => NaN
  | ds => Num (if neg then - decimal ds else decimal ds)
  end.

(** ** Regular expressions *)

(** The members of a character class. *)
Inductive catom :=
| Lit (c : N)
| ClsDigit
| ClsSpace.

(** The fragment of the pattern language the source uses.  Every quantifier
    of the source applies to a character class, so [Rep] carries a class. *)
Inductive re :=
| Eps
| Seq (a b : re)
| Class (cs : list catom)
| Rep (cs : list catom) (lo : nat) (hi : option nat)
| WordB
| Bol
| Eol
| Cap (r : re).

Record regex := RegEx { source : re; ignoreCase : bool; global : bool }.

Definition chr (c : N) : re := Class [Lit c].

Definition seq (rs : list re) : re := foldr Seq Eps rs.

Definition atom_mem (ci : bool) (c : N) (a : catom) : bool :=
  match a with
  | Lit x => if ci then canon x =? canon c else x =? c
  | ClsDigit => is_digit c
  | ClsSpace => is_ws c
  end.

Definition cls_mem (ci : bool) (cs : list catom) (c : N) : bool :=
  existsb (atom_mem ci c) cs.

(** The state of a match in progress: the code unit before the current
    position, the input from the current position on, the current index and
    the text of capture group 1 (every pattern has at most one group). *)
Record mstate := MState {
  before : option N;
  rest : jsstring;
  idx : nat;
  cap : option jsstring
}.

Definition cont := mstate -> option mstate.

Definition word_boundary (prev : option N) (s : jsstring) : bool :=
  xorb (from_option is_word false prev) (from_option is_word false (head s)).

Definition hi_allows (hi : option nat) : bool :=
  match hi with Some O => false | _ => true end.

(** Greedy repetition of a class: one more code unit first, and only when the
    rest of the pattern fails after that, stop here. *)
Fixpoint rep_greedy (ci : bool) (cs : list catom) (lo : nat) (hi : option nat)
    (k : cont) (prev : option N) (s : jsstring) (i : nat) (cp : option jsstring)
    {struct s} : option mstate :=
  let stop := if (lo =? 0)%nat then k (MState prev s i cp) else None in
  match s with
  | c :: tl =>
      if hi_allows hi && cls_mem ci cs c then
        match rep_greedy ci cs (pred lo) (pred <$> hi) k (Some c) tl (S i) cp with
        | Some r => Some r
        | None => stop
        end
      else stop
  | [] => stop
  end.

Fixpoint m (ci : bool) (r : re) (k : cont) (st : mstate) : option mstate :=
  match r with
  | Eps => k st
  | Seq a b => m ci a (m ci b k) st
  | Class cs =>
      match rest st with
      | c :: tl =>
          if cls_mem ci cs c then k (MState (Some c) tl (S (idx st)) (cap st))
          else None
      | [] => None
      end
  | Rep cs lo hi => rep_greedy ci cs lo hi k (before st) (rest st) (idx st) (cap st)
  | WordB => if word_boundary (before st) (rest st) then k st else None
  | Bol => if (idx st =? 0)%nat then k st else None
  | Eol => match rest st with [] => k st | _ => None end
  | Cap r' =>
      m ci r'
        (fun st' =>
           k (MState (before st') (rest st') (idx st')
                (Some (take (idx st' - idx st) (rest st)))))
        st
  end.

(** The match array: [index], the end of the match, and [match[1]]
    ([None] for undefined). *)
Record rmatch := RMatch {
  index : nat;
  endIndex : nat;
  group1 : option jsstring
}.

(** One attempt at the position of [s] (which starts at index [i]). *)
Definition match_at (rx : regex) (prev : option N) (s : jsstring) (i : nat)
    : option rmatch :=
  match m (ignoreCase rx) (source rx) Some (MState prev s i None) with
  | Some st' => Some (RMatch i (idx st') (cap st'))
  | None => None
  end.

(** The leftmost position at which the pattern matches. *)
Fixpoint search (rx : regex) (prev : option N) (s : jsstring) (i : nat)
    : option rmatch :=
  match match_at rx prev s i with
  | Some mt => Some mt
  | None =>
      match s with
      | c :: tl => search rx (Some c) tl (S i)
      | [] => None
      end
  end.

(** [RegExp.prototype.exec] from index 0. *)
Definition exec (rx : regex) (s : jsstring) : option rmatch := search rx None s 0.

(** [s.match(rx)] for a pattern without the [g] flag. *)
Definition String_match (s : jsstring) (rx : regex) : option rmatch := exec rx s.

Definition RegExp_test (rx : regex) (s : jsstring) : bool :=
  bool_decide (is_Some (exec rx s)).

Definition matched (s : jsstring) (mt : rmatch) : jsstring :=
  substring s (index mt) (endIndex mt).

Definition replace_first (rx : regex) (rep s : jsstring) : jsstring :=
  match exec rx s with
  | Some mt => take (index mt) s ++ rep ++ drop (endIndex mt) s
  | None => s
  end.

(** Replacement of every match of a [g] pattern, left to right.  [skip] counts
    the code units still covered by the last match.  After an empty match the
    search resumes one code unit further, and that code unit is kept. *)
Fixpoint replace_all_from (rx : regex) (rep : jsstring) (prev : option N)
    (s : jsstring) (i skip : nat) : jsstring :=
  match skip with
  | S skip' =>
      match s with
      | c :: tl => replace_all_from rx rep (Some c) tl (S i) skip'
      | [] => []
      end
  | O =>
      match match_at rx prev s i, s with
      | Some mt, c :: tl =>
          match (endIndex mt - i)%nat with
          | O => rep ++ c :: replace_all_from rx rep (Some c) tl (S i) 0
          | S n => rep ++ replace_all_from rx rep (Some c) tl (S i) n
          end
      | Some mt, [] => rep
      | None, c :: tl => c :: replace_all_from rx rep (Some c) tl (S i) 0
      | None, [] => []
      end
  end.

(** [s.replace(rx, rep)]; no replacement text of the source contains [$]. *)
Definition String_replace (s : jsstring) (rx : regex) (rep : jsstring) : jsstring :=
  if global rx then replace_all_from rx rep None s 0 0 else replace_first rx rep s.

(** ** Completions *)

(** A call either returns or throws; the only error the code could raise is
    a TypeError, from a method call on [undefined]. *)
Inductive error := TypeError.

Inductive completion (A : Type) :=
| Normal (a : A)
| Throw (e : error).
Arguments Normal {A} a.
Arguments Throw {A} e.

Global Instance completion_ret : MRet completion := fun A a => Normal a.

Global Instance completion_bind : MBind completion := fun A B f c =>
  match c with
  | Normal a => f a
  | Throw e => Throw e
  end.

(** ** The numeral converter *)

(** The object literal [chineseNumbers].  A lookup of a key it does not own
    gives [undefined]; the names it inherits from [Object.prototype] are ASCII
    identifiers and never reach it, the caller passing one or two code units
    of the class [[一二三四五六七八九十\d]]. *)
Definition chineseNumbers : gmap jsstring Z :=
  list_to_map
    [ ([19968], 1%Z); ([20108], 2%Z); ([19977], 3%Z); ([22235], 4%Z);
      ([20116], 5%Z); ([20845], 6%Z); ([19971], 7%Z); ([20843], 8%Z);
      ([20061], 9%Z); ([21313], 10%Z) ].

(** [v || d] on a looked-up value. *)
Definition or_else (v : option Z) (d : Z) : Z :=
  match v with
  | Some z => if (z =? 0)%Z then d else z
  | None => d
  end.

(** [/^\d+$/] *)
Definition re_all_digits : regex :=
  RegEx (seq [Bol; Rep [ClsDigit] 1%nat None; Eol]) false false.

Definition shi : N := 21313. (* 十 *)

(** [chineseNumberToInt(str)] on the strings the patterns capture, Chinese
    numerals and digits.  Up to 15 code units every number that occurs is an
    integer below 10^15, which a JavaScript number holds exactly; the model
    is meant for those strings only (on longer digit strings JavaScript
    rounds, and an ASCII name could be a key [chineseNumbers] inherits). *)
Definition chineseNumberToInt (str : jsstring) : number :=
  if RegExp_test re_all_digits str then parseInt str
  else if bool_decide (str = [shi]) then Num 10
  else if startsWith str [shi] then
    let unit := drop 1 str in
    Num (10 + or_else (chineseNumbers !! unit) 0)
  else if endsWith str [shi] then
    let tens := substring str 0 (length str - 1) in
    Num (or_else (chineseNumbers !! tens) 0 * 10)
  else
    match indexOf str shi with
    | Some tenIndex =>
        let tens := substring str 0 tenIndex in
        let units := drop (tenIndex + 1) str in
        Num (or_else (chineseNumbers !! tens) 0 * 10
             + or_else (chineseNumbers !! units) 0)
    | None =>
        let fallback := if truthy (parseInt str) then parseInt str else Num 1 in
        match chineseNumbers !! str with
        | Some z => if (z =? 0)%Z then fallback else Num z
        | None => fallback
        end
    end.

(** [chineseNumberToInt(match[1])]: on [undefined] the test and the
    comparison fail and [str.startsWith] throws. *)
Definition chineseNumberToInt_arg (g : option jsstring) : completion number :=
  match g with
  | Some str => Normal (chineseNumberToInt str)
  | None => Throw TypeError
  end.

(** [parseInt(match[1], 10)]: [undefined] reads as the text "undefined". *)
Definition parseInt_arg (g : option jsstring) : number :=
  match g with
  | Some str => parseInt str
  | None => NaN
  end.

(** ** The season rules *)

Record season_pattern := SeasonPattern {
  sp_regex : regex;
  sp_extract : rmatch -> completion (option number)
}.

Definition cls_Ss : list catom := [Lit 83; Lit 115].

Definition digits_1_2 : re := Rep [ClsDigit] 1%nat (Some 2%nat).

(** [[一二三四五六七八九十\d]] *)
Definition cls_numeral : list catom :=
  [Lit 19968; Lit 20108; Lit 19977; Lit 22235; Lit 20116; Lit 20845;
   Lit 19971; Lit 20843; Lit 20061; Lit 21313; ClsDigit].

Definition numeral_1_2 : re := Rep cls_numeral 1%nat (Some 2%nat).

(** The letters of "Season". *)
Definition word_Season : re :=
  seq [chr 83; chr 101; chr 97; chr 115; chr 111; chr 110].

(** [/\[([Ss]\d{1,2})\]/] *)
Definition re_bracket_S : regex :=
  RegEx (seq [chr 91; Cap (seq [Class cls_Ss; digits_1_2]); chr 93]) false false.

(** [/[Ss](\d{1,2})/], the pattern the first extractor runs on [match[1]]. *)
Definition re_inner_S : regex :=
  RegEx (seq [Class cls_Ss; Cap digits_1_2]) false false.

(** [/\b[Ss](\d{1,2})\b/] *)
Definition re_bare_S : regex :=
  RegEx (seq [WordB; Class cls_Ss; Cap digits_1_2; WordB]) false false.

(** [/\[Season\s+(\d{1,2})\]/i] *)
Definition re_bracket_Season : regex :=
  RegEx (seq [chr 91; word_Season; Rep [ClsSpace] 1%nat None; Cap digits_1_2; chr 93])
    true false.

(** [/\bSeason\s+(\d{1,2})\b/i] *)
Definition re_bare_Season : regex :=
  RegEx (seq [WordB; word_Season; Rep [ClsSpace] 1%nat None; Cap digits_1_2; WordB])
    true false.

(** [/\[第([一二三四五六七八九十\d]{1,2})季\]/] *)
Definition re_bracket_ji : regex :=
  RegEx (seq [chr 91; chr 31532; Cap numeral_1_2; chr 23395; chr 93]) false false.

(** [/第([一二三四五六七八九十\d]{1,2})季/] *)
Definition re_bare_ji : regex :=
  RegEx (seq [chr 31532; Cap numeral_1_2; chr 23395]) false false.

(** [/\[第([一二三四五六七八九十\d]{1,2})部\]/] *)
Definition re_bracket_bu : regex :=
  RegEx (seq [chr 91; chr 31532; Cap numeral_1_2; chr 37096; chr 93]) false false.

(** [/第([一二三四五六七八九十\d]{1,2})部/] *)
Definition re_bare_bu : regex :=
  RegEx (seq [chr 31532; Cap numeral_1_2; chr 37096]) false false.

(** The extractor of the first rule: [match[1].match(/[Ss](\d{1,2})/)], then
    [parseInt] of its group, or [null]. *)
Definition extract_bracket_S (mt : rmatch) : completion (option number) :=
  match group1 mt with
  | None => Throw TypeError
  | Some g =>
      match String_match g re_inner_S with
      | Some seasonMatch => Normal (Some (parseInt_arg (group1 seasonMatch)))
      | None => Normal None
      end
  end.

Definition extract_parseInt (mt : rmatch) : completion (option number) :=
  Normal (Some (parseInt_arg (group1 mt))).

Definition extract_chinese (mt : rmatch) : completion (option number) :=
  n ← chineseNumberToInt_arg (group1 mt); Normal (Some n).

(** The rule table, in priority order. *)
Definition patterns : list season_pattern :=
  [ SeasonPattern re_bracket_S extract_bracket_S;
    SeasonPattern re_bare_S extract_parseInt;
    SeasonPattern re_bracket_Season extract_parseInt;
    SeasonPattern re_bare_Season extract_parseInt;
    SeasonPattern re_bracket_ji extract_chinese;
    SeasonPattern re_bare_ji extract_chinese;
    SeasonPattern re_bracket_bu extract_chinese;
    SeasonPattern re_bare_bu extract_chinese ].

(** The loop over the rules: the state it leaves is [seasonNumber] and the
    working title. *)
Fixpoint season_loop (ps : list season_pattern) (cleanTitle : jsstring)
    : completion (option number * jsstring) :=
  match ps with
  | [] => Normal (None, cleanTitle)
  | pattern :: ps' =>
      match String_match cleanTitle (sp_regex pattern) with
      | Some mt =>
          extracted ← sp_extract pattern mt;
          match extracted with
          | Some n =>
              Normal (Some n, trim (String_replace cleanTitle (sp_regex pattern) []))
          | None => season_loop ps' cleanTitle
          end
      | None => season_loop ps' cleanTitle
      end
  end.

(** ** The year rules *)

Definition digits_4 : re := Rep [ClsDigit] 4%nat (Some 4%nat).

(** [/\[(\d{4})\]/] *)
Definition re_year_bracket : regex :=
  RegEx (seq [chr 91; Cap digits_4; chr 93]) false false.

(** [/\((\d{4})\)/] *)
Definition re_year_paren : regex :=
  RegEx (seq [chr 40; Cap digits_4; chr 41]) false false.

(** [/\b(\d{4})\b/] *)
Definition re_year_bare : regex :=
  RegEx (seq [WordB; Cap digits_4; WordB]) false false.

Definition yearPatterns : list regex :=
  [re_year_bracket; re_year_paren; re_year_bare].

Fixpoint year_loop (ps : list regex) (cleanTitle : jsstring)
    : option number * jsstring :=
  match ps with
  | [] => (None, cleanTitle)
  | yearPattern :: ps' =>
      match String_match cleanTitle yearPattern with
      | Some yearMatch =>
          let extractedYear := parseInt_arg (group1 yearMatch) in
          if num_ge extractedYear 1900 && num_le extractedYear 2100 then
            (Some extractedYear, trim (String_replace cleanTitle yearPattern []))
          else year_loop ps' cleanTitle
      | None => year_loop ps' cleanTitle
      end
  end.

(** ** Normalizing and cleaning *)

(** [/_/g] *)
Definition re_underscore : regex := RegEx (chr 95) false true.

(** [/\[\s*\]/g] *)
Definition re_empty_brackets : regex :=
  RegEx (seq [chr 91; Rep [ClsSpace] 0%nat None; chr 93]) false true.

(** [/\(\s*\)/g] *)
Definition re_empty_parens : regex :=
  RegEx (seq [chr 40; Rep [ClsSpace] 0%nat None; chr 41]) false true.

(** [/\s+/g] *)
Definition re_spaces : regex := RegEx (Rep [ClsSpace] 1%nat None) false true.

(** [/[·\-_\s]+$/] *)
Definition re_trailing : regex :=
  RegEx (seq [Rep [Lit 183; Lit 45; Lit 95; ClsSpace] 1%nat None; Eol]) false false.

Definition normalize (title : jsstring) : jsstring :=
  String_replace title re_underscore [32].

Definition clean (t : jsstring) : jsstring :=
  trim
    (String_replace
       (String_replace
          (String_replace (String_replace t re_empty_brackets []) re_empty_parens [])
          re_spaces [32])
       re_trailing []).

(** ** The parser *)

Record SeasonInfo := mkSeasonInfo {
  cleanTitle : jsstring;
  seasonNumber : option number;
  year : option number;
  originalTitle : jsstring
}.

Definition parseSeasonFromTitle (title : jsstring) : completion SeasonInfo :=
  let originalTitle := title in
  let cleanTitle := normalize title in
  '(seasonNumber, cleanTitle) ← season_loop patterns cleanTitle;
  let '(year, cleanTitle) := year_loop yearPatterns cleanTitle in
  let cleanTitle := clean cleanTitle in
  Normal (mkSeasonInfo cleanTitle seasonNumber year originalTitle).

(** ** Writing test inputs *)

(** The code units of a string literal, which Rocq holds as UTF-8 bytes. *)
Fixpoint utf16_of_utf8 (bs : list N) : jsstring :=
  match bs with
  | [] => []
  | b0 :: tl =>
      if b0 <? 128 then b0 :: utf16_of_utf8 tl
      else if b0 <? 224 then
        match tl with
        | b1 :: tl1 => ((b0 mod 32) * 64 + b1 mod 64) :: utf16_of_utf8 tl1
        | _ => []
        end
      else if b0 <? 240 then
        match tl with
        | b1 :: b2 :: tl2 =>
            ((b0 mod 16) * 4096 + (b1 mod 64) * 64 + b2 mod 64) :: utf16_of_utf8 tl2
        | _ => []
        end
      else
        match tl with
        | b1 :: b2 :: b3 :: tl3 =>
            let cp := (b0 mod 8) * 262144 + (b1 mod 64) * 4096
                      + (b2 mod 64) * 64 + b3 mod 64 - 65536 in
            (55296 + cp / 1024) :: (56320 + cp mod 1024) :: utf16_of_utf8 tl3
        | _ => []
        end
  end.

Definition js (s : string) : jsstring :=
  utf16_of_utf8 (Ascii.N_of_ascii <$> String.list_ascii_of_string s).

(** ** Notions used to state the properties *)

(** [s.includes(tok)]: [tok] occurs in [s] as a contiguous substring. *)
Fixpoint includes (s tok : jsstring) : bool :=
  startsWith s tok ||
  match s with
  | [] => false
  | _ :: tl => includes tl tok
  end.

(** The rule of the table that fires on a title, with its match and the
    number it extracts: the first rule whose pattern matches and whose
    extractor does not return [null]. *)
Fixpoint fired_rule (ps : list season_pattern) (t : jsstring)
    : completion (option (season_pattern * rmatch * number)) :=
  match ps with
  | [] => Normal None
  | pattern :: ps' =>
      match String_match t (sp_regex pattern) with
      | Some mt =>
          extracted ← sp_extract pattern mt;
          match extracted with
          | Some n => Normal (Some (pattern, mt, n))
          | None => fired_rule ps' t
          end
      | None => fired_rule ps' t
      end
  end.

(** The code unit before the position reached after reading [w]. *)
Definition prev_after (p : option N) (w : jsstring) : option N :=
  match last w with
  | Some c => Some c
  | None => p
  end.

(** What a pattern matches, as a relation between the state before and the
    state after, without the order in which the matcher tries things. *)
Inductive matches (ci : bool) : re -> mstate -> mstate -> Prop :=
| M_Eps st : matches ci Eps st st
| M_Seq a b st1 st2 st3 :
    matches ci a st1 st2 -> matches ci b st2 st3 -> matches ci (Seq a b) st1 st3
| M_Class cs p c tl i cp :
    cls_mem ci cs c = true ->
    matches ci (Class cs) (MState p (c :: tl) i cp) (MState (Some c) tl (S i) cp)
| M_Rep cs lo hi w p s i cp :
    Forall (fun c => cls_mem ci cs c = true) w ->
    (lo <= length w)%nat ->
    (forall h, hi = Some h -> (length w <= h)%nat) ->
    matches ci (Rep cs lo hi) (MState p (w ++ s) i cp)
      (MState (prev_after p w) s (i + length w) cp)
| M_WordB st :
    word_boundary (before st) (rest st) = true -> matches ci WordB st st
| M_Bol st : idx st = 0%nat -> matches ci Bol st st
| M_Eol st : rest st = [] -> matches ci Eol st st
| M_Cap r st st' :
    matches ci r st st' ->
    matches ci (Cap r) st
      (MState (before st') (rest st') (idx st')
         (Some (take (idx st' - idx st) (rest st)))).

(** The classes a match of the pattern must read a code unit from. *)
Fixpoint requires (r : re) : list (list catom) :=
  match r with
  | Seq a b => requires a ++ requires b
  | Class cs => [cs]
  | Rep cs (S _) _ => [cs]
  | Cap r' => requires r'
  | _ => []
  end.

(** The body of the capture group of a pattern (of the last one, were there
    several). *)
Fixpoint cap_body (r : re) : option re :=
  match r with
  | Seq a b =>
      match cap_body b with
      | Some x => Some x
      | None => cap_body a
      end
  | Cap x => Some x
  | _ => None
  end.

(** The least number of code units a match of the pattern reads. *)
Fixpoint min_len (r : re) : nat :=
  match r with
  | Seq a b => min_len a + min_len b
  | Class _ => 1
  | Rep _ lo _ => lo
  | Cap r' => min_len r'
  | _ => 0
  end.

(** What [/_/g] with [' '] does to one code unit. *)
Definition underscore_to_space (c : N) : N := if c =? 95 then 32 else c.

(** The code units of the class [[一二三四五六七八九十\d]]. *)
Definition numeral_chars : list N :=
  [19968; 20108; 19977; 22235; 20116; 20845; 19971; 20843; 20061; 21313;
   48; 49; 50; 51; 52; 53; 54; 55; 56; 57].

(** An integer between [lo] and [hi]. *)
Definition num_between (lo hi : Z) (n : number) : bool :=
  match n with
  | NaN => false
  | Num z => (lo <=? z)%Z && (z <=? hi)%Z
  end.

(** What [/\s+/g] with [' '] does to the first code unit of a run. *)
Definition ws_to_space (c : N) : N := if is_ws c then 32 else c.

(** The Chinese digit that stands for 1..9 (the keys of [chineseNumbers]
    other than 十). *)
Definition numeral_of (v : Z) : N :=
  match v with
  | 1%Z => 19968 (* 一 *)
  | 2%Z => 20108 (* 二 *)
  | 3%Z => 19977 (* 三 *)
  | 4%Z => 22235 (* 四 *)
  | 5%Z => 20116 (* 五 *)
  | 6%Z => 20845 (* 六 *)
  | 7%Z => 19971 (* 七 *)
  | 8%Z => 20843 (* 八 *)
  | 9%Z => 20061 (* 九 *)
  | _ => 0
  end.

(** A bracket-wrapped Latin season marker of the title [t], after [pre]:
    "[S" or "[s", the one or two digits [ds], "]". *)
Definition bracket_marker_at (t pre ds : jsstring) : Prop :=
  exists c post,
    t = pre ++ 91 :: c :: ds ++ 93 :: post
    /\ (c = 83 \/ c = 115)
    /\ Forall (fun d => is_digit d = true) ds
    /\ (1 <= length ds <= 2)%nat.

(** The string starts with four digits wrapped in [l] and [r]. *)
Definition wrapped_year_here (l r : N) (s : jsstring) : bool :=
  match s with
  | c0 :: d1 :: d2 :: d3 :: d4 :: c5 :: _ =>
      (c0 =? l) && is_digit d1 && is_digit d2 && is_digit d3 && is_digit d4
      && (c5 =? r)
  | _ => false
  end.

(** The string contains four digits wrapped in [l] and [r]. *)
Fixpoint has_wrapped_year (l r : N) (s : jsstring) : bool :=
  wrapped_year_here l r s ||
  match s with
  | [] => false
  | _ :: tl => has_wrapped_year l r tl
  end.

(** The string starts with a run of exactly four digits that no word
    character precedes ([prev] is the code unit before the string) or
    follows. *)
Definition bare_year_here (prev : option N) (s : jsstring) : bool :=
  match s with
  | d1 :: d2 :: d3 :: d4 :: tl =>
      negb (from_option is_word false prev)
      && is_digit d1 && is_digit d2 && is_digit d3 && is_digit d4
      && negb (from_option is_word false (head tl))
  | _ => false
  end.

(** The digits of the first bare 4-digit run of the string. *)
Fixpoint first_bare_year (prev : option N) (s : jsstring) : option jsstring :=
  if bare_year_here prev s then Some (take 4 s)
  else
    match s with
    | [] => None
    | c :: tl => first_bare_year (Some c) tl
    end.

(** The Chinese numerals 一 to 十. *)
Definition chinese_digits : list N :=
  [19968; 20108; 19977; 22235; 20116; 20845; 19971; 20843; 20061; 21313].

(** No code unit of the list [L] belongs to the class. *)
Definition class_misses (ci : bool) (cs : list catom) (L : list N) : bool :=
  forallb (fun c => negb (cls_mem ci cs c)) L.

(** The space that underscores and white space end up as. *)
Definition fold_space (c : N) : N :=
  if (c =? 95) || is_ws c then 32 else c.

(** Parsing the clean title again and again: how many of the first [n]
    parses of the chain [t], [cleanTitle] of its parse, [cleanTitle] of the
    parse of that, ... find a season. *)
Fixpoint seasons_found (n : nat) (t : jsstring) : nat :=
  match n with
  | O => O
  | S n' =>
      match parseSeasonFromTitle t with
      | Normal r =>
          ((match seasonNumber r with Some _ => 1 | None => 0 end)
           + seasons_found n' (cleanTitle r))%nat
      | Throw _ => O
      end
  end.

(** ** Notions used for the further properties *)

(** Letters and digits: the word characters other than the underscore. *)
Definition is_alnum (c : N) : bool := is_upper c || is_lower c || is_digit c.

(** The class of [/[·\-_\s]+$/]. *)
Definition cls_trailing : list catom := [Lit 183; Lit 45; Lit 95; ClsSpace].

(** Every white-space code unit of the string is a space that no white space
    follows. *)
Fixpoint single_spaced (s : jsstring) : bool :=
  match s with
  | [] => true
  | c :: tl =>
      (if is_ws c then (c =? 32) && negb (from_option is_ws false (head tl))
       else true)
      && single_spaced tl
  end.

(** The letters a season token starts with: S, s and 第. *)
Definition is_marker_letter (c : N) : bool :=
  (c =? 83) || (c =? 115) || (c =? 31532).

(** The digits of the leftmost run of four digits wrapped in [l] and [r]. *)
Fixpoint first_wrapped_year (l r : N) (s : jsstring) : option jsstring :=
  if wrapped_year_here l r s then Some (take 4 (drop 1 s))
  else
    match s with
    | [] => None
    | _ :: tl => first_wrapped_year l r tl
    end.

(** The digits, when they stand for a number from 1900 to 2100. *)
Definition accept_year (o : option jsstring) : option jsstring :=
  match o with
  | Some ds =>
      if (1900 <=? decimal ds)%Z && (decimal ds <=? 2100)%Z then Some ds else None
  | None => None
  end.

(** The year of a title, class by class: of each class only the leftmost
    occurrence counts. *)
Definition year_of_title (s : jsstring) : option jsstring :=
  match accept_year (first_wrapped_year 91 93 s) with
  | Some ds => Some ds
  | None =>
      match accept_year (first_wrapped_year 40 41 s) with
      | Some ds => Some ds
      | None => accept_year (first_bare_year None s)
      end
  end.

(** A bare Latin season marker of [s], after [pre]: S or s and the one or two
    digits [ds], with no word character before or after. *)
Definition bare_marker_at (s pre ds : jsstring) : Prop :=
  exists c post,
    s = pre ++ c :: ds ++ post
    /\ (c = 83 \/ c = 115)
    /\ Forall (fun d => is_digit d = true) ds
    /\ (1 <= length ds <= 2)%nat
    /\ from_option is_word false (last pre) = false
    /\ from_option is_word false (head post) = false.

(** A Chinese season marker of [s], after [pre]: 第, the one or two numerals
    or digits [w], 季. *)
Definition ji_marker_at (s pre w : jsstring) : Prop :=
  exists post,
    s = pre ++ 31532 :: w ++ 23395 :: post
    /\ Forall (fun c => cls_mem false cls_numeral c = true) w
    /\ (1 <= length w <= 2)%nat.

(** A tidy string: single-spaced, not starting with white space and not
    ending with a code unit of [[·\-_\s]]. *)
Definition tidy (s : jsstring) : bool :=
  single_spaced s
  && negb (from_option is_ws false (head s))
  && negb (from_option (cls_mem false cls_trailing) false (last s)).

(** The Chinese digits 一..九. *)
Definition chinese_units : list N :=
  [19968; 20108; 19977; 22235; 20116; 20845; 19971; 20843; 20061].

Definition decimal_digits : list N := [48; 49; 50; 51; 52; 53; 54; 55; 56; 57].

(** The values of [chineseNumberToInt] on the two-character strings that mix
    digits and Chinese numerals. *)
Definition pair_values_check : bool :=
  forallb (fun d =>
    num_between 10 10 (chineseNumberToInt [shi; d])
    && num_between 0 0 (chineseNumberToInt [d; shi])
    && forallb (fun x =>
         num_between 1 1 (chineseNumberToInt [x; d])
         && (let v := if d =? 48 then 1%Z else Z.of_N (d - 48) in
             num_between v v (chineseNumberToInt [d; x])))
         chinese_units)
    decimal_digits
  && forallb (fun x =>
       forallb (fun y => num_between 1 1 (chineseNumberToInt [x; y])) chinese_units)
       chinese_units.

(** The word "Season" in upper case; a casing of it is a string whose
    letters canonicalize to these. *)
Definition season_letters : jsstring := [83; 69; 65; 83; 79; 78].

(** A Season-word marker at [pre]: a casing of "Season", white space, one
    or two digits, with no word character before or after. *)
Definition season_word_at (s pre ds : jsstring) : Prop :=
  exists w sp post,
    s = pre ++ w ++ sp ++ ds ++ post
    /\ canon <$> w = season_letters
    /\ sp <> [] /\ Forall (fun c => is_ws c = true) sp
    /\ Forall (fun d => is_digit d = true) ds /\ (1 <= length ds <= 2)%nat
    /\ from_option is_word false (last pre) = false
    /\ from_option is_word false (head post) = false.

(** A title laid out as name, space, [S] and the season digits, space, the
    year in parentheses: "Name S01 (2020)". *)
Definition canonical_title (name ds ys : jsstring) : jsstring :=
  name ++ [32; 83] ++ ds ++ [32; 40] ++ ys ++ [41].

(** * Properties *)

Local Arguments N.eqb : simpl never.
Local Arguments N.leb : simpl never.
Local Arguments N.ltb : simpl never.

(** ** The matcher *)

Section Matcher.
Variable ci : bool.

Lemma prev_after_nil p : prev_after p [] = p.
Proof. reflexivity. Qed.

Lemma prev_after_cons p c w : prev_after p (c :: w) = prev_after (Some c) w.
Proof.
  unfold prev_after. destruct w as [|d w]; [reflexivity|].
  change (last (c :: d :: w)) with (last (d :: w)).
  destruct (last (d :: w)) eqn:E; [reflexivity|].
  apply last_None in E. discriminate.
Qed.

Lemma prev_after_app p w1 w2 :
  prev_after p (w1 ++ w2) = prev_after (prev_after p w1) w2.
Proof.
  revert p. induction w1 as [|c w1 IH]; intros p; [reflexivity|].
  simpl. rewrite !prev_after_cons. apply IH.
Qed.

Lemma matches_rep cs lo hi w p s s0 i j q cp :
  Forall (fun c => cls_mem ci cs c = true) w ->
  (lo <= length w)%nat ->
  (forall h, hi = Some h -> (length w <= h)%nat) ->
  s0 = w ++ s -> j = (i + length w)%nat -> q = prev_after p w ->
  matches ci (Rep cs lo hi) (MState p s0 i cp) (MState q s j cp).
Proof. intros ? ? ? -> -> ->. by constructor. Qed.

Lemma rep_greedy_sound s : forall cs lo hi k p i cp res,
  rep_greedy ci cs lo hi k p s i cp = Some res ->
  exists st', matches ci (Rep cs lo hi) (MState p s i cp) st' /\ k st' = Some res.
Proof.
  induction s as [|c tl IH]; intros cs lo hi k p i cp res H; simpl in H.
  - destruct (Nat.eqb_spec lo 0) as [->|]; [|discriminate].
    exists (MState p [] i cp). split; [|exact H].
    eapply matches_rep with (w := []); simpl; eauto with lia.
  - assert (Hstop : (if (lo =? 0)%nat then k (MState p (c :: tl) i cp) else None)
                    = Some res ->
            exists st', matches ci (Rep cs lo hi) (MState p (c :: tl) i cp) st'
                        /\ k st' = Some res).
    { destruct (Nat.eqb_spec lo 0) as [->|]; [|discriminate]. intros Hk.
      exists (MState p (c :: tl) i cp). split; [|exact Hk].
      eapply matches_rep with (w := []); simpl; eauto with lia. }
    destruct (hi_allows hi && cls_mem ci cs c) eqn:Hc; [|auto].
    apply andb_true_iff in Hc as [Hhi Hmem].
    destruct (rep_greedy ci cs (pred lo) (pred <$> hi) k (Some c) tl (S i) cp)
      as [r|] eqn:Hr; [|auto].
    injection H as ->.
    apply IH in Hr as (st' & Hm & Hk). exists st'. split; [|exact Hk].
    inversion Hm as [| | |? ? ? w ? s' ? ? Hw Hlo Hhi' | | | |]; subst.
    eapply matches_rep with (w := c :: w); simpl.
    + by constructor.
    + lia.
    + intros h ->. destruct h as [|h]; [discriminate|].
      specialize (Hhi' h eq_refl). lia.
    + reflexivity.
    + lia.
    + by rewrite prev_after_cons.
Qed.

Lemma m_sound r : forall k st res,
  m ci r k st = Some res ->
  exists st', matches ci r st st' /\ k st' = Some res.
Proof.
  induction r as [|a IHa b IHb|cs|cs lo hi| | | |r IH]; intros k st res H; simpl in H.
  - exists st. split; [constructor|done].
  - apply IHa in H as (st2 & Ha & H). apply IHb in H as (st3 & Hb & H).
    exists st3. split; [econstructor; eauto|done].
  - destruct st as [p s i cp]. simpl in H. destruct s as [|c tl]; [done|].
    destruct (cls_mem ci cs c) eqn:Hc; [|done].
    eexists. split; [by constructor|done].
  - destruct st as [p s i cp]. by apply rep_greedy_sound.
  - destruct (word_boundary (before st) (rest st)) eqn:Hb; [|done].
    exists st. split; [by constructor|done].
  - destruct (Nat.eqb_spec (idx st) 0); [|done].
    exists st. split; [by constructor|done].
  - destruct (rest st) eqn:Hr; [|done].
    exists st. split; [by constructor|done].
  - apply IH in H as (st' & Hm & H).
    eexists. split; [apply M_Cap; exact Hm|exact H].
Qed.

Lemma rep_greedy_complete w : forall cs lo hi k p s i cp res,
  Forall (fun c => cls_mem ci cs c = true) w ->
  (lo <= length w)%nat ->
  (forall h, hi = Some h -> (length w <= h)%nat) ->
  k (MState (prev_after p w) s (i + length w) cp) = Some res ->
  is_Some (rep_greedy ci cs lo hi k p (w ++ s) i cp).
Proof.
  induction w as [|c w IH]; intros cs lo hi k p s i cp res Hw Hlo Hhi Hk.
  - simpl in *. assert (lo = 0)%nat as -> by lia.
    rewrite Nat.add_0_r, prev_after_nil in Hk.
    destruct s as [|c tl]; simpl; [by rewrite Hk|].
    destruct (hi_allows hi && cls_mem ci cs c); [|by rewrite Hk].
    destruct (rep_greedy _ _ _ _ _ _ _ _ _); [done|by rewrite Hk].
  - inversion Hw as [|? ? Hc Hw']; subst. simpl in *.
    assert (hi_allows hi = true) as ->.
    { destruct hi as [[|h]|]; try done. specialize (Hhi _ eq_refl). lia. }
    rewrite Hc. simpl.
    destruct (IH cs (pred lo) (pred <$> hi) k (Some c) s (S i) cp res) as [r Hr].
    + done.
    + lia.
    + intros h Hh. destruct hi as [h'|]; [|done]. simpl in Hh.
      injection Hh as <-. specialize (Hhi _ eq_refl). lia.
    + rewrite <- (prev_after_cons p). by replace (S i + length w)%nat
        with (i + S (length w))%nat by lia.
    + by rewrite Hr.
Qed.

Lemma m_complete r st st' :
  matches ci r st st' ->
  forall k res, k st' = Some res -> is_Some (m ci r k st).
Proof.
  induction 1 as [st|a b st1 st2 st3 _ IHa _ IHb|cs p c tl i cp Hc
                 |cs lo hi w p s i cp Hw Hlo Hhi|st Hb|st Hi|st Hr|r st st' _ IH];
    intros k res Hk; simpl.
  - by rewrite Hk.
  - destruct (IHb k res Hk) as [res' Hb]. by eapply IHa.
  - by rewrite Hc, Hk.
  - by eapply rep_greedy_complete.
  - by rewrite Hb, Hk.
  - by rewrite Hi, Hk.
  - by rewrite Hr, Hk.
  - by eapply (IH (fun st'' => k (MState (before st'') (rest st'') (idx st'')
                                   (Some (take (idx st'' - idx st) (rest st)))))).
Qed.

(** A match reads a prefix of what is left of the input. *)
Lemma matches_reads r st st' :
  matches ci r st st' ->
  exists w, rest st = w ++ rest st' /\ idx st' = (idx st + length w)%nat
            /\ before st' = prev_after (before st) w
            /\ (min_len r <= length w)%nat
            /\ forall cs, cs ∈ requires r -> exists c, c ∈ w /\ cls_mem ci cs c = true.
Proof.
  induction 1 as [st|a b st1 st2 st3 _ IHa _ IHb|cs p c tl i cp Hc
                 |cs lo hi w p s i cp Hw Hlo Hhi|st Hb|st Hi|st Hr|r st st' _ IH];
    simpl.
  - exists []. split_and!; simpl; auto with lia. intros cs H. by apply elem_of_nil in H.
  - destruct IHa as (w1 & E1 & I1 & B1 & L1 & R1).
    destruct IHb as (w2 & E2 & I2 & B2 & L2 & R2).
    exists (w1 ++ w2). rewrite E1, E2, I2, I1, B2, B1, length_app, prev_after_app.
    split_and!; simpl; auto with lia. { by rewrite app_assoc. }
    intros cs [H|H]%elem_of_app.
    + destruct (R1 cs H) as (c & ? & ?). exists c. split; [|done].
      apply elem_of_app; auto.
    + destruct (R2 cs H) as (c & ? & ?). exists c. split; [|done].
      apply elem_of_app; auto.
  - exists [c]. split_and!; simpl; auto with lia.
    intros cs' ->%list_elem_of_singleton. exists c. split; [|done]. by left.
  - exists w. split_and!; auto.
    intros cs' H. destruct lo as [|lo]; [by apply elem_of_nil in H|].
    apply list_elem_of_singleton in H as ->.
    destruct w as [|c w]; [simpl in Hlo; lia|].
    inversion Hw; subst. exists c. split; [by left|done].
  - exists []. split_and!; simpl; auto with lia. intros cs H. by apply elem_of_nil in H.
  - exists []. split_and!; simpl; auto with lia. intros cs H. by apply elem_of_nil in H.
  - exists []. split_and!; simpl; auto with lia. intros cs H. by apply elem_of_nil in H.
  - exact IH.
Qed.
End Matcher.

(** ** Searching and replacing *)

Lemma prev_after_None pre : prev_after None pre = last pre.
Proof. unfold prev_after. by destruct (last pre). Qed.

Section Search.
Variable rx : regex.

Lemma match_at_sound p s i mt :
  match_at rx p s i = Some mt ->
  exists st', matches (ignoreCase rx) (source rx) (MState p s i None) st'
              /\ mt = RMatch i (idx st') (cap st').
Proof.
  unfold match_at. intros H.
  destruct (m _ _ _ _) as [st'|] eqn:Hm; [|done]. injection H as <-.
  apply m_sound in Hm as (st'' & Hm & [= ->]). eauto.
Qed.

Lemma match_at_complete p s i st' :
  matches (ignoreCase rx) (source rx) (MState p s i None) st' ->
  is_Some (match_at rx p s i).
Proof.
  intros H. unfold match_at.
  destruct (m_complete _ _ _ _ H Some st' eq_refl) as [r ->]. eauto.
Qed.

Lemma search_Some s : forall p i mt,
  search rx p s i = Some mt ->
  exists pre post,
    s = pre ++ post
    /\ match_at rx (prev_after p pre) post (i + length pre) = Some mt
    /\ forall pre' post', s = pre' ++ post' -> (length pre' < length pre)%nat ->
         match_at rx (prev_after p pre') post' (i + length pre') = None.
Proof.
  induction s as [|c tl IH]; intros p i mt H; simpl in H.
  - destruct (match_at rx p [] i) eqn:E; [|done]. injection H as ->.
    exists [], []. simpl. rewrite Nat.add_0_r. split_and!; [done..|].
    intros ? ? ? ?. lia.
  - destruct (match_at rx p (c :: tl) i) eqn:E.
    + injection H as ->. exists [], (c :: tl). simpl. rewrite Nat.add_0_r.
      split_and!; [done..|]. intros ? ? ? ?. lia.
    + apply IH in H as (pre & post & -> & Hm & Hleft).
      exists (c :: pre), post. rewrite prev_after_cons. simpl.
      replace (i + S (length pre))%nat with (S i + length pre)%nat by lia.
      split_and!; [done..|].
      intros [|c' pre'] post' Heq Hlen; simpl in *.
      * subst post'. by rewrite Nat.add_0_r.
      * injection Heq as <- Heq. rewrite prev_after_cons.
        replace (i + S (length pre'))%nat with (S i + length pre')%nat by lia.
        apply Hleft; [done|lia].
Qed.

Lemma search_None s : forall p i,
  search rx p s i = None ->
  forall pre post, s = pre ++ post ->
    match_at rx (prev_after p pre) post (i + length pre) = None.
Proof.
  induction s as [|c tl IH]; intros p i H pre post Heq; simpl in H.
  - destruct (match_at rx p [] i) eqn:E; [done|].
    symmetry in Heq. apply app_eq_nil in Heq as [-> ->].
    simpl. by rewrite Nat.add_0_r.
  - destruct (match_at rx p (c :: tl) i) eqn:E; [done|].
    destruct pre as [|c' pre]; simpl in *.
    + subst post. by rewrite Nat.add_0_r.
    + injection Heq as <- Heq. rewrite prev_after_cons.
      replace (i + S (length pre))%nat with (S i + length pre)%nat by lia.
      by apply IH.
Qed.

(** The first match: where it sits in the string, what it reads, and that
    no attempt further left succeeds. *)
Lemma exec_Some s mt :
  exec rx s = Some mt ->
  exists pre tok post,
    s = pre ++ tok ++ post
    /\ mt = RMatch (length pre) (length pre + length tok) (group1 mt)
    /\ matches (ignoreCase rx) (source rx)
         (MState (last pre) (tok ++ post) (length pre) None)
         (MState (prev_after (last pre) tok) post (length pre + length tok)
            (group1 mt))
    /\ forall pre' post', s = pre' ++ post' -> (length pre' < length pre)%nat ->
         match_at rx (last pre') post' (length pre') = None.
Proof.
  unfold exec. intros H.
  apply search_Some in H as (pre & post0 & -> & Hm & Hleft).
  rewrite prev_after_None in Hm. simpl in Hm.
  apply match_at_sound in Hm as (st' & Hm & ->).
  destruct (matches_reads _ _ _ _ Hm) as (tok & Hr & Hi & Hb & _).
  destruct st' as [b r j c]. simpl in *. subst.
  exists pre, tok, r. split_and!; [done..|].
  intros pre' post' Heq Hlen. specialize (Hleft pre' post' Heq Hlen).
  by rewrite prev_after_None in Hleft.
Qed.

Lemma exec_None s :
  exec rx s = None ->
  forall pre post, s = pre ++ post -> match_at rx (last pre) post (length pre) = None.
Proof.
  unfold exec. intros H pre post Heq.
  pose proof (search_None _ _ _ H pre post Heq) as Hn.
  by rewrite prev_after_None in Hn.
Qed.

(** A match anywhere makes the search succeed. *)
Lemma exec_complete pre post st' :
  matches (ignoreCase rx) (source rx) (MState (last pre) post (length pre) None) st' ->
  is_Some (exec rx (pre ++ post)).
Proof.
  intros Hm. destruct (exec rx (pre ++ post)) eqn:E; [eauto|].
  apply match_at_complete in Hm as [mt Hm].
  by rewrite (exec_None _ E pre post eq_refl) in Hm.
Qed.

Lemma replace_first_cut s mt pre tok post rep :
  exec rx s = Some mt -> s = pre ++ tok ++ post ->
  index mt = length pre -> endIndex mt = (length pre + length tok)%nat ->
  replace_first rx rep s = pre ++ rep ++ post.
Proof.
  intros He -> Hi Hj. unfold replace_first. rewrite He, Hi, Hj.
  rewrite take_app_length.
  by rewrite (app_assoc pre tok post), <- length_app, drop_app_length.
Qed.

(** Deleting every match only deletes. *)
Lemma replace_all_nil_sublist s : forall p i skip,
  replace_all_from rx [] p s i skip `sublist_of` s.
Proof.
  induction s as [|c tl IH]; intros p i [|skip]; simpl.
  - by destruct (match_at rx p [] i).
  - done.
  - destruct (match_at rx p (c :: tl) i) as [mt|].
    + destruct (endIndex mt - i)%nat.
      * by apply sublist_skip.
      * by apply sublist_cons.
    + by apply sublist_skip.
  - by apply sublist_cons.
Qed.
End Search.

(** ** Trimming *)

Lemma drop_while_suffix p s :
  exists a, s = a ++ drop_while p s /\ Forall (fun c => p c = true) a.
Proof.
  induction s as [|c tl (a & E & Ha)]; simpl.
  - by exists [].
  - destruct (p c) eqn:Hc.
    + exists (c :: a). split; [by rewrite E at 1|by constructor].
    + by exists [].
Qed.

Lemma trim_infix s :
  exists a b, s = a ++ trim s ++ b
              /\ Forall (fun c => is_ws c = true) a
              /\ Forall (fun c => is_ws c = true) b.
Proof.
  unfold trim.
  destruct (drop_while_suffix is_ws s) as (a & Ea & Ha).
  destruct (drop_while_suffix is_ws (reverse (drop_while is_ws s))) as (b & Eb & Hb).
  exists a, (reverse b). split_and!.
  - rewrite <- reverse_app, <- Eb, reverse_involutive. exact Ea.
  - done.
  - by apply Forall_reverse.
Qed.

Lemma trim_sublist s : trim s `sublist_of` s.
Proof.
  destruct (trim_infix s) as (a & b & E & _). rewrite E at 2.
  apply sublist_inserts_l, sublist_inserts_r. done.
Qed.

Lemma drop_while_id p s :
  from_option p false (head s) = false -> drop_while p s = s.
Proof. destruct s as [|c tl]; simpl; [done|]. by intros ->. Qed.

(** A string that neither starts nor ends with white space is its own trim. *)
Lemma trim_id s :
  from_option is_ws false (head s) = false ->
  from_option is_ws false (last s) = false ->
  trim s = s.
Proof.
  intros Hh Hl. unfold trim. rewrite (drop_while_id _ s Hh).
  rewrite drop_while_id; [apply reverse_involutive|].
  by rewrite head_reverse.
Qed.

(** ** Normalizing *)

Lemma replace_underscores t : forall p i,
  replace_all_from re_underscore [32] p t i 0 = underscore_to_space <$> t.
Proof.
  induction t as [|c tl IH]; intros p i; simpl; unfold match_at; simpl; [done|].
  unfold underscore_to_space.
  rewrite orb_false_r, (N.eqb_sym 95 c).
  destruct (c =? 95); simpl.
  - replace (S i - i)%nat with 1%nat by lia. simpl. by rewrite IH.
  - by rewrite IH.
Qed.

Lemma normalize_map t : normalize t = underscore_to_space <$> t.
Proof. apply replace_underscores. Qed.

Lemma normalize_length t : length (normalize t) = length t.
Proof. by rewrite normalize_map, length_fmap. Qed.

(** ** Reading the patterns *)

Ltac unfold_re :=
  cbv [source ignoreCase seq foldr chr digits_4 digits_1_2 numeral_1_2 word_Season
       re_year_bracket re_year_paren re_year_bare re_bracket_S re_inner_S re_bare_S
       re_bracket_Season re_bare_Season re_bracket_ji re_bare_ji re_bracket_bu
       re_bare_bu re_all_digits re_empty_brackets re_empty_parens re_spaces
       re_trailing re_underscore] in *.

Ltac inv_matches :=
  repeat match goal with
  | H : matches _ Eps _ _ |- _ => inversion H; clear H; subst
  | H : matches _ (Seq _ _) _ _ |- _ => inversion H; clear H; subst
  | H : matches _ (Class _) _ _ |- _ => inversion H; clear H; subst
  | H : matches _ (Rep _ _ _) _ _ |- _ => inversion H; clear H; subst
  | H : matches _ WordB _ _ |- _ => inversion H; clear H; subst
  | H : matches _ Bol _ _ |- _ => inversion H; clear H; subst
  | H : matches _ Eol _ _ |- _ => inversion H; clear H; subst
  | H : matches _ (Cap _) _ _ |- _ => inversion H; clear H; subst
  end.

Lemma take_read (i : nat) (w s : jsstring) : take (i + length w - i) (w ++ s) = w.
Proof. replace (i + length w - i)%nat with (length w) by lia. apply take_app_length. Qed.

(** Group 1 holds what the body of the group read. *)
Lemma matches_group ci r st st' :
  matches ci r st st' ->
  match cap_body r with
  | Some body =>
      exists st1 st2, matches ci body st1 st2
                      /\ cap st' = Some (take (idx st2 - idx st1) (rest st1))
  | None => cap st' = cap st
  end.
Proof.
  induction 1 as [st|a b st1 st2 st3 _ IHa _ IHb|cs p c tl i cp Hc
                 |cs lo hi w p s i cp Hw Hlo Hhi|st Hb|st Hi|st Hr|r st st' Hm _];
    simpl; try done.
  - destruct (cap_body b); [done|]. rewrite IHb. exact IHa.
  - eauto.
Qed.

Lemma group_of_rep ci r cs lo hi st st' :
  matches ci r st st' -> cap_body r = Some (Rep cs lo (Some hi)) ->
  exists w, cap st' = Some w /\ Forall (fun c => cls_mem ci cs c = true) w
            /\ (lo <= length w <= hi)%nat.
Proof.
  intros Hm Hb. apply matches_group in Hm. rewrite Hb in Hm.
  destruct Hm as (st1 & st2 & Hm & ->). inv_matches. simpl.
  exists w. rewrite take_read. split_and!; auto.
Qed.

(** ** Code units and numbers *)

Ltac to_prop :=
  repeat first
    [ rewrite andb_true_iff in * | rewrite orb_true_iff in *
    | rewrite andb_false_iff in * | rewrite orb_false_iff in *
    | rewrite N.leb_le in * | rewrite N.leb_gt in *
    | rewrite N.eqb_eq in * | rewrite N.eqb_neq in * ].

Ltac char_lia :=
  unfold is_word, is_upper, is_lower, is_digit, is_ws in *; to_prop; lia.

Lemma digit_range c : is_digit c = true <-> 48 <= c <= 57.
Proof. char_lia. Qed.

Lemma digit_not_ws c : is_digit c = true -> is_ws c = false.
Proof. intros H. apply not_true_iff_false. intros H'. char_lia. Qed.

Lemma digit_word c : is_digit c = true -> is_word c = true.
Proof. intros H. unfold is_word. rewrite H. by rewrite orb_true_r. Qed.

Lemma take_while_all p s :
  Forall (fun c => p c = true) s -> take_while p s = s.
Proof. induction 1 as [|c tl Hc _ IH]; simpl; [done|]. by rewrite Hc, IH. Qed.

Lemma parseInt_digits ds :
  Forall (fun c => is_digit c = true) ds -> ds <> [] ->
  parseInt ds = Num (decimal ds).
Proof.
  intros Hds Hne. destruct ds as [|d tl]; [done|].
  inversion Hds as [|? ? Hd _]; subst.
  unfold parseInt. simpl. rewrite (digit_not_ws _ Hd).
  apply digit_range in Hd.
  destruct (N.eqb_spec d 45); [lia|]. destruct (N.eqb_spec d 43); [lia|].
  by rewrite (take_while_all _ _ Hds).
Qed.

Lemma decimal_1_2 ds :
  Forall (fun c => is_digit c = true) ds -> (1 <= length ds <= 2)%nat ->
  (0 <= decimal ds <= 99)%Z.
Proof.
  intros Hds Hlen.
  destruct ds as [|d1 [|d2 [|]]]; simpl in Hlen; try lia.
  - inversion Hds as [|? ? H1 _]; subst. apply digit_range in H1.
    unfold decimal. simpl. lia.
  - inversion Hds as [|? ? H1 Hds']; subst. inversion Hds' as [|? ? H2 _]; subst.
    apply digit_range in H1, H2. unfold decimal. simpl. lia.
Qed.

Lemma numeral_class_cases c :
  cls_mem false cls_numeral c = true -> c ∈ numeral_chars.
Proof.
  intros H. apply list_elem_of_In. unfold numeral_chars. simpl.
  unfold cls_mem, cls_numeral in H. simpl in H. char_lia.
Qed.

Lemma chinese_range_check :
  forallb (fun c1 =>
     num_between 0 99 (chineseNumberToInt [c1])
     && forallb (fun c2 => num_between 0 99 (chineseNumberToInt [c1; c2]))
          numeral_chars) numeral_chars = true.
Proof. vm_compute. reflexivity. Qed.

Lemma num_between_elim lo hi n :
  num_between lo hi n = true -> exists z, n = Num z /\ (lo <= z <= hi)%Z.
Proof.
  destruct n as [|z]; simpl; [done|]. intros H. exists z. split; [done|lia].
Qed.

Lemma chinese_1_2 w :
  Forall (fun c => cls_mem false cls_numeral c = true) w ->
  (1 <= length w <= 2)%nat ->
  exists z, chineseNumberToInt w = Num z /\ (0 <= z <= 99)%Z.
Proof.
  intros Hw Hlen. pose proof chinese_range_check as Hc.
  rewrite forallb_forall in Hc.
  destruct w as [|c1 [|c2 [|]]]; simpl in Hlen; try lia.
  - inversion Hw as [|? ? H1 _]; subst.
    apply numeral_class_cases, list_elem_of_In, Hc in H1.
    apply andb_true_iff in H1 as [H1 _]. by apply num_between_elim.
  - inversion Hw as [|? ? H1 Hw']; subst. inversion Hw' as [|? ? H2 _]; subst.
    apply numeral_class_cases, list_elem_of_In, Hc in H1.
    apply andb_true_iff in H1 as [_ H1]. rewrite forallb_forall in H1.
    apply numeral_class_cases, list_elem_of_In, H1 in H2.
    by apply num_between_elim.
Qed.

(** ** The season rules: what a match extracts *)

Lemma cls_digit_mem ci c : cls_mem ci [ClsDigit] c = true -> is_digit c = true.
Proof. unfold cls_mem. simpl. by rewrite orb_false_r. Qed.

Lemma exec_group_rep rx s mt cs lo hi :
  exec rx s = Some mt ->
  cap_body (source rx) = Some (Rep cs lo (Some hi)) ->
  exists w, group1 mt = Some w
            /\ Forall (fun c => cls_mem (ignoreCase rx) cs c = true) w
            /\ (lo <= length w <= hi)%nat.
Proof.
  intros (pre & tok & post & _ & _ & Hm & _)%exec_Some Hb.
  by destruct (group_of_rep _ _ _ _ _ _ _ Hm Hb) as (w & Hc & ?); eauto.
Qed.

Lemma extract_parseInt_ok rx s mt :
  exec rx s = Some mt ->
  cap_body (source rx) = Some digits_1_2 ->
  exists z, extract_parseInt mt = Normal (Some (Num z)) /\ (0 <= z <= 99)%Z.
Proof.
  intros He Hb.
  destruct (exec_group_rep _ _ _ _ _ _ He Hb) as (w & Hg & Hw & Hlen).
  assert (Hd : Forall (fun c => is_digit c = true) w).
  { eapply Forall_impl; [exact Hw|]. intros c. apply cls_digit_mem. }
  exists (decimal w). unfold extract_parseInt, parseInt_arg. rewrite Hg.
  rewrite parseInt_digits; [|done|destruct w; simpl in *; [lia|done]].
  split; [done|]. by apply decimal_1_2.
Qed.

Lemma extract_chinese_ok rx s mt :
  ignoreCase rx = false ->
  exec rx s = Some mt ->
  cap_body (source rx) = Some numeral_1_2 ->
  exists z, extract_chinese mt = Normal (Some (Num z)) /\ (0 <= z <= 99)%Z.
Proof.
  intros Hci He Hb.
  destruct (exec_group_rep _ _ _ _ _ _ He Hb) as (w & Hg & Hw & Hlen).
  rewrite Hci in Hw.
  destruct (chinese_1_2 w Hw Hlen) as (z & Hz & Hr).
  exists z. unfold extract_chinese, chineseNumberToInt_arg. rewrite Hg, Hz.
  done.
Qed.

Ltac lit_eqs :=
  repeat match goal with
  | H : (?x =? ?c) || false = true |- _ =>
      rewrite orb_false_r in H; apply N.eqb_eq in H; subst c
  | H : forall h : nat, Some ?n = Some h -> _ |- _ => specialize (H n eq_refl)
  | H : Forall (fun c => is_digit c || false = true) ?w |- _ =>
      setoid_rewrite orb_false_r in H
  end.

(** What the bracketed Latin rule matches at a position. *)
Lemma bracket_S_shape p s i st' :
  matches false (source re_bracket_S) (MState p s i None) st' ->
  exists c ds tl,
    s = 91 :: c :: ds ++ 93 :: tl
    /\ cls_mem false cls_Ss c = true
    /\ Forall (fun d => is_digit d = true) ds
    /\ (1 <= length ds <= 2)%nat
    /\ st' = MState (Some 93) tl (i + (3 + length ds)) (Some (c :: ds)).
Proof.
  intros H. unfold_re. inv_matches. simpl in *. simplify_eq. lit_eqs.
  eexists _, w, _. split_and!; try done.
  replace (S (i + length w) - i)%nat with (S (length w)) by lia.
  simpl. rewrite take_app_length. f_equal. lia.
Qed.

(** The bracketed Latin rule matches wherever a bracketed marker stands. *)
Lemma bracket_S_matches p c ds tl i :
  cls_mem false cls_Ss c = true ->
  Forall (fun d => is_digit d = true) ds ->
  (1 <= length ds <= 2)%nat ->
  exists st', matches false (source re_bracket_S)
                (MState p (91 :: c :: ds ++ 93 :: tl) i None) st'.
Proof.
  intros Hc Hds Hlen. unfold_re. eexists.
  eapply M_Seq; [by apply M_Class|].
  eapply M_Seq; [|eapply M_Seq; [|apply M_Eps]].
  - apply M_Cap. eapply M_Seq; [by apply M_Class|].
    eapply M_Seq; [|apply M_Eps].
    apply M_Rep with (w := ds); [|lia|intros ? [= <-]; lia].
    eapply Forall_impl; [exact Hds|]. intros d Hd. unfold cls_mem. simpl.
    by rewrite Hd.
  - simpl. by apply M_Class.
Qed.

(** The pattern the first extractor runs on the group finds the digits. *)
Lemma inner_S_group c ds :
  cls_mem false cls_Ss c = true ->
  Forall (fun d => is_digit d = true) ds ->
  (1 <= length ds <= 2)%nat ->
  exists mt, exec re_inner_S (c :: ds) = Some mt /\ group1 mt = Some ds.
Proof.
  intros Hc Hds Hlen.
  destruct ds as [|d1 [|d2 [|]]]; simpl in Hlen; try lia.
  - inversion Hds as [|? ? H1 _]; subst.
    unfold exec, search, match_at. unfold_re. simpl.
    unfold cls_mem, cls_Ss in *. simpl in *. rewrite Hc, H1. simpl. eauto.
  - inversion Hds as [|? ? H1 Hds']; subst. inversion Hds' as [|? ? H2 _]; subst.
    unfold exec, search, match_at. unfold_re. simpl.
    unfold cls_mem, cls_Ss in *. simpl in *. rewrite Hc, H1, H2. simpl. eauto.
Qed.

Lemma extract_bracket_S_ok s mt :
  exec re_bracket_S s = Some mt ->
  exists c ds, group1 mt = Some (c :: ds)
    /\ Forall (fun d => is_digit d = true) ds
    /\ (1 <= length ds <= 2)%nat
    /\ extract_bracket_S mt = Normal (Some (Num (decimal ds)))
    /\ (0 <= decimal ds <= 99)%Z.
Proof.
  intros (pre & tok & post & _ & _ & Hm & _)%exec_Some.
  apply bracket_S_shape in Hm as (c & ds & tl & _ & Hc & Hds & Hlen & [= _ _ _ Hg]).
  pose proof (decimal_1_2 ds Hds Hlen).
  exists c, ds. split_and!; try done; try lia.
  unfold extract_bracket_S.
  destruct (inner_S_group c ds Hc Hds Hlen) as (mt' & He & Hg').
  unfold String_match. rewrite Hg, He. unfold parseInt_arg. rewrite Hg'.
  rewrite parseInt_digits; [done|done|]. destruct ds; simpl in *; [lia|done].
Qed.

(** Every rule of the table extracts an integer between 0 and 99 from its
    match; no extractor throws or returns [null] or NaN. *)
Lemma season_extract_ok pattern s mt :
  pattern ∈ patterns ->
  exec (sp_regex pattern) s = Some mt ->
  exists z, sp_extract pattern mt = Normal (Some (Num z)) /\ (0 <= z <= 99)%Z.
Proof.
  unfold patterns. intros Hin He.
  repeat (apply elem_of_cons in Hin as [->|Hin]); simpl in *.
  - apply extract_bracket_S_ok in He as (c & ds & _ & _ & _ & -> & ?). eauto.
  - eapply extract_parseInt_ok; [exact He|reflexivity].
  - eapply extract_parseInt_ok; [exact He|reflexivity].
  - eapply extract_parseInt_ok; [exact He|reflexivity].
  - eapply extract_chinese_ok; [|exact He|]; reflexivity.
  - eapply extract_chinese_ok; [|exact He|]; reflexivity.
  - eapply extract_chinese_ok; [|exact He|]; reflexivity.
  - eapply extract_chinese_ok; [|exact He|]; reflexivity.
  - by apply elem_of_nil in Hin.
Qed.

(** ** The season loop *)

Lemma season_loop_fired ps t :
  season_loop ps t =
  x ← fired_rule ps t;
  match x with
  | Some (pattern, _, n) =>
      Normal (Some n, trim (String_replace t (sp_regex pattern) []))
  | None => Normal (None, t)
  end.
Proof.
  induction ps as [|p ps IH]; simpl; [done|].
  destruct (String_match t (sp_regex p)) as [mt|]; [|exact IH].
  destruct (sp_extract p mt) as [[n|]|e]; simpl; [done|exact IH|done].
Qed.

(** The loop never throws: either no rule matches, or the first rule that
    matches fires with an integer between 0 and 99. *)
Lemma fired_rule_spec ps t :
  (forall p, p ∈ ps -> p ∈ patterns) ->
  (fired_rule ps t = Normal None
   /\ forall p, p ∈ ps -> exec (sp_regex p) t = None)
  \/ exists ps1 p ps2 mt z,
       ps = ps1 ++ p :: ps2
       /\ fired_rule ps t = Normal (Some (p, mt, Num z))
       /\ (forall q, q ∈ ps1 -> exec (sp_regex q) t = None)
       /\ exec (sp_regex p) t = Some mt
       /\ (0 <= z <= 99)%Z.
Proof.
  induction ps as [|p ps IH]; intros Hin; simpl.
  - left. split; [done|]. intros p H. by apply elem_of_nil in H.
  - unfold String_match. destruct (exec (sp_regex p) t) as [mt|] eqn:He.
    + right. destruct (season_extract_ok p t mt) as (z & -> & Hz).
      { apply Hin. by left. } { done. }
      exists [], p, ps, mt, z. simpl. split_and!; try done; try lia.
      intros q H. by apply elem_of_nil in H.
    + destruct IH as [[Hf Hn]|(ps1 & q & ps2 & mt & z & -> & Hf & Hn & He' & Hz)].
      { intros q Hq. apply Hin. by right. }
      * left. split; [done|]. intros q [->|Hq]%elem_of_cons; auto.
      * right. exists (p :: ps1), q, ps2, mt, z. split_and!; try done; try lia.
        intros r [->|Hr]%elem_of_cons; auto.
Qed.

Lemma patterns_not_global p : p ∈ patterns -> global (sp_regex p) = false.
Proof.
  unfold patterns. intros Hin.
  repeat (apply elem_of_cons in Hin as [->|Hin]); try done.
  by apply elem_of_nil in Hin.
Qed.

(** ** Every step only deletes *)

Lemma replace_first_nil_cut rx s mt :
  exec rx s = Some mt ->
  exists pre tok post,
    s = pre ++ tok ++ post /\ replace_first rx [] s = pre ++ post
    /\ index mt = length pre /\ matched s mt = tok
    /\ (min_len (source rx) <= length tok)%nat.
Proof.
  intros He. destruct (exec_Some _ _ _ He) as (pre & tok & post & Hs & Hmt & Hm & _).
  exists pre, tok, post.
  destruct (matches_reads _ _ _ _ Hm) as (w & Hw & _ & _ & Hmin & _). simpl in Hw.
  apply app_inv_tail in Hw. subst w.
  rewrite Hmt. simpl. split_and!; try done.
  - subst s. erewrite replace_first_cut; [done|exact He|done|..]; by rewrite Hmt.
  - subst s. unfold matched, substring. simpl.
    rewrite drop_app_length.
    replace (length pre + length tok - length pre)%nat with (length tok) by lia.
    by rewrite take_app_length.
Qed.

Lemma replace_first_nil_sublist rx s : replace_first rx [] s `sublist_of` s.
Proof.
  destruct (exec rx s) as [mt|] eqn:He.
  - destruct (replace_first_nil_cut _ _ _ He) as (pre & tok & post & Hs & -> & _).
    rewrite Hs. apply sublist_app; [done|]. by apply sublist_inserts_l.
  - unfold replace_first. by rewrite He.
Qed.

Lemma String_replace_nil_sublist s rx : String_replace s rx [] `sublist_of` s.
Proof.
  unfold String_replace. destruct (global rx).
  - apply replace_all_nil_sublist.
  - apply replace_first_nil_sublist.
Qed.

Lemma season_loop_sublist ps t sn t' :
  season_loop ps t = Normal (sn, t') -> t' `sublist_of` t.
Proof.
  revert sn t'. induction ps as [|p ps IH]; intros sn t' H; simpl in H.
  - by injection H as <- <-.
  - destruct (String_match t (sp_regex p)) as [mt|]; [|by eapply IH].
    destruct (sp_extract p mt) as [[n|]|e]; simpl in H; [|by eapply IH|done].
    injection H as <- <-.
    etrans; [apply trim_sublist|apply String_replace_nil_sublist].
Qed.

Lemma year_loop_sublist ps t : (year_loop ps t).2 `sublist_of` t.
Proof.
  induction ps as [|p ps IH]; simpl; [done|].
  destruct (String_match t p) as [ym|]; [|exact IH].
  destruct (num_ge _ 1900 && num_le _ 2100); [|exact IH]. simpl.
  etrans; [apply trim_sublist|apply String_replace_nil_sublist].
Qed.

Lemma spaces_match_ws p c tl i :
  is_Some (match_at re_spaces p (c :: tl) i) <-> is_ws c = true.
Proof.
  split.
  - intros [mt (st' & Hm & _)%match_at_sound]. unfold_re. inv_matches.
    destruct w as [|c' w]; simpl in *; [lia|]. simplify_eq.
    match goal with H : Forall _ (_ :: _) |- _ => inversion H as [|? ? Hc _] end.
    unfold cls_mem in Hc. simpl in Hc. by rewrite orb_false_r in Hc.
  - intros Hc. eapply match_at_complete. unfold_re.
    apply M_Rep with (w := [c]) (s := tl); simpl; [|lia|done].
    constructor; [|done]. unfold cls_mem. simpl. by rewrite Hc.
Qed.

Lemma spaces_match_length p s i mt :
  match_at re_spaces p s i = Some mt -> (i < endIndex mt)%nat.
Proof.
  intros (st' & Hm & ->)%match_at_sound.
  destruct (matches_reads _ _ _ _ Hm) as (w & _ & -> & _ & Hmin & _).
  simpl in *. lia.
Qed.

(** Collapsing white space keeps a subsequence of the string in which every
    white-space code unit is read as a space. *)
Lemma replace_spaces_sublist s : forall p i skip,
  replace_all_from re_spaces [32] p s i skip `sublist_of` (ws_to_space <$> s).
Proof.
  induction s as [|c tl IH]; intros p i [|skip]; simpl.
  - destruct (match_at re_spaces p [] i) eqn:E; [|done].
    apply match_at_sound in E as (st' & Hm & _). unfold_re. inv_matches.
    destruct w; simpl in *; [lia|done].
  - done.
  - destruct (match_at re_spaces p (c :: tl) i) as [mt|] eqn:E.
    + pose proof (spaces_match_length _ _ _ _ E) as Hlen.
      assert (Hc : is_ws c = true) by (apply (spaces_match_ws p c tl i); eauto).
      destruct (endIndex mt - i)%nat eqn:Hd; [lia|]. simpl.
      unfold ws_to_space at 1. rewrite Hc. by apply sublist_skip.
    + assert (Hc : is_ws c = false).
      { apply not_true_iff_false. intros Hc%(spaces_match_ws p c tl i).
        rewrite E in Hc. by destruct Hc. }
      unfold ws_to_space at 1. rewrite Hc. by apply sublist_skip.
  - by apply sublist_cons.
Qed.

Lemma clean_sublist s : clean s `sublist_of` (ws_to_space <$> s).
Proof.
  unfold clean.
  etrans; [apply trim_sublist|].
  etrans; [apply String_replace_nil_sublist|].
  etrans; [apply replace_spaces_sublist|].
  apply fmap_sublist.
  etrans; apply String_replace_nil_sublist.
Qed.

Lemma fold_space_compose c : ws_to_space (underscore_to_space c) = fold_space c.
Proof.
  unfold ws_to_space, underscore_to_space, fold_space.
  destruct (N.eqb_spec c 95) as [->|]; [done|]. simpl. done.
Qed.

(** ** The parser as a whole *)

(** The parser returns: the season loop leaves a number (or nothing) and a
    title, and the record is built from what the year loop and the cleaner
    make of that title. *)
Lemma parse_normal t :
  exists sn s1 r,
    season_loop patterns (normalize t) = Normal (sn, s1)
    /\ parseSeasonFromTitle t = Normal r
    /\ cleanTitle r = clean (year_loop yearPatterns s1).2
    /\ seasonNumber r = sn
    /\ year r = (year_loop yearPatterns s1).1
    /\ originalTitle r = t.
Proof.
  unfold parseSeasonFromTitle. rewrite season_loop_fired.
  destruct (fired_rule_spec patterns (normalize t)) as
    [[-> _]|(ps1 & p & ps2 & mt & z & _ & -> & _)]; [done|..];
    cbn -[year_loop clean normalize trim String_replace].
  - exists None, (normalize t).
    exists (mkSeasonInfo (clean (year_loop yearPatterns (normalize t)).2) None
              (year_loop yearPatterns (normalize t)).1 t).
    split_and!; try done. by destruct (year_loop yearPatterns (normalize t)).
  - set (s1 := trim (String_replace (normalize t) (sp_regex p) [])).
    exists (Some (Num z)), s1.
    exists (mkSeasonInfo (clean (year_loop yearPatterns s1).2) (Some (Num z))
              (year_loop yearPatterns s1).1 t).
    split_and!; try done. by destruct (year_loop yearPatterns s1).
Qed.

Lemma min_len_patterns p : p ∈ patterns -> (2 <= min_len (source (sp_regex p)))%nat.
Proof.
  unfold patterns. intros Hin.
  repeat (apply elem_of_cons in Hin as [->|Hin]); simpl; try lia.
  by apply elem_of_nil in Hin.
Qed.

(** When a rule fires, the loop cuts its match out of the title and trims
    what is left. *)
Lemma season_loop_cut t p mt n :
  fired_rule patterns t = Normal (Some (p, mt, n)) ->
  exists pre post,
    t = pre ++ matched t mt ++ post
    /\ length pre = index mt
    /\ (2 <= length (matched t mt))%nat
    /\ season_loop patterns t = Normal (Some n, trim (pre ++ post)).
Proof.
  intros Hf. rewrite season_loop_fired, Hf. simpl.
  destruct (fired_rule_spec patterns t) as
    [[Hn _]|(ps1 & q & ps2 & mt' & z & Hps & Hf' & _ & He & _)]; [done|..].
  { congruence. }
  rewrite Hf in Hf'. injection Hf' as <- <- ->.
  assert (Hin : p ∈ patterns).
  { rewrite Hps. apply elem_of_app. right. by left. }
  destruct (replace_first_nil_cut _ _ _ He) as (pre & tok & post & Hs & Hr & Hi & Hm & Hmin).
  exists pre, post. rewrite Hm. split_and!; try done.
  - pose proof (min_len_patterns p Hin). lia.
  - unfold String_replace. by rewrite (patterns_not_global p Hin), Hr.
Qed.

Lemma clean_length s : (length (clean s) <= length s)%nat.
Proof.
  etrans; [apply sublist_length, clean_sublist|]. by rewrite length_fmap.
Qed.

Lemma trim_length s : (length (trim s) <= length s)%nat.
Proof. apply sublist_length, trim_sublist. Qed.

Lemma year_loop_length ps s : (length (year_loop ps s).2 <= length s)%nat.
Proof. apply sublist_length, year_loop_sublist. Qed.

Lemma year_loop_range ps s y :
  (year_loop ps s).1 = Some y -> exists z, y = Num z /\ (1900 <= z <= 2100)%Z.
Proof.
  induction ps as [|p ps IH]; simpl; [done|].
  destruct (String_match s p) as [ym|]; [|exact IH].
  destruct (num_ge _ 1900 && num_le _ 2100) eqn:Hr; [|exact IH]. simpl.
  intros [= <-]. apply andb_true_iff in Hr as [Hge Hle].
  destruct (parseInt_arg (group1 ym)) as [|z]; [done|]. simpl in *.
  exists z. split; [done|lia].
Qed.

Lemma includes_infix s tok :
  includes s tok = true <-> exists a b, s = a ++ tok ++ b.
Proof.
  split.
  - induction s as [|c tl IH]; simpl.
    + rewrite orb_false_r. unfold startsWith. intros H%bool_decide_eq_true.
      exists [], []. rewrite take_nil in H. by subst.
    + intros [H|H]%orb_true_iff.
      * unfold startsWith in H. apply bool_decide_eq_true in H.
        exists [], (drop (length tok) (c :: tl)). simpl.
        rewrite <- H at 1. by rewrite take_drop.
      * destruct (IH H) as (a & b & ->). by exists (c :: a), b.
  - intros (a & b & ->). induction a as [|c a IH]; simpl.
    + assert (startsWith (tok ++ b) tok = true) as Hs.
      { unfold startsWith. apply bool_decide_eq_true. by rewrite take_app_length. }
      destruct (tok ++ b); simpl; by rewrite Hs.
    + rewrite IH. by rewrite orb_true_r.
Qed.

Lemma fold_space_map (t : list N) :
  ws_to_space <$> (underscore_to_space <$> t) = fold_space <$> t.
Proof.
  induction t as [|c tl IH]; simpl; [done|].
  rewrite fold_space_compose. f_equal. exact IH.
Qed.

(** ** Strings that lack what a pattern needs *)

Lemma Forall_sublist {A} (P : A -> Prop) (l k : list A) :
  l `sublist_of` k -> Forall P k -> Forall P l.
Proof.
  induction 1 as [|x l k _ IH|x l k _ IH]; intros H; [done|..];
    inversion H; subst; [constructor|]; auto.
Qed.

Lemma Forall_by_forallb (P : N -> bool) (l : list N) :
  forallb (fun c => negb (P c)) l = true -> Forall (fun c => P c = false) l.
Proof.
  rewrite forallb_forall, Forall_forall. intros H c Hc%list_elem_of_In%H.
  by apply negb_true_iff.
Qed.

Section Lacks.
Variables (rx : regex) (cs : list catom).
Hypothesis Hreq : cs ∈ requires (source rx).

Lemma match_at_lacks p s i :
  Forall (fun c => cls_mem (ignoreCase rx) cs c = false) s ->
  match_at rx p s i = None.
Proof.
  intros Hs. destruct (match_at rx p s i) as [mt|] eqn:E; [|done]. exfalso.
  apply match_at_sound in E as (st' & Hm & _).
  destruct (matches_reads _ _ _ _ Hm) as (w & Hw & _ & _ & _ & Hr).
  destruct (Hr cs Hreq) as (c & Hc & Hmem). simpl in Hw.
  rewrite Forall_forall in Hs. rewrite Hs in Hmem; [done|].
  rewrite Hw. apply elem_of_app. auto.
Qed.

Lemma exec_lacks s :
  Forall (fun c => cls_mem (ignoreCase rx) cs c = false) s -> exec rx s = None.
Proof.
  intros Hs. destruct (exec rx s) as [mt|] eqn:E; [|done]. exfalso.
  apply exec_Some in E as (pre & tok & post & -> & Hmt & Hm & _).
  apply Forall_app in Hs as [_ Hs].
  assert (is_Some (match_at rx (last pre) (tok ++ post) (length pre))) as [x Hx]
    by by eapply match_at_complete.
  by rewrite match_at_lacks in Hx.
Qed.

Lemma replace_all_lacks rep s : forall p i,
  Forall (fun c => cls_mem (ignoreCase rx) cs c = false) s ->
  replace_all_from rx rep p s i 0 = s.
Proof.
  induction s as [|c tl IH]; intros p i Hs; simpl.
  - by rewrite match_at_lacks.
  - rewrite match_at_lacks; [|done]. inversion Hs; subst. by rewrite IH.
Qed.

Lemma String_replace_lacks rep s :
  Forall (fun c => cls_mem (ignoreCase rx) cs c = false) s ->
  String_replace s rx rep = s.
Proof.
  intros Hs. unfold String_replace. destruct (global rx).
  - by apply replace_all_lacks.
  - unfold replace_first. by rewrite exec_lacks.
Qed.
End Lacks.

Ltac in_requires := apply list_elem_of_In; simpl; tauto.

(** * The parser on its own examples *)

(** The titles of [testSeasonParser] and other everyday titles, parsed. *)

Example parse_quanli_diyiji :
  parseSeasonFromTitle (js "权力的游戏 第一季")
  = Normal (mkSeasonInfo (js "权力的游戏") (Some (Num 1)) None (js "权力的游戏 第一季")).
Proof. vm_compute. reflexivity. Qed.

Example parse_breaking_bad_S01 :
  parseSeasonFromTitle (js "Breaking Bad S01")
  = Normal (mkSeasonInfo (js "Breaking Bad") (Some (Num 1)) None (js "Breaking Bad S01")).
Proof. vm_compute. reflexivity. Qed.

Example parse_game_of_thrones_Season_1 :
  parseSeasonFromTitle (js "Game of Thrones Season 1")
  = Normal (mkSeasonInfo (js "Game of Thrones") (Some (Num 1)) None
              (js "Game of Thrones Season 1")).
Proof. vm_compute. reflexivity. Qed.

Example parse_jueming_di1ji :
  parseSeasonFromTitle (js "绝命毒师 第1季")
  = Normal (mkSeasonInfo (js "绝命毒师") (Some (Num 1)) None (js "绝命毒师 第1季")).
Proof. vm_compute. reflexivity. Qed.

Example parse_quanli_no_season :
  parseSeasonFromTitle (js "权力的游戏")
  = Normal (mkSeasonInfo (js "权力的游戏") None None (js "权力的游戏")).
Proof. vm_compute. reflexivity. Qed.

Example parse_jueming_dierbu :
  parseSeasonFromTitle (js "绝命毒师 第二部")
  = Normal (mkSeasonInfo (js "绝命毒师") (Some (Num 2)) None (js "绝命毒师 第二部")).
Proof. vm_compute. reflexivity. Qed.

Example parse_stranger_things_S03 :
  parseSeasonFromTitle (js "Stranger Things S03")
  = Normal (mkSeasonInfo (js "Stranger Things") (Some (Num 3)) None
              (js "Stranger Things S03")).
Proof. vm_compute. reflexivity. Qed.

Example parse_movie_title_2021 :
  parseSeasonFromTitle (js "Movie_Title_2021")
  = Normal (mkSeasonInfo (js "Movie Title") None (Some (Num 2021))
              (js "Movie_Title_2021")).
Proof. vm_compute. reflexivity. Qed.

Example parse_bracket_year :
  parseSeasonFromTitle (js "[2023] Some Movie")
  = Normal (mkSeasonInfo (js "Some Movie") None (Some (Num 2023))
              (js "[2023] Some Movie")).
Proof. vm_compute. reflexivity. Qed.

Example parse_empty :
  parseSeasonFromTitle [] = Normal (mkSeasonInfo [] None None []).
Proof. vm_compute. reflexivity. Qed.

Example parse_season_and_year :
  parseSeasonFromTitle (js "The.Show [Season 02] (2019) - ")
  = Normal (mkSeasonInfo (js "The.Show") (Some (Num 2)) (Some (Num 2019))
              (js "The.Show [Season 02] (2019) - ")).
Proof. vm_compute. reflexivity. Qed.

(** * The properties of the specification *)

(** ** C1: the clean title is cut out of the original *)

(** C1, as stated, fails: an underscore of the input comes out as a space, so
    the clean title of "a_b" is "a b", which is not a subsequence of "a_b".
    The same happens to a tab, which the cleaner turns into a space. *)
Lemma cleanTitle_not_subsequence_of_original :
  (exists r, parseSeasonFromTitle (js "a_b") = Normal r
             /\ cleanTitle r = js "a b"
             /\ ~ cleanTitle r `sublist_of` originalTitle r)
  /\ (exists r, parseSeasonFromTitle [97; 9; 98] = Normal r
                /\ cleanTitle r = js "a b"
                /\ ~ cleanTitle r `sublist_of` originalTitle r).
Proof.
  split; eexists; (split; [vm_compute; reflexivity|]); (split; [reflexivity|]);
    simpl; intros H; apply sublist_submseteq in H;
    assert (Hin : (32 : N) ∈ [97; 32; 98]) by (right; left);
    apply (elem_of_submseteq _ _ _ Hin) in H;
    repeat (apply elem_of_cons in H as [H|H]; [discriminate H|]);
    by apply elem_of_nil in H.
Qed.

(** C1 (amended): for every input the parser returns a record whose
    [cleanTitle] is a subsequence of the original title read with every
    underscore and every white-space code unit replaced by a space; beyond
    that replacement no character is added and none is reordered. *)
Theorem cleanTitle_subsequence_of_folded_title t :
  exists r, parseSeasonFromTitle t = Normal r
            /\ cleanTitle r `sublist_of` (fold_space <$> t).
Proof.
  destruct (parse_normal t) as (sn & s1 & r & Hl & Hp & Hc & _).
  exists r. split; [done|]. rewrite Hc. etrans; [apply clean_sublist|].
  assert (Hs : (year_loop yearPatterns s1).2 `sublist_of` (underscore_to_space <$> t)).
  { etrans; [apply year_loop_sublist|]. rewrite <- normalize_map.
    by eapply season_loop_sublist. }
  apply (fmap_sublist ws_to_space) in Hs.
  by rewrite fold_space_map in Hs.
Qed.

(** ** C2: what the season step removes *)

(** C2, as stated, fails: in "S01 S01" the second rule matches the first
    "S01" and only that occurrence is cut out; the clean title is "S01",
    the very text that was matched. *)
Lemma season_token_survives :
  exists p mt n r,
    fired_rule patterns (normalize (js "S01 S01")) = Normal (Some (p, mt, n))
    /\ matched (normalize (js "S01 S01")) mt = js "S01"
    /\ parseSeasonFromTitle (js "S01 S01") = Normal r
    /\ cleanTitle r = js "S01"
    /\ includes (cleanTitle r) (matched (normalize (js "S01 S01")) mt) = true.
Proof.
  exists (SeasonPattern re_bare_S extract_parseInt), (RMatch 0 3 (Some (js "01"))),
    (Num 1).
  eexists. split_and!; [vm_compute; reflexivity..|reflexivity|vm_compute; reflexivity].
Qed.

(** C2 (amended): when a season rule fires, the season step deletes exactly
    the one occurrence it matched: the normalized title is
    [pre ++ token ++ post] with the token at the index of the match, the
    title passed on to year extraction is the trim of [pre ++ post], and the
    clean title is shorter than the input by at least the length of the
    token.  Other copies of the token's text are not looked for. *)
Theorem season_token_cut_once t p mt n :
  fired_rule patterns (normalize t) = Normal (Some (p, mt, n)) ->
  exists pre post r,
    normalize t = pre ++ matched (normalize t) mt ++ post
    /\ length pre = index mt
    /\ season_loop patterns (normalize t) = Normal (Some n, trim (pre ++ post))
    /\ parseSeasonFromTitle t = Normal r
    /\ seasonNumber r = Some n
    /\ cleanTitle r = clean (year_loop yearPatterns (trim (pre ++ post))).2
    /\ (length (cleanTitle r) + length (matched (normalize t) mt) <= length t)%nat.
Proof.
  intros Hf.
  destruct (season_loop_cut _ _ _ _ Hf) as (pre & post & Hs & Hi & Hlen & Hl).
  destruct (parse_normal t) as (sn & s1 & r & Hl' & Hp & Hc & Hsn & _).
  rewrite Hl in Hl'. injection Hl' as <- <-.
  exists pre, post, r. split_and!; try done.
  rewrite Hc. rewrite <- (normalize_length t).
  apply (f_equal length) in Hs. rewrite !length_app in Hs.
  pose proof (clean_length (year_loop yearPatterns (trim (pre ++ post))).2).
  pose proof (year_loop_length yearPatterns (trim (pre ++ post))).
  pose proof (trim_length (pre ++ post)). rewrite length_app in *. lia.
Qed.

Lemma season_token_cut_once_witness :
  fired_rule patterns (normalize (js "S01 S01"))
  = Normal (Some (SeasonPattern re_bare_S extract_parseInt,
                  RMatch 0 3 (Some (js "01")), Num 1))
  /\ exists pre post r,
       normalize (js "S01 S01")
       = pre ++ matched (normalize (js "S01 S01")) (RMatch 0 3 (Some (js "01"))) ++ post
       /\ length pre = 0%nat
       /\ season_loop patterns (normalize (js "S01 S01"))
          = Normal (Some (Num 1), trim (pre ++ post))
       /\ parseSeasonFromTitle (js "S01 S01") = Normal r
       /\ seasonNumber r = Some (Num 1)
       /\ cleanTitle r = clean (year_loop yearPatterns (trim (pre ++ post))).2
       /\ (length (cleanTitle r)
           + length (matched (normalize (js "S01 S01")) (RMatch 0 3 (Some (js "01"))))
           <= length (js "S01 S01"))%nat.
Proof.
  split; [vm_compute; reflexivity|].
  apply (season_token_cut_once (js "S01 S01")
           (SeasonPattern re_bare_S extract_parseInt)).
  vm_compute; reflexivity.
Defined.

(** ** C3: the range of the season number *)

(** C3, as stated, fails: the bare token "S0" and the Chinese token "第0季"
    both give a present season number of 0. *)
Lemma seasonNumber_zero :
  (exists r, parseSeasonFromTitle (js "S0") = Normal r
             /\ seasonNumber r = Some (Num 0))
  /\ (exists r, parseSeasonFromTitle (js "第0季") = Normal r
                /\ seasonNumber r = Some (Num 0)).
Proof. split; eexists; (split; [vm_compute; reflexivity|reflexivity]). Qed.

(** C3 (amended): for every input, a present [seasonNumber] is an integer
    with 0 <= seasonNumber <= 99 (not NaN); 0 is produced, e.g. by "S0". *)
Theorem seasonNumber_range t r n :
  parseSeasonFromTitle t = Normal r ->
  seasonNumber r = Some n ->
  exists z, n = Num z /\ (0 <= z <= 99)%Z.
Proof.
  destruct (parse_normal t) as (sn & s1 & r' & Hl & -> & _ & Hs & _).
  intros [= <-]. rewrite Hs. intros ->.
  rewrite season_loop_fired in Hl.
  destruct (fired_rule_spec patterns (normalize t)) as
    [[Hf _]|(ps1 & p & ps2 & mt & z & _ & Hf & _ & _ & Hz)]; [done|..];
    rewrite Hf in Hl; simpl in Hl; [done|].
  injection Hl as <- _. eauto.
Qed.

Lemma seasonNumber_range_witness :
  parseSeasonFromTitle (js "第0季") = Normal (mkSeasonInfo [] (Some (Num 0)) None (js "第0季"))
  /\ exists z, Num 0 = Num z /\ (0 <= z <= 99)%Z.
Proof.
  split; [vm_compute; reflexivity|].
  eapply (seasonNumber_range (js "第0季")); [vm_compute; reflexivity|reflexivity].
Defined.

(** ** C4: the year patterns look at one place each *)

Lemma rep_greedy_done ci cs k p s i cp :
  rep_greedy ci cs 0 (Some 0%nat) k p s i cp = k (MState p s i cp).
Proof. by destruct s. Qed.

Lemma match_at_year_bare p s i :
  match_at re_year_bare p s i
  = if bare_year_here p s then Some (RMatch i (i + 4) (Some (take 4 s))) else None.
Proof.
  unfold match_at. unfold_re.
  destruct s as [|d1 [|d2 [|d3 [|d4 tl]]]]; simpl.
  1-4: repeat case_match; done.
  rewrite rep_greedy_done. simpl. unfold word_boundary. simpl.
  rewrite !orb_false_r.
  destruct (is_digit d1) eqn:H1; simpl;
    [rewrite (digit_word _ H1)|rewrite ?andb_false_r; by destruct (xorb _ _)].
  destruct (is_digit d2) eqn:H2; simpl;
    [|rewrite ?andb_false_r; by destruct (xorb _ _)].
  destruct (is_digit d3) eqn:H3; simpl;
    [|rewrite ?andb_false_r; by destruct (xorb _ _)].
  destruct (is_digit d4) eqn:H4; simpl;
    [rewrite (digit_word _ H4)|rewrite ?andb_false_r; by destruct (xorb _ _)].
  destruct (from_option is_word false p), (from_option is_word false (head tl));
    simpl; try done.
  replace (S (S (S (S i))) - i)%nat with 4%nat by lia.
  replace (i + 4)%nat with (S (S (S (S i)))) by lia. done.
Qed.

Lemma search_year_bare s : forall p i,
  match first_bare_year p s with
  | Some ds => exists mt, search re_year_bare p s i = Some mt /\ group1 mt = Some ds
  | None => search re_year_bare p s i = None
  end.
Proof.
  induction s as [|c tl IH]; intros p i.
  - simpl. rewrite match_at_year_bare. done.
  - cbn [first_bare_year search]. rewrite match_at_year_bare.
    destruct (bare_year_here p (c :: tl)); [eauto|]. apply IH.
Qed.

Lemma wrapped_year_shape l r p s i st' :
  matches false (seq [chr l; Cap digits_4; chr r]) (MState p s i None) st' ->
  wrapped_year_here l r s = true.
Proof.
  intros H. unfold_re. inv_matches. simpl in *. simplify_eq. lit_eqs.
  match goal with H : Forall _ ?w |- _ =>
    destruct w as [|d1 [|d2 [|d3 [|d4 [|]]]]]; simpl in *; try lia;
    repeat (inversion_clear H as [|? ? ?Hd H']; rename H' into H) end.
  by rewrite !N.eqb_refl, Hd, Hd0, Hd1, Hd2.
Qed.

Lemma has_wrapped_year_app l r pre s :
  wrapped_year_here l r s = true -> has_wrapped_year l r (pre ++ s) = true.
Proof.
  intros H. induction pre as [|c pre IH]; simpl.
  - destruct s as [|c s]; [done|]. cbn [has_wrapped_year]. by rewrite H.
  - rewrite IH. apply orb_true_r.
Qed.

Lemma exec_wrapped_year l r s :
  has_wrapped_year l r s = false ->
  exec (RegEx (seq [chr l; Cap digits_4; chr r]) false false) s = None.
Proof.
  intros Hn. destruct (exec _ s) as [mt|] eqn:He; [|done].
  apply exec_Some in He as (pre & tok & post & -> & _ & Hm & _).
  apply wrapped_year_shape in Hm.
  by rewrite (has_wrapped_year_app _ _ pre _ Hm) in Hn.
Qed.

Lemma first_bare_year_digits s : forall p ds,
  first_bare_year p s = Some ds ->
  Forall (fun c => is_digit c = true) ds /\ ds <> [].
Proof.
  induction s as [|c tl IH]; intros p ds; cbn [first_bare_year].
  - simpl. done.
  - destruct (bare_year_here p (c :: tl)) eqn:E; [|apply IH].
    intros [= <-]. destruct tl as [|d2 [|d3 [|d4 tl]]]; simpl in E; try done.
    repeat (apply andb_true_iff in E as [E ?]).
    split; [by repeat constructor|done].
Qed.

(** C4: when the season-reduced title holds no bracket-wrapped and no
    paren-wrapped 4-digit run and its first bare 4-digit run, delimited by
    word boundaries, is a number outside [1900, 2100], the parser returns
    [year] absent and year extraction leaves the title as it is: no later
    run is looked at, even one that lies within [1900, 2100]. *)
Theorem year_first_bare_run_only t sn s ds :
  season_loop patterns (normalize t) = Normal (sn, s) ->
  has_wrapped_year 91 93 s = false ->
  has_wrapped_year 40 41 s = false ->
  first_bare_year None s = Some ds ->
  (decimal ds < 1900 \/ 2100 < decimal ds)%Z ->
  year_loop yearPatterns s = (None, s)
  /\ exists r, parseSeasonFromTitle t = Normal r
               /\ year r = None
               /\ cleanTitle r = clean s.
Proof.
  intros Hl Hb Hp Hf Hout.
  assert (Hy : year_loop yearPatterns s = (None, s)).
  { unfold yearPatterns. cbn [year_loop]. unfold String_match.
    rewrite (exec_wrapped_year 91 93 s Hb : exec re_year_bracket s = None).
    rewrite (exec_wrapped_year 40 41 s Hp : exec re_year_paren s = None).
    pose proof (search_year_bare s None 0) as Hs. rewrite Hf in Hs.
    destruct Hs as (mt & Hs & Hg). unfold exec. rewrite Hs, Hg.
    destruct (first_bare_year_digits _ _ _ Hf) as [Hds Hne]. unfold parseInt_arg.
    rewrite (parseInt_digits _ Hds Hne). simpl.
    destruct Hout.
    - replace (1900 <=? decimal ds)%Z with false by (symmetry; apply Z.leb_gt; lia).
      done.
    - replace (decimal ds <=? 2100)%Z with false by (symmetry; apply Z.leb_gt; lia).
      by rewrite andb_false_r. }
  split; [done|].
  destruct (parse_normal t) as (sn' & s1 & r & Hl' & Hr & Hc & _ & Hyr & _).
  rewrite Hl in Hl'. injection Hl' as <- <-.
  exists r. rewrite Hyr, Hc, Hy. done.
Qed.

Lemma year_first_bare_run_only_witness :
  season_loop patterns (normalize (js "Apollo 0013 in 1995"))
  = Normal (None, js "Apollo 0013 in 1995")
  /\ has_wrapped_year 91 93 (js "Apollo 0013 in 1995") = false
  /\ has_wrapped_year 40 41 (js "Apollo 0013 in 1995") = false
  /\ first_bare_year None (js "Apollo 0013 in 1995") = Some (js "0013")
  /\ (decimal (js "0013") < 1900 \/ 2100 < decimal (js "0013"))%Z
  /\ year_loop yearPatterns (js "Apollo 0013 in 1995")
     = (None, js "Apollo 0013 in 1995")
  /\ exists r, parseSeasonFromTitle (js "Apollo 0013 in 1995") = Normal r
               /\ year r = None
               /\ cleanTitle r = clean (js "Apollo 0013 in 1995").
Proof.
  assert (H1 : season_loop patterns (normalize (js "Apollo 0013 in 1995"))
               = Normal (None, js "Apollo 0013 in 1995")) by (vm_compute; reflexivity).
  assert (H2 : has_wrapped_year 91 93 (js "Apollo 0013 in 1995") = false)
    by (vm_compute; reflexivity).
  assert (H3 : has_wrapped_year 40 41 (js "Apollo 0013 in 1995") = false)
    by (vm_compute; reflexivity).
  assert (H4 : first_bare_year None (js "Apollo 0013 in 1995") = Some (js "0013"))
    by (vm_compute; reflexivity).
  assert (H5 : (decimal (js "0013") < 1900 \/ 2100 < decimal (js "0013"))%Z)
    by (left; vm_compute; reflexivity).
  split_and!; try assumption;
    apply (year_first_bare_run_only _ _ _ _ H1 H2 H3 H4 H5).
Defined.

(** ** C5: the numeral converter on its vocabulary *)

(** C5: on the supported vocabulary [chineseNumberToInt] returns the right
    value: a single digit 一..九 gives 1..9, 十 gives 10, 十 followed by the
    digit for [u] gives [10 + u], the digit for [t] followed by 十 gives
    [t * 10], and the digit for [t], 十, the digit for [u] gives
    [10 * t + u]. *)
Theorem chineseNumberToInt_vocabulary t u :
  (1 <= t <= 9)%Z -> (1 <= u <= 9)%Z ->
  chineseNumbers !! [numeral_of t] = Some t
  /\ chineseNumberToInt [numeral_of t] = Num t
  /\ chineseNumberToInt [shi] = Num 10
  /\ chineseNumberToInt [shi; numeral_of u] = Num (10 + u)
  /\ chineseNumberToInt [numeral_of t; shi] = Num (t * 10)
  /\ chineseNumberToInt [numeral_of t; shi; numeral_of u] = Num (10 * t + u).
Proof.
  intros Ht Hu.
  assert (t = 1 \/ t = 2 \/ t = 3 \/ t = 4 \/ t = 5 \/ t = 6 \/ t = 7 \/ t = 8
          \/ t = 9)%Z as Ht' by lia.
  assert (u = 1 \/ u = 2 \/ u = 3 \/ u = 4 \/ u = 5 \/ u = 6 \/ u = 7 \/ u = 8
          \/ u = 9)%Z as Hu' by lia.
  clear Ht Hu.
  repeat (destruct Ht' as [->|Ht']); try subst t;
    repeat (destruct Hu' as [->|Hu']); try subst u;
    vm_compute; done.
Qed.

Lemma chineseNumberToInt_vocabulary_witness :
  (1 <= 3 <= 9)%Z /\ (1 <= 2 <= 9)%Z
  /\ chineseNumbers !! js "三" = Some 3%Z
  /\ chineseNumberToInt (js "三") = Num 3
  /\ chineseNumberToInt (js "十") = Num 10
  /\ chineseNumberToInt (js "十二") = Num 12
  /\ chineseNumberToInt (js "三十") = Num 30
  /\ chineseNumberToInt (js "三十二") = Num 32.
Proof.
  split; [lia|]. split; [lia|].
  apply (chineseNumberToInt_vocabulary 3 2); lia.
Defined.

(** ** C6: the bracketed Latin rule comes first *)

Lemma underscore_to_space_id c : c <> 95 -> underscore_to_space c = c.
Proof. unfold underscore_to_space. intros H. by destruct (N.eqb_spec c 95). Qed.

Lemma underscore_to_space_inv c : underscore_to_space c <> 32 -> underscore_to_space c = c.
Proof.
  unfold underscore_to_space. by destruct (N.eqb_spec c 95).
Qed.

Lemma fmap_underscore_inv (l k : list N) :
  underscore_to_space <$> l = k -> Forall (fun c => c <> 32) k -> l = k.
Proof.
  intros <-. induction l as [|c l IH]; simpl; [done|].
  intros H. inversion H as [|? ? Hc Hl]; subst.
  f_equal; [symmetry; by apply underscore_to_space_inv|by apply IH].
Qed.

Lemma fmap_underscore_id (l : list N) :
  Forall (fun c => c <> 95) l -> underscore_to_space <$> l = l.
Proof.
  induction 1 as [|c l Hc _ IH]; simpl; [done|].
  rewrite (underscore_to_space_id _ Hc). f_equal. exact IH.
Qed.

Lemma marker_chars c ds :
  cls_mem false cls_Ss c = true ->
  Forall (fun d => is_digit d = true) ds ->
  Forall (fun x => x <> 32 /\ x <> 95) (91 :: c :: ds ++ [93]).
Proof.
  intros Hc Hds. unfold cls_mem, cls_Ss in Hc. simpl in Hc.
  repeat constructor; try lia; try char_lia.
  apply Forall_app. split; [|repeat constructor; lia].
  eapply Forall_impl; [exact Hds|]. intros d Hd. simpl in Hd. char_lia.
Qed.

Lemma cls_Ss_mem c : cls_mem false cls_Ss c = true <-> c = 83 \/ c = 115.
Proof. unfold cls_mem, cls_Ss. simpl. to_prop. lia. Qed.

(** A marker of the title is a marker of the normalized title, at the same
    place. *)
Lemma marker_normalize t pre ds :
  bracket_marker_at t pre ds ->
  bracket_marker_at (normalize t) (underscore_to_space <$> pre) ds.
Proof.
  intros (c & post & -> & Hc & Hds & Hlen).
  exists c, (underscore_to_space <$> post). split; [|done].
  rewrite normalize_map, fmap_app.
  change (91 :: c :: ds ++ 93 :: post) with ([91; c] ++ ds ++ 93 :: post).
  rewrite (fmap_app _ [91; c]), (fmap_app _ ds). simpl.
  rewrite (fmap_underscore_id ds).
  - rewrite (underscore_to_space_id c); [done|lia].
  - eapply Forall_impl; [exact Hds|]. intros d Hd. simpl in Hd. char_lia.
Qed.

(** The first pattern on a title with a bracketed marker: where it matches,
    what it extracts and what its removal leaves. *)
Lemma bracket_S_cut s pre ds :
  bracket_marker_at s pre ds ->
  exists mt pre0 c0 ds0 post0,
    exec re_bracket_S s = Some mt
    /\ s = pre0 ++ 91 :: c0 :: ds0 ++ 93 :: post0
    /\ (c0 = 83 \/ c0 = 115)
    /\ Forall (fun d => is_digit d = true) ds0
    /\ (1 <= length ds0 <= 2)%nat
    /\ (forall pre' ds', bracket_marker_at s pre' ds' ->
          (length pre0 <= length pre')%nat)
    /\ extract_bracket_S mt = Normal (Some (Num (decimal ds0)))
    /\ replace_first re_bracket_S [] s = pre0 ++ post0.
Proof.
  intros (c & post & Hs & Hc & Hds & Hlen).
  destruct (bracket_S_matches (last pre) c ds post (length pre)) as [st Hm];
    [by apply cls_Ss_mem|done..|].
  destruct (exec re_bracket_S s) as [mt|] eqn:He.
  2:{ apply (match_at_complete re_bracket_S) in Hm as [x Hx].
      by rewrite (exec_None _ _ He _ _ Hs) in Hx. }
  destruct (exec_Some _ _ _ He) as (pre0 & tok & post0 & Hs0 & Hmt & Hm0 & Hleft).
  pose proof Hm0 as Hshape.
  apply bracket_S_shape in Hshape as
    (c0 & ds0 & tl & Htok & Hc0 & Hds0 & Hlen0 & [= _ <- _ Hg]).
  exists mt, pre0, c0, ds0, post0. split_and!; try done; try lia.
  - by rewrite Hs0, Htok.
  - by apply cls_Ss_mem.
  - intros pre' ds' (c' & post' & Hs' & Hc' & Hds' & Hlen').
    destruct (decide (length pre' < length pre0)%nat) as [Hlt|]; [|lia].
    destruct (bracket_S_matches (last pre') c' ds' post' (length pre')) as [st' Hm'];
      [by apply cls_Ss_mem|done..|].
    apply (match_at_complete re_bracket_S) in Hm' as [x Hx].
    by rewrite (Hleft _ _ Hs' Hlt) in Hx.
  - apply extract_bracket_S_ok in He as (c' & ds' & Hg' & _ & _ & -> & _).
    congruence.
  - rewrite (replace_first_cut re_bracket_S s mt pre0 tok post0 []); [done..| |];
      by rewrite Hmt.
Qed.

(** A bracketed marker of the normalized title stands at the same place in
    the title itself. *)
Lemma marker_split_normalize t pre1 c ds post1 :
  normalize t = pre1 ++ 91 :: c :: ds ++ 93 :: post1 ->
  c = 83 \/ c = 115 ->
  Forall (fun d => is_digit d = true) ds ->
  exists pre0 post0,
    t = pre0 ++ 91 :: c :: ds ++ 93 :: post0
    /\ pre1 = underscore_to_space <$> pre0
    /\ post1 = underscore_to_space <$> post0.
Proof.
  intros Ht Hc Hds. rewrite normalize_map in Ht.
  apply fmap_app_inv in Ht as (pre0 & rest & -> & Hr & ->).
  change (91 :: c :: ds ++ 93 :: post1) with ([91; c] ++ ds ++ [93] ++ post1) in Hr.
  rewrite !app_assoc in Hr. symmetry in Hr.
  apply fmap_app_inv in Hr as (mk & post0 & Hm & -> & ->).
  symmetry in Hm. apply fmap_underscore_inv in Hm.
  - exists pre0, post0. split_and!; try done. rewrite Hm. by rewrite <- !app_assoc.
  - rewrite <- app_assoc. simpl.
    eapply Forall_impl; [apply marker_chars; [by apply cls_Ss_mem|done]|].
    by intros x [? _].
Qed.

(** C6: whenever the title contains a bracket-wrapped Latin season marker
    (whether or not a bare marker such as "S03" stands before or after it),
    the first rule of the table fires and [seasonNumber] is the number
    written in the leftmost bracket-wrapped marker.  No later rule is
    consulted: the season loop ends with the title from which that one
    marker is cut, every bare marker still in it, and the year and the clean
    title are computed from that title. *)
Theorem bracketed_marker_wins t pre ds :
  bracket_marker_at t pre ds ->
  exists pre0 c0 ds0 post0 mt r,
    t = pre0 ++ 91 :: c0 :: ds0 ++ 93 :: post0
    /\ bracket_marker_at t pre0 ds0
    /\ (forall pre' ds', bracket_marker_at t pre' ds' ->
          (length pre0 <= length pre')%nat)
    /\ fired_rule patterns (normalize t)
       = Normal (Some (SeasonPattern re_bracket_S extract_bracket_S, mt,
                       Num (decimal ds0)))
    /\ season_loop patterns (normalize t)
       = Normal (Some (Num (decimal ds0)), trim (normalize (pre0 ++ post0)))
    /\ parseSeasonFromTitle t = Normal r
    /\ seasonNumber r = Some (Num (decimal ds0))
    /\ year r = (year_loop yearPatterns (trim (normalize (pre0 ++ post0)))).1
    /\ cleanTitle r
       = clean (year_loop yearPatterns (trim (normalize (pre0 ++ post0)))).2.
Proof.
  intros Hmk%marker_normalize.
  destruct (bracket_S_cut _ _ _ Hmk) as
    (mt & pre1 & c0 & ds0 & post1 & He & Hs1 & Hc0 & Hds0 & Hlen0 & Hleft & Hx & Hcut).
  destruct (marker_split_normalize _ _ _ _ _ Hs1 Hc0 Hds0) as (pre0 & post0 & Ht & -> & ->).
  assert (Hf : fired_rule patterns (normalize t)
               = Normal (Some (SeasonPattern re_bracket_S extract_bracket_S, mt,
                               Num (decimal ds0)))).
  { unfold patterns. cbn [fired_rule sp_regex sp_extract]. unfold String_match.
    rewrite He, Hx. done. }
  assert (Hl : season_loop patterns (normalize t)
               = Normal (Some (Num (decimal ds0)), trim (normalize (pre0 ++ post0)))).
  { rewrite season_loop_fired, Hf. cbn [mbind completion_bind sp_regex].
    change (String_replace (normalize t) re_bracket_S [])
      with (replace_first re_bracket_S [] (normalize t)).
    by rewrite Hcut, (normalize_map (pre0 ++ post0)), fmap_app. }
  destruct (parse_normal t) as (sn & s1 & r & Hl' & Hp & Hct & Hsn & Hy & _).
  rewrite Hl in Hl'. injection Hl' as <- <-.
  exists pre0, c0, ds0, post0, mt, r. split_and!; try done.
  - exists c0, post0. split_and!; try done; lia.
  - intros pre' ds' Hmk'%marker_normalize.
    specialize (Hleft _ _ Hmk'). by rewrite !length_fmap in Hleft.
Qed.

Lemma bracketed_marker_wins_witness :
  bracket_marker_at (js "Show S03 [S02] S04") (js "Show S03 ") (js "02")
  /\ exists pre0 c0 ds0 post0 mt r,
       js "Show S03 [S02] S04" = pre0 ++ 91 :: c0 :: ds0 ++ 93 :: post0
       /\ bracket_marker_at (js "Show S03 [S02] S04") pre0 ds0
       /\ (forall pre' ds', bracket_marker_at (js "Show S03 [S02] S04") pre' ds' ->
             (length pre0 <= length pre')%nat)
       /\ fired_rule patterns (normalize (js "Show S03 [S02] S04"))
          = Normal (Some (SeasonPattern re_bracket_S extract_bracket_S, mt,
                          Num (decimal ds0)))
       /\ season_loop patterns (normalize (js "Show S03 [S02] S04"))
          = Normal (Some (Num (decimal ds0)), trim (normalize (pre0 ++ post0)))
       /\ parseSeasonFromTitle (js "Show S03 [S02] S04") = Normal r
       /\ seasonNumber r = Some (Num (decimal ds0))
       /\ year r = (year_loop yearPatterns (trim (normalize (pre0 ++ post0)))).1
       /\ cleanTitle r
          = clean (year_loop yearPatterns (trim (normalize (pre0 ++ post0)))).2.
Proof.
  assert (H : bracket_marker_at (js "Show S03 [S02] S04") (js "Show S03 ") (js "02")).
  { exists 83, (js " S04"). split_and!; [reflexivity|by left|by repeat constructor|
      simpl; lia|simpl; lia]. }
  split; [exact H|]. exact (bracketed_marker_wins _ _ _ H).
Defined.

(** The title of the witness, parsed: the bracketed marker gives season 2
    although the bare "S03" stands before it. *)
Example bracketed_marker_example :
  parseSeasonFromTitle (js "Show S03 [S02] S04")
  = Normal (mkSeasonInfo (js "Show S03 S04") (Some (Num 2)) None
              (js "Show S03 [S02] S04")).
Proof. vm_compute. reflexivity. Qed.

(** ** C7: parsing the clean title again *)

(** C7, as stated, fails: on "S01 S02" the second rule fires and leaves the
    clean title "S02", which the same rule matches again; a second parse
    finds season 2. *)
Lemma season_rule_matches_again :
  exists p mt n r r',
    fired_rule patterns (normalize (js "S01 S02")) = Normal (Some (p, mt, n))
    /\ parseSeasonFromTitle (js "S01 S02") = Normal r
    /\ cleanTitle r = js "S02"
    /\ is_Some (exec (sp_regex p) (cleanTitle r))
    /\ parseSeasonFromTitle (cleanTitle r) = Normal r'
    /\ seasonNumber r' = Some (Num 2).
Proof.
  exists (SeasonPattern re_bare_S extract_parseInt), (RMatch 0 3 (Some (js "01"))),
    (Num 1).
  eexists _, _.
  split_and!; [vm_compute; reflexivity..|reflexivity| |vm_compute; reflexivity|reflexivity].
  vm_compute. eauto.
Qed.

(** A parse never lengthens the title, and shortens it by at least two code
    units when it finds a season. *)
Lemma parse_length t r :
  parseSeasonFromTitle t = Normal r ->
  (length (cleanTitle r) + match seasonNumber r with Some _ => 2 | None => 0 end
   <= length t)%nat.
Proof.
  destruct (parse_normal t) as (sn & s1 & r' & Hl & -> & Hc & Hsn & _).
  intros [= <-]. rewrite Hsn, Hc. rewrite <- (normalize_length t).
  pose proof (clean_length (year_loop yearPatterns s1).2).
  pose proof (year_loop_length yearPatterns s1).
  rewrite season_loop_fired in Hl.
  destruct (fired_rule patterns (normalize t)) as [[[[p mt] n']|]|] eqn:Hf;
    [| |done].
  - destruct (season_loop_cut _ _ _ _ Hf) as (pre & post & Hs & Hi & Hlen & Hl').
    rewrite season_loop_fired, Hf in Hl'. rewrite Hl' in Hl. injection Hl as <- <-.
    apply (f_equal length) in Hs. rewrite !length_app in Hs.
    pose proof (trim_length (pre ++ post)). rewrite length_app in *. lia.
  - simpl in Hl. injection Hl as <- <-. lia.
Qed.

Lemma seasons_found_bound n : forall t, (2 * seasons_found n t <= length t)%nat.
Proof.
  induction n as [|n IH]; intros t; simpl; [lia|].
  destruct (parseSeasonFromTitle t) as [r|e] eqn:Hp; [|lia].
  pose proof (parse_length t r Hp). specialize (IH (cleanTitle r)).
  destruct (seasonNumber r); lia.
Qed.

(** Folding white space to a space keeps a code unit out of every class a
    season pattern must read. *)
Lemma class_ws_to_space p cs c :
  p ∈ patterns -> cs ∈ requires (source (sp_regex p)) ->
  cls_mem (ignoreCase (sp_regex p)) cs c = false ->
  cls_mem (ignoreCase (sp_regex p)) cs (ws_to_space c) = false.
Proof.
  unfold ws_to_space. destruct (is_ws c) eqn:Hws; [|done].
  unfold patterns. intros Hin Hcs H.
  repeat (apply elem_of_cons in Hin as [->|Hin]); [..|by apply elem_of_nil in Hin];
    revert Hcs H; unfold_re; simpl; intros Hcs H;
    repeat (apply elem_of_cons in Hcs as [->|Hcs]);
    try (by apply elem_of_nil in Hcs); try (vm_compute; reflexivity);
    unfold cls_mem in H; simpl in H; rewrite Hws in H; done.
Qed.

Lemma ws_to_space_underscore c : c <> 95 -> ws_to_space c <> 95.
Proof. unfold ws_to_space. destruct (is_ws c); [done|auto]. Qed.

(** What is left of the title, once a season token is cut out, is all the
    clean title is made of. *)
Lemma cleanTitle_of_rest t p mt n pre post r :
  fired_rule patterns (normalize t) = Normal (Some (p, mt, n)) ->
  normalize t = pre ++ matched (normalize t) mt ++ post ->
  length pre = index mt ->
  parseSeasonFromTitle t = Normal r ->
  cleanTitle r `sublist_of` (ws_to_space <$> (pre ++ post))
  /\ Forall (fun c => c <> 95) (pre ++ post).
Proof.
  intros Hf Hs Hi Hp.
  destruct (season_loop_cut _ _ _ _ Hf) as (pre' & post' & Hs' & Hi' & _ & Hl).
  assert (pre' = pre /\ post' = post) as [-> ->].
  { rewrite Hs in Hs' at 1. apply app_inj_1 in Hs' as [-> Hs']; [|congruence].
    by apply app_inv_head in Hs'. }
  destruct (parse_normal t) as (sn & s1 & r' & Hl' & Hp' & Hc & _).
  rewrite Hp in Hp'. injection Hp' as <-.
  rewrite Hl in Hl'. injection Hl' as _ <-. split.
  - rewrite Hc. etrans; [apply clean_sublist|]. apply fmap_sublist.
    etrans; [apply year_loop_sublist|]. apply trim_sublist.
  - assert (Hn : Forall (fun c => c <> 95) (normalize t)).
    { rewrite normalize_map. apply Forall_fmap, Forall_true. intros c. simpl.
      unfold underscore_to_space. by destruct (N.eqb_spec c 95). }
    rewrite Hs in Hn. rewrite !Forall_app in Hn. rewrite Forall_app. tauto.
Qed.

(** C7 (amended): parsing the clean title again.  In the chain of parses
    that starts at a title and goes on with the clean title of each parse,
    a season is found at most [length t / 2] times, each find removing a
    token of at least two code units.  And a rule does not fire twice when
    the title holds nothing else for it: when, outside the token it cut, the
    normalized title has no code unit of some class its pattern must read,
    the pattern does not match the clean title, and a second parse fires no
    rule or another one. *)
Theorem reparse_same_rule t :
  (forall k, (2 * seasons_found k t <= length t)%nat)
  /\ (forall p mt n pre post cs r,
        fired_rule patterns (normalize t) = Normal (Some (p, mt, n)) ->
        normalize t = pre ++ matched (normalize t) mt ++ post ->
        length pre = index mt ->
        cs ∈ requires (source (sp_regex p)) ->
        Forall (fun c => cls_mem (ignoreCase (sp_regex p)) cs c = false) (pre ++ post) ->
        parseSeasonFromTitle t = Normal r ->
        exec (sp_regex p) (normalize (cleanTitle r)) = None
        /\ forall q mt' n',
             fired_rule patterns (normalize (cleanTitle r)) = Normal (Some (q, mt', n')) ->
             q <> p).
Proof.
  split; [intros k; apply seasons_found_bound|].
  intros p mt n pre post cs r Hf Hs Hi Hcs Hrest Hp.
  assert (Hin : p ∈ patterns).
  { destruct (fired_rule_spec patterns (normalize t)) as
      [[Hn _]|(ps1 & q & ps2 & mt' & z & Hps & Hf' & _)]; [done|congruence|].
    rewrite Hf in Hf'. injection Hf' as <- _ _. rewrite Hps.
    apply elem_of_app. right. by left. }
  destruct (cleanTitle_of_rest t p mt n pre post r Hf Hs Hi Hp) as [Hsub H95].
  assert (Hclean : Forall (fun c => c <> 95
                     /\ cls_mem (ignoreCase (sp_regex p)) cs c = false) (cleanTitle r)).
  { eapply Forall_sublist; [exact Hsub|]. apply Forall_fmap.
    rewrite Forall_forall in H95, Hrest. apply Forall_forall. intros c Hc. simpl.
    split; [by apply ws_to_space_underscore, H95|].
    by apply class_ws_to_space, Hrest. }
  assert (Hnorm : normalize (cleanTitle r) = cleanTitle r).
  { rewrite normalize_map. apply fmap_underscore_id.
    eapply Forall_impl; [exact Hclean|]. by intros c [? _]. }
  assert (He : exec (sp_regex p) (normalize (cleanTitle r)) = None).
  { rewrite Hnorm. apply (exec_lacks (sp_regex p) cs Hcs).
    eapply Forall_impl; [exact Hclean|]. by intros c [_ ?]. }
  split; [done|]. intros q mt' n' Hf' ->.
  destruct (fired_rule_spec patterns (normalize (cleanTitle r))) as
    [[Hn _]|(ps1 & q & ps2 & mt2 & z & _ & Hf2 & _ & He2 & _)]; [done|congruence|].
  rewrite Hf' in Hf2. injection Hf2 as <- _ _. congruence.
Qed.

Lemma reparse_same_rule_witness :
  (2 * seasons_found 3 (js "Dark [S01] Season 2") <= length (js "Dark [S01] Season 2"))%nat
  /\ exec re_bracket_S (normalize (js "Dark Season 2")) = None
  /\ forall q mt' n',
       fired_rule patterns (normalize (js "Dark Season 2")) = Normal (Some (q, mt', n')) ->
       q <> SeasonPattern re_bracket_S extract_bracket_S.
Proof.
  destruct (reparse_same_rule (js "Dark [S01] Season 2")) as [Ha Hb].
  split; [apply Ha|].
  apply (Hb (SeasonPattern re_bracket_S extract_bracket_S)
            (RMatch 5 10 (Some (js "S01"))) (Num 1) (js "Dark ") (js " Season 2")
            [Lit 91]
            (mkSeasonInfo (js "Dark Season 2") (Some (Num 1)) None
               (js "Dark [S01] Season 2"))).
  - vm_compute. reflexivity.
  - vm_compute. reflexivity.
  - reflexivity.
  - apply list_elem_of_In. simpl. tauto.
  - apply Forall_by_forallb. vm_compute. reflexivity.
  - vm_compute. reflexivity.
Defined.

(** The title of the witness parsed twice: the bracketed rule, then the
    Season-word rule. *)
Example reparse_other_rule :
  parseSeasonFromTitle (js "Dark [S01] Season 2")
  = Normal (mkSeasonInfo (js "Dark Season 2") (Some (Num 1)) None
              (js "Dark [S01] Season 2"))
  /\ parseSeasonFromTitle (js "Dark Season 2")
     = Normal (mkSeasonInfo (js "Dark") (Some (Num 2)) None (js "Dark Season 2"))
  /\ seasons_found 3 (js "Dark [S01] Season 2") = 2%nat.
Proof. split_and!; vm_compute; reflexivity. Qed.

(** ** C8: the range of the year *)

(** C8: for every input, a present [year] is an integer with
    1900 <= year <= 2100. *)
Theorem year_range t r y :
  parseSeasonFromTitle t = Normal r ->
  year r = Some y ->
  exists z, y = Num z /\ (1900 <= z <= 2100)%Z.
Proof.
  destruct (parse_normal t) as (sn & s1 & r' & Hl & -> & _ & _ & Hy & _).
  intros [= <-]. rewrite Hy. apply year_loop_range.
Qed.

Lemma year_range_witness :
  parseSeasonFromTitle (js "Movie_Title_2021")
  = Normal (mkSeasonInfo (js "Movie Title") None (Some (Num 2021)) (js "Movie_Title_2021"))
  /\ exists z, Num 2021 = Num z /\ (1900 <= z <= 2100)%Z.
Proof.
  split; [vm_compute; reflexivity|].
  eapply (year_range (js "Movie_Title_2021")); [vm_compute; reflexivity|reflexivity].
Defined.

(** ** C9: totality *)

Lemma all_digits_test str :
  RegExp_test re_all_digits str = true ->
  Forall (fun c => is_digit c = true) str /\ str <> [].
Proof.
  unfold RegExp_test. intros [mt He]%bool_decide_eq_true.
  apply exec_Some in He as (pre & tok & post & -> & _ & Hm & _).
  unfold_re. inv_matches. simpl in *.
  destruct pre; [|simpl in *; lia].
  match goal with H : tok ++ _ = _ ++ _ |- _ => apply app_inv_tail in H; subst end.
  simpl. rewrite app_nil_r. split.
  - eapply Forall_impl; [eassumption|]. intros c. apply (cls_digit_mem false).
  - match goal with H : (1 <= length ?w)%nat |- _ =>
      destruct w; simpl in *; [lia|done] end.
Qed.

(** The decimal value of a digit string of length [n] is below [10^n]. *)
Lemma decimal_acc_bound ds : forall acc,
  Forall (fun c => is_digit c = true) ds -> (0 <= acc)%Z ->
  (acc * 10 ^ Z.of_nat (length ds) <= decimal_acc acc ds
   < (acc + 1) * 10 ^ Z.of_nat (length ds))%Z.
Proof.
  induction ds as [|d tl IH]; intros acc Hds Hacc.
  - simpl. lia.
  - apply Forall_cons in Hds as [Hd Htl]. apply digit_range in Hd.
    cbn [decimal_acc length]. rewrite Nat2Z.inj_succ, Z.pow_succ_r by lia.
    specialize (IH (10 * acc + Z.of_N (d - 48))%Z Htl).
    assert (0 < 10 ^ Z.of_nat (length tl))%Z by (apply Z.pow_pos_nonneg; lia).
    nia.
Qed.

Lemma decimal_bound ds :
  Forall (fun c => is_digit c = true) ds -> (length ds <= 15)%nat ->
  (0 <= decimal ds < 1000000000000000)%Z.
Proof.
  intros Hds Hlen. unfold decimal.
  pose proof (decimal_acc_bound ds 0%Z Hds ltac:(lia)) as H.
  assert (10 ^ Z.of_nat (length ds) <= 10 ^ 15)%Z
    by (apply Z.pow_le_mono_r; lia).
  change (10 ^ 15)%Z with 1000000000000000%Z in *. lia.
Qed.

Lemma take_while_digits s : Forall (fun c => is_digit c = true) (take_while is_digit s).
Proof.
  induction s as [|c tl IH]; simpl; [done|].
  destruct (is_digit c) eqn:E; [by constructor|done].
Qed.

Lemma take_while_length p s : (length (take_while p s) <= length s)%nat.
Proof. induction s as [|c tl IH]; simpl; [lia|]. destruct (p c); simpl; lia. Qed.

(** [parseInt] on a string of Chinese numerals and digits: there is no white
    space and no sign to skip, so it reads the leading digits. *)
Lemma parseInt_numerals str :
  Forall (fun c => cls_mem false cls_numeral c = true) str ->
  (length str <= 15)%nat ->
  parseInt str = NaN
  \/ exists z, parseInt str = Num z /\ (0 <= z < 1000000000000000)%Z.
Proof.
  intros Hstr Hlen. unfold parseInt.
  assert (Hhead : from_option is_ws false (head str) = false
                  /\ from_option (fun c => (c =? 45) || (c =? 43)) false (head str) = false).
  { destruct str as [|c tl]; [done|]. apply Forall_cons in Hstr as [Hc _].
    apply numeral_class_cases, list_elem_of_In in Hc. simpl in Hc.
    repeat destruct Hc as [<-|Hc]; done. }
  destruct Hhead as [Hws Hsign]. rewrite (drop_while_id _ _ Hws).
  destruct str as [|c tl]; [by left|].
  simpl in Hsign. apply orb_false_iff in Hsign as [H45 H43]. rewrite H45, H43.
  pose proof (take_while_digits (c :: tl)) as Hd.
  pose proof (take_while_length is_digit (c :: tl)) as Hl.
  destruct (take_while is_digit (c :: tl)) as [|d ds] eqn:E; [by left|].
  right. eexists. split; [done|]. apply decimal_bound; [done|lia].
Qed.

Lemma chineseNumbers_range (k : list N) z : chineseNumbers !! k = Some z -> (1 <= z <= 10)%Z.
Proof.
  unfold chineseNumbers. intros H%elem_of_list_to_map_2.
  apply list_elem_of_In in H. simpl in H.
  repeat destruct H as [[= <- <-]|H]; try lia.
Qed.

Lemma or_else_range (k : list N) : (0 <= or_else (chineseNumbers !! k) 0 <= 10)%Z.
Proof.
  unfold or_else. destruct (chineseNumbers !! k) as [z|] eqn:E; [|lia].
  apply chineseNumbers_range in E. destruct (z =? 0)%Z; lia.
Qed.

(** On a string of at most 15 Chinese numerals and digits the converter
    returns an integer, never NaN, and one that a JavaScript number holds
    exactly. *)
Lemma chineseNumberToInt_numerals str :
  Forall (fun c => cls_mem false cls_numeral c = true) str ->
  (length str <= 15)%nat ->
  exists z, chineseNumberToInt str = Num z /\ (0 <= z < 1000000000000000)%Z.
Proof.
  intros Hstr Hlen. unfold chineseNumberToInt.
  destruct (RegExp_test re_all_digits str) eqn:Ht.
  { apply all_digits_test in Ht as [Hd Hne]. rewrite parseInt_digits by done.
    eexists. split; [done|]. by apply decimal_bound. }
  case_bool_decide; [exists 10%Z; split; [done|lia]|].
  destruct (startsWith str [shi]); cbv iota.
  { eexists. split; [done|]. pose proof (or_else_range (drop 1 str)).
    unfold jsstring in *. lia. }
  destruct (endsWith str [shi]); cbv iota.
  { eexists. split; [done|].
    pose proof (or_else_range (substring str 0 (length str - 1))).
    unfold jsstring in *. lia. }
  destruct (indexOf str shi) as [i|]; cbv iota.
  { eexists. split; [done|].
    pose proof (or_else_range (substring str 0 i)).
    pose proof (or_else_range (drop (i + 1) str)). unfold jsstring in *. lia. }
  assert (Hfb : exists z, (if truthy (parseInt str) then parseInt str else Num 1) = Num z
                          /\ (0 <= z < 1000000000000000)%Z).
  { destruct (parseInt_numerals str Hstr Hlen) as [->|(z & -> & Hz)].
    - exists 1%Z. simpl. split; [done|lia].
    - simpl. destruct (z =? 0)%Z; simpl; [exists 1%Z; split; [done|lia]|eauto]. }
  destruct (_ !! _) as [z|] eqn:E; [|exact Hfb].
  apply chineseNumbers_range in E. destruct (z =? 0)%Z; [exact Hfb|].
  exists z. split; [done|lia].
Qed.

(** C9: for every input string the parser returns, without throwing, a
    record whose [originalTitle] is the input and whose [seasonNumber] and
    [year] are each absent or an integer; the numeral converter it calls
    returns, on every string of at most 15 Chinese numerals and digits (the
    parser passes one or two), an integer below 10^15, which a JavaScript
    number holds exactly. *)
Theorem parseSeasonFromTitle_total t :
  exists r,
    parseSeasonFromTitle t = Normal r
    /\ originalTitle r = t
    /\ (seasonNumber r = None \/ exists z, seasonNumber r = Some (Num z))
    /\ (year r = None \/ exists z, year r = Some (Num z))
    /\ forall str, Forall (fun c => cls_mem false cls_numeral c = true) str ->
         (length str <= 15)%nat ->
         exists z, chineseNumberToInt_arg (Some str) = Normal (Num z)
                   /\ (0 <= z < 1000000000000000)%Z.
Proof.
  destruct (parse_normal t) as (sn & s1 & r & Hl & Hp & _ & Hsn & Hy & Ho).
  exists r. split_and!; try done.
  - rewrite Hsn. rewrite season_loop_fired in Hl.
    destruct (fired_rule_spec patterns (normalize t)) as
      [[Hf _]|(ps1 & p & ps2 & mt & z & _ & Hf & _)]; [done|..];
      rewrite Hf in Hl; simpl in Hl; injection Hl as <- _; eauto.
  - rewrite Hy. destruct (year_loop yearPatterns s1).1 as [y|] eqn:E; [|by left].
    apply year_loop_range in E as (z & -> & _). eauto.
  - intros str Hstr Hlen.
    destruct (chineseNumberToInt_numerals str Hstr Hlen) as (z & Hz & Hb).
    exists z. simpl. by rewrite Hz.
Qed.

(** ** C10: the width of the Chinese capture *)

(** A pattern that must read a code unit of a class finds no match in a
    string written without that class. *)
Section Alphabet.
Variables (rx : regex) (cs : list catom) (L : list N).
Hypothesis Hreq : cs ∈ requires (source rx).
Hypothesis Hmiss : class_misses (ignoreCase rx) cs L = true.

Lemma match_at_alphabet p s i :
  Forall (fun c => c ∈ L) s -> match_at rx p s i = None.
Proof.
  intros Hs. destruct (match_at rx p s i) as [mt|] eqn:E; [|done]. exfalso.
  apply match_at_sound in E as (st' & Hm & _).
  destruct (matches_reads _ _ _ _ Hm) as (w & Hw & _ & _ & _ & Hr).
  destruct (Hr cs Hreq) as (c & Hc & Hmem). simpl in Hw.
  assert (c ∈ L) as HcL.
  { rewrite Forall_forall in Hs. apply Hs. rewrite Hw. apply elem_of_app. auto. }
  unfold class_misses in Hmiss. rewrite forallb_forall in Hmiss.
  apply list_elem_of_In, Hmiss in HcL. by rewrite Hmem in HcL.
Qed.

Lemma exec_alphabet s : Forall (fun c => c ∈ L) s -> exec rx s = None.
Proof.
  intros Hs. destruct (exec rx s) as [mt|] eqn:E; [|done]. exfalso.
  apply exec_Some in E as (pre & tok & post & -> & Hmt & Hm & _).
  apply Forall_app in Hs as [_ Hs].
  assert (is_Some (match_at rx (last pre) (tok ++ post) (length pre))) as [x Hx]
    by by eapply match_at_complete.
  by rewrite match_at_alphabet in Hx.
Qed.

Lemma replace_all_alphabet rep s : forall p i,
  Forall (fun c => c ∈ L) s -> replace_all_from rx rep p s i 0 = s.
Proof.
  induction s as [|c tl IH]; intros p i Hs; simpl.
  - by rewrite match_at_alphabet.
  - rewrite match_at_alphabet; [|done]. inversion Hs; subst. by rewrite IH.
Qed.

Lemma String_replace_alphabet rep s :
  Forall (fun c => c ∈ L) s -> String_replace s rx rep = s.
Proof.
  intros Hs. unfold String_replace. destruct (global rx).
  - by apply replace_all_alphabet.
  - unfold replace_first. by rewrite exec_alphabet.
Qed.
End Alphabet.

(** What the bare Chinese "season" rule matches at a position. *)
Lemma bare_ji_shape p s i st' :
  matches false (source re_bare_ji) (MState p s i None) st' ->
  exists w tl, s = 31532 :: w ++ 23395 :: tl /\ (1 <= length w <= 2)%nat.
Proof.
  intros H. unfold_re. inv_matches. simpl in *. simplify_eq. lit_eqs.
  eexists _, _. split; [done|lia].
Qed.

Lemma bare_ji_long_numeral num :
  Forall (fun c => c ∈ chinese_digits) num -> (3 <= length num)%nat ->
  exec re_bare_ji (31532 :: num ++ [23395]) = None.
Proof.
  intros Hnum Hlen.
  destruct (exec re_bare_ji _) as [mt|] eqn:E; [|done]. exfalso.
  apply exec_Some in E as (pre & tok & post & Hs & _ & Hm & _).
  apply bare_ji_shape in Hm as (w & tl & Htok & Hw). rewrite Htok in Hs.
  assert (Hno : forall x, x ∈ num -> x <> 31532 /\ x <> 23395).
  { rewrite Forall_forall in Hnum. intros x Hx%Hnum. unfold chinese_digits in Hx.
    repeat (apply elem_of_cons in Hx as [->|Hx]; [done|]). by apply elem_of_nil in Hx. }
  destruct pre as [|c pre]; simpl in Hs.
  - injection Hs as Hs.
    assert (Hl : (num ++ [23395]) !! length w = Some 23395).
    { rewrite Hs. by rewrite list_lookup_middle. }
    rewrite lookup_app_l in Hl by lia.
    apply list_elem_of_lookup_2, Hno in Hl. by destruct Hl.
  - injection Hs as _ Hs.
    assert (Hin : 31532 ∈ num ++ [23395]).
    { rewrite Hs. apply elem_of_app. right. by left. }
    apply elem_of_app in Hin as [Hin%Hno|Hin%list_elem_of_singleton]; [|done].
    by destruct Hin.
Qed.

Ltac by_alphabet rx cs L Ht :=
  first
    [ rewrite (exec_alphabet rx cs L) | rewrite (String_replace_alphabet rx cs L) ];
  [ | apply list_elem_of_In; simpl; tauto | vm_compute; reflexivity | exact Ht ].

(** A title that is 第, three or more Chinese numerals, 季 goes through the
    parser untouched. *)
Lemma long_numeral_parse num :
  Forall (fun c => c ∈ chinese_digits) num -> (3 <= length num)%nat ->
  parseSeasonFromTitle (31532 :: num ++ [23395])
  = Normal (mkSeasonInfo (31532 :: num ++ [23395]) None None
              (31532 :: num ++ [23395])).
Proof.
  intros Hnum Hlen.
  set (L := 31532 :: 23395 :: chinese_digits).
  set (t := 31532 :: num ++ [23395]).
  assert (Ht : Forall (fun c => c ∈ L) t).
  { unfold t, L. constructor; [by left|]. apply Forall_app. split.
    - eapply Forall_impl; [exact Hnum|]. intros c Hc. by do 2 right.
    - constructor; [|done]. right. by left. }
  assert (Hn : normalize t = t).
  { unfold normalize. by_alphabet re_underscore [Lit 95] L Ht. done. }
  assert (Hf : fired_rule patterns t = Normal None).
  { unfold patterns. cbn [fired_rule sp_regex]. unfold String_match.
    by_alphabet re_bracket_S [Lit 91] L Ht.
    by_alphabet re_bare_S cls_Ss L Ht.
    by_alphabet re_bracket_Season [Lit 91] L Ht.
    by_alphabet re_bare_Season [Lit 83] L Ht.
    by_alphabet re_bracket_ji [Lit 91] L Ht.
    rewrite (bare_ji_long_numeral num Hnum Hlen : exec re_bare_ji t = None).
    by_alphabet re_bracket_bu [Lit 91] L Ht.
    by_alphabet re_bare_bu [Lit 37096] L Ht. done. }
  assert (Hy : year_loop yearPatterns t = (None, t)).
  { unfold yearPatterns. cbn [year_loop]. unfold String_match.
    by_alphabet re_year_bracket [Lit 91] L Ht.
    by_alphabet re_year_paren [Lit 40] L Ht.
    by_alphabet re_year_bare [ClsDigit] L Ht. done. }
  assert (Hc : clean t = t).
  { unfold clean.
    by_alphabet re_empty_brackets [Lit 91] L Ht.
    by_alphabet re_empty_parens [Lit 40] L Ht.
    by_alphabet re_spaces [ClsSpace] L Ht.
    by_alphabet re_trailing [Lit 183; Lit 45; Lit 95; ClsSpace] L Ht.
    apply trim_id; [done|]. unfold t.
    change (31532 :: num ++ [23395]) with ((31532 :: num) ++ [23395]).
    by rewrite last_snoc. }
  unfold parseSeasonFromTitle. rewrite Hn, season_loop_fired, Hf.
  cbn -[year_loop clean]. rewrite Hy. cbn -[clean]. by rewrite Hc.
Qed.


(** * Further properties of the parser *)

(** ** Titles without the characters a token needs *)

Lemma year_loop_no_digit s :
  Forall (fun c => is_digit c = false) s -> year_loop yearPatterns s = (None, s).
Proof.
  intros Hs.
  assert (Hd : Forall (fun c => cls_mem false [ClsDigit] c = false) s).
  { eapply Forall_impl; [exact Hs|]. intros c Hc. unfold cls_mem. simpl.
    by rewrite Hc. }
  unfold yearPatterns. cbn [year_loop]. unfold String_match.
  rewrite (exec_lacks re_year_bracket [ClsDigit]); [|in_requires|done].
  rewrite (exec_lacks re_year_paren [ClsDigit]); [|in_requires|done].
  rewrite (exec_lacks re_year_bare [ClsDigit]); [|in_requires|done]. done.
Qed.

Lemma underscore_to_space_digit c :
  is_digit (underscore_to_space c) = is_digit c.
Proof.
  unfold underscore_to_space. destruct (N.eqb_spec c 95) as [->|]; done.
Qed.

Lemma underscore_to_space_numeral c :
  cls_mem false cls_numeral (underscore_to_space c) = cls_mem false cls_numeral c.
Proof.
  unfold underscore_to_space. destruct (N.eqb_spec c 95) as [->|]; done.
Qed.

Lemma normalize_Forall (P : N -> bool) t :
  (forall c, P (underscore_to_space c) = P c) ->
  Forall (fun c => P c = false) t -> Forall (fun c => P c = false) (normalize t).
Proof.
  intros HP Ht. rewrite normalize_map. apply Forall_fmap.
  eapply Forall_impl; [exact Ht|]. intros c Hc. simpl. by rewrite HP.
Qed.

(** X1: a title without a decimal digit has no year, whatever the season
    rules do to it. *)
Theorem year_needs_digit t :
  Forall (fun c => is_digit c = false) t ->
  exists r, parseSeasonFromTitle t = Normal r /\ year r = None.
Proof.
  intros Ht. destruct (parse_normal t) as (sn & s1 & r & Hl & Hp & _ & _ & Hy & _).
  exists r. split; [done|]. rewrite Hy.
  rewrite year_loop_no_digit; [done|].
  eapply Forall_sublist; [by eapply season_loop_sublist|].
  apply (normalize_Forall is_digit); [apply underscore_to_space_digit|done].
Qed.

Lemma year_needs_digit_witness :
  Forall (fun c => is_digit c = false) (js "Breaking Bad [Season two]")
  /\ exists r, parseSeasonFromTitle (js "Breaking Bad [Season two]") = Normal r
               /\ year r = None.
Proof.
  assert (H : Forall (fun c => is_digit c = false) (js "Breaking Bad [Season two]")).
  { apply Forall_by_forallb. vm_compute. reflexivity. }
  split; [exact H|]. exact (year_needs_digit _ H).
Defined.


Lemma fired_none_no_marker_letter s :
  Forall (fun c => is_marker_letter c = false) s ->
  fired_rule patterns s = Normal None.
Proof.
  intros Hs.
  assert (H83 : forall c, is_marker_letter c = false ->
                cls_mem true [Lit 83] c = false /\ cls_mem false cls_Ss c = false
                /\ cls_mem false [Lit 31532] c = false).
  { intros c Hc. unfold is_marker_letter in Hc. unfold cls_mem, cls_Ss. simpl.
    unfold canon. simpl. rewrite !orb_false_r.
    apply orb_false_iff in Hc as [Hc H3]. apply orb_false_iff in Hc as [H1 H2].
    apply N.eqb_neq in H1, H2, H3.
    split_and!.
    - destruct (is_lower c) eqn:Hl; apply N.eqb_neq; [|lia].
      unfold is_lower in Hl. to_prop. lia.
    - apply orb_false_iff. split; apply N.eqb_neq; lia.
    - apply N.eqb_neq. lia. }
  unfold patterns. cbn [fired_rule sp_regex]. unfold String_match.
  rewrite (exec_lacks re_bracket_S cls_Ss), (exec_lacks re_bare_S cls_Ss),
    (exec_lacks re_bracket_Season [Lit 83]), (exec_lacks re_bare_Season [Lit 83]),
    (exec_lacks re_bracket_ji [Lit 31532]), (exec_lacks re_bare_ji [Lit 31532]),
    (exec_lacks re_bracket_bu [Lit 31532]), (exec_lacks re_bare_bu [Lit 31532]);
    try done; try in_requires;
    (eapply Forall_impl; [exact Hs|]; intros c Hc; simpl; by apply H83).
Qed.

Lemma fired_none_no_numeral s :
  Forall (fun c => cls_mem false cls_numeral c = false) s ->
  fired_rule patterns s = Normal None.
Proof.
  intros Hs.
  assert (Hd : forall ci, Forall (fun c => cls_mem ci [ClsDigit] c = false) s).
  { intros ci. eapply Forall_impl; [exact Hs|]. intros c Hc. simpl in *.
    unfold cls_mem, cls_numeral in *. simpl in *. rewrite orb_false_r.
    repeat (apply orb_false_iff in Hc as [? Hc]). done. }
  unfold patterns. cbn [fired_rule sp_regex]. unfold String_match.
  rewrite (exec_lacks re_bracket_S [ClsDigit]), (exec_lacks re_bare_S [ClsDigit]),
    (exec_lacks re_bracket_Season [ClsDigit]), (exec_lacks re_bare_Season [ClsDigit]),
    (exec_lacks re_bracket_ji cls_numeral), (exec_lacks re_bare_ji cls_numeral),
    (exec_lacks re_bracket_bu cls_numeral), (exec_lacks re_bare_bu cls_numeral);
    try done; try in_requires; apply Hd.
Qed.

Lemma underscore_to_space_marker_letter c :
  is_marker_letter (underscore_to_space c) = is_marker_letter c.
Proof.
  unfold underscore_to_space. destruct (N.eqb_spec c 95) as [->|]; done.
Qed.

(** X2: a season token needs one of the letters S, s, 第 and a digit or a
    Chinese numeral.  A title without any of those letters, or without any
    digit and Chinese numeral, has no season, and the season step hands the
    normalized title on as it is. *)
Theorem season_needs_marker t :
  Forall (fun c => is_marker_letter c = false) t
  \/ Forall (fun c => cls_mem false cls_numeral c = false) t ->
  season_loop patterns (normalize t) = Normal (None, normalize t)
  /\ exists r, parseSeasonFromTitle t = Normal r /\ seasonNumber r = None.
Proof.
  intros Ht.
  assert (Hf : fired_rule patterns (normalize t) = Normal None).
  { destruct Ht as [Ht|Ht].
    - apply fired_none_no_marker_letter.
      apply (normalize_Forall is_marker_letter);
        [apply underscore_to_space_marker_letter|done].
    - apply fired_none_no_numeral.
      apply (normalize_Forall (cls_mem false cls_numeral));
        [apply underscore_to_space_numeral|done]. }
  assert (Hl : season_loop patterns (normalize t) = Normal (None, normalize t))
    by by rewrite season_loop_fired, Hf.
  split; [done|].
  destruct (parse_normal t) as (sn & s1 & r & Hl' & Hp & _ & Hsn & _).
  exists r. split; [done|]. congruence.
Qed.

Lemma season_needs_marker_witness :
  (Forall (fun c => is_marker_letter c = false) (js "Apollo 13 (1995)")
   \/ Forall (fun c => cls_mem false cls_numeral c = false) (js "Apollo 13 (1995)"))
  /\ season_loop patterns (normalize (js "Apollo 13 (1995)"))
     = Normal (None, normalize (js "Apollo 13 (1995)"))
  /\ exists r, parseSeasonFromTitle (js "Apollo 13 (1995)") = Normal r
               /\ seasonNumber r = None.
Proof.
  assert (H : Forall (fun c => is_marker_letter c = false) (js "Apollo 13 (1995)")
              \/ Forall (fun c => cls_mem false cls_numeral c = false)
                   (js "Apollo 13 (1995)")).
  { left. apply Forall_by_forallb. vm_compute. reflexivity. }
  split; [exact H|]. exact (season_needs_marker _ H).
Defined.

(** ** Tokens inside a word *)

(** What the bare Latin rule matches at a position. *)
Lemma bare_S_shape p s i st' :
  matches false (source re_bare_S) (MState p s i None) st' ->
  exists c ds tl,
    s = c :: ds ++ tl
    /\ cls_mem false cls_Ss c = true
    /\ Forall (fun d => is_digit d = true) ds
    /\ (1 <= length ds <= 2)%nat
    /\ word_boundary p s = true
    /\ word_boundary (prev_after (Some c) ds) tl = true
    /\ st' = MState (prev_after (Some c) ds) tl (i + S (length ds)) (Some ds).
Proof.
  intros H. unfold_re. inv_matches. simpl in *. simplify_eq. lit_eqs.
  eexists _, w, _. split_and!; try done; try lia.
  rewrite take_read. f_equal. lia.
Qed.

Lemma alnum_word c : is_alnum c = true -> is_word c = true.
Proof. unfold is_alnum, is_word. intros ->. done. Qed.

Lemma alnum_chars c :
  is_alnum c = true ->
  c <> 95 /\ cls_mem false [Lit 91] c = false /\ cls_mem true [Lit 91] c = false
  /\ cls_mem false [Lit 40] c = false
  /\ cls_mem true [ClsSpace] c = false /\ cls_mem false [Lit 31532] c = false.
Proof.
  intros H. unfold cls_mem. simpl. rewrite !orb_false_r. unfold canon. simpl.
  unfold is_alnum in H.
  split_and!; [|apply N.eqb_neq|destruct (is_lower c) eqn:Hl; apply N.eqb_neq
               |apply N.eqb_neq|apply not_true_iff_false; intros Hw|apply N.eqb_neq];
    char_lia.
Qed.

Lemma year_loop_Some s y :
  (year_loop yearPatterns s).1 = Some y ->
  is_Some (exec re_year_bracket s) \/ is_Some (exec re_year_paren s)
  \/ is_Some (exec re_year_bare s).
Proof.
  unfold yearPatterns. cbn [year_loop]. unfold String_match.
  destruct (exec re_year_bracket s); [eauto|].
  destruct (exec re_year_paren s); [eauto|].
  destruct (exec re_year_bare s); [eauto|]. done.
Qed.

Lemma year_loop_Some_length s y :
  (year_loop yearPatterns s).1 = Some y -> (4 <= length s)%nat.
Proof.
  intros H. apply year_loop_Some in H.
  assert (forall rx, (4 <= min_len (source rx))%nat -> is_Some (exec rx s) ->
            (4 <= length s)%nat) as Hlen.
  { intros rx Hmin [mt He].
    apply replace_first_nil_cut in He as (pre & tok & post & -> & _ & _ & _ & Hm).
    rewrite !length_app. lia. }
  destruct H as [H|[H|H]]; (eapply Hlen; [|exact H]); simpl; lia.
Qed.

(** The only word-character neighbours a string of letters and digits can
    offer are its own code units. *)
Lemma alnum_no_boundary_inside (pre post : jsstring) :
  Forall (fun c => is_alnum c = true) pre ->
  from_option is_word false (last pre) = false -> pre = [].
Proof.
  intros Hpre Hl. destruct (last pre) as [x|] eqn:E.
  - apply last_Some in E as [l' ->]. apply Forall_app in Hpre as [_ Hx].
    inversion Hx; subst. simpl in Hl. by rewrite alnum_word in Hl.
  - by apply last_None.
Qed.

Lemma alnum_no_boundary_after (post : jsstring) :
  Forall (fun c => is_alnum c = true) post ->
  from_option is_word false (head post) = false -> post = [].
Proof.
  intros Hpost Hh. destruct post as [|x post]; [done|].
  inversion Hpost; subst. simpl in Hh. by rewrite alnum_word in Hh.
Qed.

(** X3: tokens inside a word are not extracted.  When the title is one run
    of letters and digits, a season is found only if the whole title is S or
    s followed by one or two digits, and a year only if the whole title is
    four digits; "S01E02" has neither. *)
Theorem single_word_tokens t :
  Forall (fun c => is_alnum c = true) t ->
  exists r,
    parseSeasonFromTitle t = Normal r
    /\ (is_Some (seasonNumber r) ->
        exists c ds, t = c :: ds /\ cls_mem false cls_Ss c = true
                     /\ Forall (fun d => is_digit d = true) ds
                     /\ (1 <= length ds <= 2)%nat)
    /\ (is_Some (year r) ->
        length t = 4%nat /\ Forall (fun d => is_digit d = true) t).
Proof.
  intros Ht.
  assert (Hn : normalize t = t).
  { rewrite normalize_map. apply fmap_underscore_id.
    eapply Forall_impl; [exact Ht|]. intros c Hc. by apply alnum_chars. }
  assert (Hlack : forall (P : N -> bool) (s : jsstring),
            (forall c, is_alnum c = true -> P c = false) ->
            s `sublist_of` t -> Forall (fun c => P c = false) s).
  { intros P s HP Hs. eapply Forall_sublist; [exact Hs|].
    eapply Forall_impl; [exact Ht|]. intros c Hc. by apply HP. }
  destruct (parse_normal t) as (sn & s1 & r & Hl & Hp & _ & Hsn & Hy & _).
  rewrite Hn in Hl. exists r. split; [done|].
  (* the season step *)
  assert (Hseason : is_Some sn ->
            exists c ds, t = c :: ds /\ cls_mem false cls_Ss c = true
                         /\ Forall (fun d => is_digit d = true) ds
                         /\ (1 <= length ds <= 2)%nat).
  { intros [n ->]. rewrite season_loop_fired in Hl.
    destruct (fired_rule_spec patterns t) as
      [[Hf _]|(ps1 & p & ps2 & mt & z & Hps & Hf & _ & He & _)]; [done|..];
      rewrite Hf in Hl; [done|].
    assert (Hin : p ∈ patterns) by (rewrite Hps; apply elem_of_app; right; by left).
    unfold patterns in Hin.
    repeat (apply elem_of_cons in Hin as [->|Hin]); simpl in He;
      try (by apply elem_of_nil in Hin).
    2: { apply exec_Some in He as (pre & tok & post & Ht' & _ & Hm & _).
         apply bare_S_shape in Hm as (c & ds & tl & Htok & Hc & Hds & Hlen & Hb1 & Hb2 & Hst).
         injection Hst as _ <- _ _.
         rewrite Ht' in Ht. apply Forall_app in Ht as [Hpre Ht].
         rewrite Htok in Ht. apply Forall_cons in Ht as [Hc' Ht2].
         apply Forall_app in Ht2 as [Hds' Hpost].
         rewrite Htok in Hb1. unfold word_boundary in Hb1, Hb2. simpl in Hb1.
         rewrite (alnum_word _ Hc'), xorb_true_r in Hb1.
         apply negb_true_iff in Hb1.
         apply (alnum_no_boundary_inside pre []) in Hb1; [|done]. subst pre.
         assert (from_option is_word false (prev_after (Some c) ds) = true) as Hw.
         { unfold prev_after. destruct (last ds) as [d|] eqn:E; simpl.
           - apply last_Some in E as [l' ->]. apply Forall_app in Hds' as [_ Hd].
             apply Forall_cons in Hd as [Hd _]. by apply alnum_word.
           - by apply alnum_word. }
         rewrite Hw in Hb2. simpl in Hb2. apply negb_true_iff in Hb2.
         apply alnum_no_boundary_after in Hb2; [|done]. subst post.
         exists c, ds. rewrite Ht', Htok. simpl. by rewrite app_nil_r. }
    all: exfalso.
    all: first
      [ rewrite (exec_lacks _ [Lit 91]) in He; [done|in_requires|]
      | rewrite (exec_lacks _ [ClsSpace]) in He; [done|in_requires|]
      | rewrite (exec_lacks _ [Lit 31532]) in He; [done|in_requires|] ].
    all: eapply Forall_impl; [exact Ht|]; intros c Hc; simpl; by apply alnum_chars. }
  split.
  - rewrite Hsn. exact Hseason.
  - rewrite Hy. intros [y Hyr].
    destruct sn as [n|].
    + (* a season was cut out: at most one code unit is left *)
      exfalso. destruct Hseason as (c & ds & -> & _ & _ & Hlen); [eauto|].
      apply year_loop_Some_length in Hyr.
      assert (Hfl : (length s1 + 2 <= length (c :: ds))%nat).
      { rewrite season_loop_fired in Hl.
        destruct (fired_rule patterns (c :: ds)) as [[[[p mt] n']|]|] eqn:Hf; [|done..].
        destruct (season_loop_cut _ _ _ _ Hf) as (pre & post & Hs & _ & Hl2 & Hl').
        rewrite season_loop_fired, Hf in Hl'. rewrite Hl' in Hl. injection Hl as _ <-.
        apply (f_equal length) in Hs. rewrite !length_app in Hs.
        pose proof (trim_length (pre ++ post)). rewrite length_app in *. lia. }
      simpl in Hfl. lia.
    + rewrite season_loop_fired in Hl.
      destruct (fired_rule patterns t) as [[[[p mt] n']|]|] eqn:Hf; try done.
      simpl in Hl. injection Hl as <-.
      apply year_loop_Some in Hyr as [[mt He]|[[mt He]|[mt He]]].
      * rewrite (exec_lacks _ [Lit 91]) in He; [done|in_requires|].
        eapply Forall_impl; [exact Ht|]. intros c Hc. simpl. by apply alnum_chars.
      * rewrite (exec_lacks _ [Lit 40]) in He; [done|in_requires|].
        eapply Forall_impl; [exact Ht|]. intros c Hc. simpl. by apply alnum_chars.
      * apply exec_Some in He as (pre & tok & post & Ht' & _ & Hm & _).
        apply match_at_complete in Hm as [x Hx]. rewrite match_at_year_bare in Hx.
        destruct (bare_year_here (last pre) (tok ++ post)) eqn:Hb; [|done].
        destruct (tok ++ post) as [|d1 [|d2 [|d3 [|d4 tl]]]] eqn:Etp; try done.
        simpl in Hb. repeat (apply andb_true_iff in Hb as [Hb ?]).
        apply negb_true_iff in Hb.
        rewrite Ht' in Ht. apply Forall_app in Ht as [Hpre Htp].
        apply (alnum_no_boundary_inside pre []) in Hb; [|done]. subst pre.
        assert (tl = []) as ->.
        { apply alnum_no_boundary_after; [|by apply negb_true_iff].
          by repeat (apply Forall_cons in Htp as [_ Htp]). }
        rewrite Ht'. simpl. split; [done|]. by repeat constructor.
Qed.

Lemma single_word_tokens_witness :
  Forall (fun c => is_alnum c = true) (js "S01E02")
  /\ exists r,
       parseSeasonFromTitle (js "S01E02") = Normal r
       /\ (is_Some (seasonNumber r) ->
           exists c ds, js "S01E02" = c :: ds /\ cls_mem false cls_Ss c = true
                        /\ Forall (fun d => is_digit d = true) ds
                        /\ (1 <= length ds <= 2)%nat)
       /\ (is_Some (year r) ->
           length (js "S01E02") = 4%nat
           /\ Forall (fun d => is_digit d = true) (js "S01E02")).
Proof.
  assert (H : Forall (fun c => is_alnum c = true) (js "S01E02")).
  { apply Forall_forall. intros c Hc%list_elem_of_In. revert c Hc.
    apply forallb_forall. vm_compute. reflexivity. }
  split; [exact H|]. exact (single_word_tokens _ H).
Defined.

(** The title of the witness parsed: nothing is recognized. *)
Example parse_S01E02 :
  parseSeasonFromTitle (js "S01E02")
  = Normal (mkSeasonInfo (js "S01E02") None None (js "S01E02")).
Proof. vm_compute. reflexivity. Qed.

(** ** The order of the rules *)

Lemma season_loop_first_match ps1 : forall p ps2 s mt,
  (forall q, q ∈ ps1 -> exec (sp_regex q) s = None) ->
  exec (sp_regex p) s = Some mt ->
  p ∈ patterns ->
  exists z,
    sp_extract p mt = Normal (Some (Num z))
    /\ season_loop (ps1 ++ p :: ps2) s
       = Normal (Some (Num z), trim (String_replace s (sp_regex p) [])).
Proof.
  induction ps1 as [|q ps1 IH]; intros p ps2 s mt Hnone He Hin; simpl.
  - unfold String_match. rewrite He.
    destruct (season_extract_ok p s mt Hin He) as (z & -> & _). eauto.
  - unfold String_match. rewrite (Hnone q) by by left.
    apply IH; [|done..]. intros q' Hq'. apply Hnone. by right.
Qed.

(** X4: the rule table is a priority list.  When no pattern of the rules
    before [p] matches the title and the pattern of [p] does, the rule [p]
    fires, whatever the rules after it would match: its extractor returns an
    integer (it never declines with [null], never gives NaN and never
    throws), that integer is the season, and the match of [p] is cut out. *)
Theorem first_matching_rule_fires ps1 p ps2 s mt :
  patterns = ps1 ++ p :: ps2 ->
  (forall q, q ∈ ps1 -> exec (sp_regex q) s = None) ->
  exec (sp_regex p) s = Some mt ->
  exists z,
    sp_extract p mt = Normal (Some (Num z))
    /\ season_loop patterns s
       = Normal (Some (Num z), trim (String_replace s (sp_regex p) [])).
Proof.
  intros Hps Hnone He. rewrite Hps. apply season_loop_first_match; [done..|].
  rewrite Hps. apply elem_of_app. right. by left.
Qed.

Lemma first_matching_rule_fires_witness :
  patterns
  = [SeasonPattern re_bracket_S extract_bracket_S;
     SeasonPattern re_bare_S extract_parseInt;
     SeasonPattern re_bracket_Season extract_parseInt]
    ++ SeasonPattern re_bare_Season extract_parseInt
    :: [SeasonPattern re_bracket_ji extract_chinese;
        SeasonPattern re_bare_ji extract_chinese;
        SeasonPattern re_bracket_bu extract_chinese;
        SeasonPattern re_bare_bu extract_chinese]
  /\ exec re_bracket_S (js "Lost 第二季 season 3") = None
  /\ exec re_bare_S (js "Lost 第二季 season 3") = None
  /\ exec re_bracket_Season (js "Lost 第二季 season 3") = None
  /\ exec re_bare_Season (js "Lost 第二季 season 3") = Some (RMatch 9 17 (Some (js "3")))
  /\ exists z,
       extract_parseInt (RMatch 9 17 (Some (js "3"))) = Normal (Some (Num z))
       /\ season_loop patterns (js "Lost 第二季 season 3")
          = Normal (Some (Num z),
                    trim (String_replace (js "Lost 第二季 season 3") re_bare_Season [])).
Proof.
  split_and!; [reflexivity|vm_compute; reflexivity..|].
  apply (first_matching_rule_fires
           [SeasonPattern re_bracket_S extract_bracket_S;
            SeasonPattern re_bare_S extract_parseInt;
            SeasonPattern re_bracket_Season extract_parseInt]
           (SeasonPattern re_bare_Season extract_parseInt)
           [SeasonPattern re_bracket_ji extract_chinese;
            SeasonPattern re_bare_ji extract_chinese;
            SeasonPattern re_bracket_bu extract_chinese;
            SeasonPattern re_bare_bu extract_chinese]).
  - reflexivity.
  - intros q Hq. repeat (apply elem_of_cons in Hq as [->|Hq]);
      [vm_compute; reflexivity..|by apply elem_of_nil in Hq].
  - vm_compute. reflexivity.
Defined.

(** ** The year rules, class by class *)

Lemma match_at_wrapped_year l r p s i :
  match_at (RegEx (seq [chr l; Cap digits_4; chr r]) false false) p s i
  = if wrapped_year_here l r s
    then Some (RMatch i (i + 6) (Some (take 4 (drop 1 s)))) else None.
Proof.
  unfold match_at. unfold_re.
  destruct s as [|c0 [|d1 [|d2 [|d3 [|d4 [|c5 tl]]]]]]; simpl.
  1-6: repeat case_match; done.
  rewrite !orb_false_r, (N.eqb_sym l c0), (N.eqb_sym r c5).
  destruct (c0 =? l); simpl; [|done].
  destruct (is_digit d1); simpl; [|done].
  destruct (is_digit d2); simpl; [|done].
  destruct (is_digit d3); simpl; [|done].
  destruct (is_digit d4); simpl; [|done].
  destruct (c5 =? r); simpl; [|done].
  replace (S (S (S (S i))) - i)%nat with 4%nat by lia.
  replace (i + 6)%nat with (S (S (S (S (S (S i)))))) by lia. done.
Qed.

Lemma search_wrapped_year l r s : forall p i,
  match first_wrapped_year l r s with
  | Some ds =>
      exists mt, search (RegEx (seq [chr l; Cap digits_4; chr r]) false false) p s i
                 = Some mt /\ group1 mt = Some ds
  | None => search (RegEx (seq [chr l; Cap digits_4; chr r]) false false) p s i = None
  end.
Proof.
  induction s as [|c tl IH]; intros p i.
  - cbn [first_wrapped_year search]. rewrite match_at_wrapped_year. done.
  - cbn [first_wrapped_year search]. rewrite match_at_wrapped_year.
    destruct (wrapped_year_here l r (c :: tl)); [eauto|]. apply IH.
Qed.

Lemma first_wrapped_year_digits l r s : forall ds,
  first_wrapped_year l r s = Some ds ->
  Forall (fun c => is_digit c = true) ds /\ ds <> [].
Proof.
  induction s as [|c tl IH]; intros ds; cbn [first_wrapped_year].
  - simpl. done.
  - destruct (wrapped_year_here l r (c :: tl)) eqn:E; [|apply IH].
    intros [= <-]. destruct tl as [|d1 [|d2 [|d3 [|d4 [|c5 tl]]]]]; simpl in E; try done.
    repeat (apply andb_true_iff in E as [E ?]).
    split; [by repeat constructor|done].
Qed.

(** One step of the year loop, read off the leftmost occurrence [o] of the
    pattern's class. *)
Lemma year_step rx s (o : option jsstring) rest_loop :
  match o with
  | Some ds => exists mt, exec rx s = Some mt /\ group1 mt = Some ds
  | None => exec rx s = None
  end ->
  (forall ds, o = Some ds -> Forall (fun c => is_digit c = true) ds /\ ds <> []) ->
  (match String_match s rx with
   | Some yearMatch =>
       let extractedYear := parseInt_arg (group1 yearMatch) in
       if num_ge extractedYear 1900 && num_le extractedYear 2100
       then (Some extractedYear, trim (String_replace s rx []))
       else rest_loop
   | None => rest_loop
   end).1
  = match accept_year o with
    | Some ds => Some (Num (decimal ds))
    | None => rest_loop.1
    end.
Proof.
  intros Ho Hd. unfold String_match. destruct o as [ds|]; simpl.
  - destruct Ho as (mt & -> & Hg). destruct (Hd ds eq_refl) as [Hds Hne].
    simpl. rewrite Hg. simpl. rewrite (parseInt_digits _ Hds Hne). simpl.
    by destruct ((1900 <=? decimal ds)%Z && (decimal ds <=? 2100)%Z).
  - by rewrite Ho.
Qed.

(** X5: the year is found class by class.  Of the bracket-wrapped 4-digit
    runs only the leftmost is read, and it is the year when it lies in
    [1900, 2100]; otherwise the same holds for the paren-wrapped runs, and
    then for the bare runs delimited by word boundaries.  No second
    occurrence of a class is ever read. *)
Theorem year_loop_leftmost_of_each_class s :
  (year_loop yearPatterns s).1 = (fun ds => Num (decimal ds)) <$> year_of_title s.
Proof.
  unfold yearPatterns, year_of_title. cbn [year_loop].
  rewrite (year_step re_year_bracket s (first_wrapped_year 91 93 s));
    [|apply (search_wrapped_year 91 93 s None 0)|apply first_wrapped_year_digits].
  destruct (accept_year (first_wrapped_year 91 93 s)) as [ds|]; [done|].
  rewrite (year_step re_year_paren s (first_wrapped_year 40 41 s));
    [|apply (search_wrapped_year 40 41 s None 0)|apply first_wrapped_year_digits].
  destruct (accept_year (first_wrapped_year 40 41 s)) as [ds|]; [done|].
  rewrite (year_step re_year_bare s (first_bare_year None s));
    [|apply (search_year_bare s None 0)|apply first_bare_year_digits].
  by destruct (accept_year (first_bare_year None s)).
Qed.

Lemma exec_cut rx s mt :
  exec rx s = Some mt ->
  exists pre tok post,
    s = pre ++ tok ++ post
    /\ matches (ignoreCase rx) (source rx)
         (MState (last pre) (tok ++ post) (length pre) None)
         (MState (prev_after (last pre) tok) post (length pre + length tok)
            (group1 mt))
    /\ replace_first rx [] s = pre ++ post.
Proof.
  intros He. destruct (exec_Some _ _ _ He) as (pre & tok & post & Hs & Hmt & Hm & _).
  exists pre, tok, post. split_and!; [done..|].
  rewrite (replace_first_cut rx s mt pre tok post []); [done..| |]; by rewrite Hmt.
Qed.

Lemma wrapped_year_cut l r s mt :
  exec (RegEx (seq [chr l; Cap digits_4; chr r]) false false) s = Some mt ->
  exists pre ds post,
    s = pre ++ (l :: ds ++ [r]) ++ post
    /\ length ds = 4%nat
    /\ Forall (fun c => is_digit c = true) ds
    /\ group1 mt = Some ds
    /\ replace_first (RegEx (seq [chr l; Cap digits_4; chr r]) false false) [] s
       = pre ++ post.
Proof.
  intros (pre & tok & post & Hs & Hm & Hr)%exec_cut.
  unfold_re. inv_matches. simpl in *. simplify_eq. lit_eqs.
  match goal with H : _ :: ?w ++ _ :: post = tok ++ post |- _ =>
    assert (tok = l :: w ++ [r]) as ->
      by (apply (app_inv_tail post); rewrite <- H; simpl; by rewrite <- app_assoc);
    exists pre, w, post end.
  rewrite take_read. split_and!; try done; try lia.
  - simpl. by rewrite <- app_assoc.
  - rewrite <- Hr. simpl. by rewrite <- app_assoc.
Qed.

Lemma bare_year_cut s mt :
  exec re_year_bare s = Some mt ->
  exists pre ds post,
    s = pre ++ ds ++ post
    /\ length ds = 4%nat
    /\ Forall (fun c => is_digit c = true) ds
    /\ from_option is_word false (last pre) = false
    /\ from_option is_word false (head post) = false
    /\ group1 mt = Some ds
    /\ replace_first re_year_bare [] s = pre ++ post.
Proof.
  intros (pre & tok & post & Hs & Hm & Hr)%exec_cut.
  unfold_re. inv_matches. simpl in *. simplify_eq. lit_eqs.
  match goal with H : ?w ++ ?q = ?t0 ++ ?q |- _ =>
    apply app_inv_tail in H; subst t0; exists pre, w, q; rewrite take_read;
    destruct w as [|d1 [|d2 [|d3 [|d4 [|]]]]]; simpl in *; try lia end.
  repeat match goal with H : Forall _ (_ :: _) |- _ =>
    apply Forall_cons in H as [? H] end.
  unfold word_boundary in *. simpl in *.
  rewrite (digit_word d1), xorb_true_r in * by done.
  rewrite (digit_word d4) in * by done. simpl in *.
  split_and!; try done; try (by repeat constructor); by apply negb_true_iff.
Qed.

(** X6: an accepted year is written in the season-reduced title.  When the
    year loop returns a year, the title it was given is [pre ++ token ++ post]
    where the token is four digits in square brackets, in parentheses, or
    bare with no word character before or after; the year is the number
    those digits spell, and the title handed to the cleaner is the trim of
    [pre ++ post]. *)
Theorem year_token_cut s y s' :
  year_loop yearPatterns s = (Some y, s') ->
  exists pre tok post ds,
    s = pre ++ tok ++ post
    /\ (tok = 91 :: ds ++ [93] \/ tok = 40 :: ds ++ [41]
        \/ (tok = ds /\ from_option is_word false (last pre) = false
                     /\ from_option is_word false (head post) = false))
    /\ length ds = 4%nat
    /\ Forall (fun c => is_digit c = true) ds
    /\ y = Num (decimal ds)
    /\ s' = trim (pre ++ post).
Proof.
  assert (Hnum : forall ds, Forall (fun c => is_digit c = true) ds ->
            length ds = 4%nat -> parseInt_arg (Some ds) = Num (decimal ds)).
  { intros ds Hds Hlen. simpl. apply parseInt_digits; [done|]. by destruct ds. }
  unfold yearPatterns. cbn [year_loop]. unfold String_match, String_replace. simpl.
  destruct (exec re_year_bracket s) as [m1|] eqn:E1.
  - destruct (num_ge _ 1900 && num_le _ 2100) eqn:R1.
    + intros [= <- <-].
      apply wrapped_year_cut in E1 as (pre & ds & post & Hs & Hlen & Hds & Hg & Hr).
      exists pre, (91 :: ds ++ [93]), post, ds. rewrite Hg, Hnum by done.
      split_and!; try done; [by left|]. by rewrite <- Hr.
    + clear E1 R1 m1. destruct (exec re_year_paren s) as [m2|] eqn:E2.
      * destruct (num_ge (parseInt_arg (group1 m2)) 1900 && _) eqn:R2.
        -- intros [= <- <-].
           apply wrapped_year_cut in E2 as (pre & ds & post & Hs & Hlen & Hds & Hg & Hr).
           exists pre, (40 :: ds ++ [41]), post, ds. rewrite Hg, Hnum by done.
           split_and!; try done; [right; by left|]. by rewrite <- Hr.
        -- clear E2 R2 m2. destruct (exec re_year_bare s) as [m3|] eqn:E3; [|done].
           destruct (num_ge (parseInt_arg (group1 m3)) 1900 && _) eqn:R3; [|done].
           intros [= <- <-].
           apply bare_year_cut in E3 as (pre & ds & post & Hs & Hlen & Hds & ? & ? & Hg & Hr).
           exists pre, ds, post, ds. rewrite Hg, Hnum by done.
           split_and!; try done; [right; by right|]. by rewrite <- Hr.
      * destruct (exec re_year_bare s) as [m3|] eqn:E3; [|done].
        destruct (num_ge (parseInt_arg (group1 m3)) 1900 && _) eqn:R3; [|done].
        intros [= <- <-].
        apply bare_year_cut in E3 as (pre & ds & post & Hs & Hlen & Hds & ? & ? & Hg & Hr).
        exists pre, ds, post, ds. rewrite Hg, Hnum by done.
        split_and!; try done; [right; by right|]. by rewrite <- Hr.
  - destruct (exec re_year_paren s) as [m2|] eqn:E2.
    + destruct (num_ge (parseInt_arg (group1 m2)) 1900 && _) eqn:R2.
      * intros [= <- <-].
        apply wrapped_year_cut in E2 as (pre & ds & post & Hs & Hlen & Hds & Hg & Hr).
        exists pre, (40 :: ds ++ [41]), post, ds. rewrite Hg, Hnum by done.
        split_and!; try done; [right; by left|]. by rewrite <- Hr.
      * clear E2 R2 m2. destruct (exec re_year_bare s) as [m3|] eqn:E3; [|done].
        destruct (num_ge (parseInt_arg (group1 m3)) 1900 && _) eqn:R3; [|done].
        intros [= <- <-].
        apply bare_year_cut in E3 as (pre & ds & post & Hs & Hlen & Hds & ? & ? & Hg & Hr).
        exists pre, ds, post, ds. rewrite Hg, Hnum by done.
        split_and!; try done; [right; by right|]. by rewrite <- Hr.
    + destruct (exec re_year_bare s) as [m3|] eqn:E3; [|done].
      destruct (num_ge (parseInt_arg (group1 m3)) 1900 && _) eqn:R3; [|done].
      intros [= <- <-].
      apply bare_year_cut in E3 as (pre & ds & post & Hs & Hlen & Hds & ? & ? & Hg & Hr).
      exists pre, ds, post, ds. rewrite Hg, Hnum by done.
      split_and!; try done; [right; by right|]. by rewrite <- Hr.
Qed.

Lemma year_token_cut_witness :
  year_loop yearPatterns (js "Movie (2021) HD") = (Some (Num 2021), js "Movie  HD")
  /\ exists pre tok post ds,
       js "Movie (2021) HD" = pre ++ tok ++ post
       /\ (tok = 91 :: ds ++ [93] \/ tok = 40 :: ds ++ [41]
           \/ (tok = ds /\ from_option is_word false (last pre) = false
                        /\ from_option is_word false (head post) = false))
       /\ length ds = 4%nat
       /\ Forall (fun c => is_digit c = true) ds
       /\ Num 2021 = Num (decimal ds)
       /\ js "Movie  HD" = trim (pre ++ post).
Proof.
  assert (H : year_loop yearPatterns (js "Movie (2021) HD")
              = (Some (Num 2021), js "Movie  HD")) by (vm_compute; reflexivity).
  split; [exact H|]. exact (year_token_cut _ _ _ H).
Defined.

(** ** What the bare rules read *)

(** The first match of a pattern sits at or before every place where the
    pattern matches. *)
Lemma exec_first rx s pre post st :
  s = pre ++ post ->
  matches (ignoreCase rx) (source rx) (MState (last pre) post (length pre) None) st ->
  exists mt pre0 tok0 post0,
    exec rx s = Some mt
    /\ s = pre0 ++ tok0 ++ post0
    /\ matches (ignoreCase rx) (source rx)
         (MState (last pre0) (tok0 ++ post0) (length pre0) None)
         (MState (prev_after (last pre0) tok0) post0 (length pre0 + length tok0)
            (group1 mt))
    /\ forall pre' post' st',
         s = pre' ++ post' ->
         matches (ignoreCase rx) (source rx)
           (MState (last pre') post' (length pre') None) st' ->
         (length pre0 <= length pre')%nat.
Proof.
  intros Hs Hm.
  destruct (exec rx s) as [mt|] eqn:He.
  - destruct (exec_Some _ _ _ He) as (pre0 & tok0 & post0 & Hs0 & _ & Hm0 & Hleft).
    exists mt, pre0, tok0, post0. split_and!; [done..|].
    intros pre' post' st' Hs' Hm'.
    destruct (decide (length pre' < length pre0)%nat) as [Hlt|]; [|lia].
    apply match_at_complete in Hm' as [x Hx].
    by rewrite (Hleft _ _ Hs' Hlt) in Hx.
  - apply match_at_complete in Hm as [x Hx].
    by rewrite (exec_None _ _ He _ _ Hs) in Hx.
Qed.

Lemma cls_Ss_word c : cls_mem false cls_Ss c = true -> is_word c = true.
Proof. intros [-> | ->]%cls_Ss_mem; done. Qed.

Lemma prev_after_digits_word c ds :
  is_word c = true -> Forall (fun d => is_digit d = true) ds ->
  from_option is_word false (prev_after (Some c) ds) = true.
Proof.
  intros Hc Hds. unfold prev_after. destruct (last ds) as [d|] eqn:E; simpl; [|done].
  apply last_Some in E as [l' ->]. apply Forall_app in Hds as [_ Hd].
  apply Forall_cons in Hd as [Hd _]. by apply digit_word.
Qed.

(** The bare Latin rule matches wherever a bare marker stands. *)
Lemma bare_S_matches p c ds post i :
  cls_mem false cls_Ss c = true ->
  Forall (fun d => is_digit d = true) ds ->
  (1 <= length ds <= 2)%nat ->
  from_option is_word false p = false ->
  from_option is_word false (head post) = false ->
  exists st', matches false (source re_bare_S) (MState p (c :: ds ++ post) i None) st'.
Proof.
  intros Hc Hds Hlen Hp Hpost. unfold_re. eexists.
  eapply M_Seq.
  { apply M_WordB. unfold word_boundary. simpl. by rewrite Hp, (cls_Ss_word c Hc). }
  eapply M_Seq; [by apply M_Class|].
  eapply M_Seq.
  { apply M_Cap. apply M_Rep with (w := ds); [|lia|intros ? [= <-]; lia].
    eapply Forall_impl; [exact Hds|]. intros d Hd. unfold cls_mem. simpl.
    by rewrite Hd. }
  eapply M_Seq; [|apply M_Eps].
  apply M_WordB. unfold word_boundary. simpl.
  by rewrite (prev_after_digits_word c ds (cls_Ss_word c Hc) Hds), Hpost.
Qed.

(** X7: in a title without '[', the bare Latin rule reads the leftmost bare
    marker: S or s followed by one or two digits, with no word character
    (letter, digit, underscore) before or after it in the normalized title.
    The season is the number those digits spell, whatever Season-word or
    Chinese markers the title also holds. *)
Theorem bare_marker_season t pre ds :
  Forall (fun c => c <> 91) t ->
  bare_marker_at (normalize t) pre ds ->
  exists pre0 ds0 r,
    bare_marker_at (normalize t) pre0 ds0
    /\ (forall pre' ds', bare_marker_at (normalize t) pre' ds' ->
          (length pre0 <= length pre')%nat)
    /\ parseSeasonFromTitle t = Normal r
    /\ seasonNumber r = Some (Num (decimal ds0)).
Proof.
  intros Hno (c & post & Hs & Hc & Hds & Hlen & Hp & Hpost).
  apply cls_Ss_mem in Hc.
  destruct (bare_S_matches (last pre) c ds post (length pre)) as [st Hm]; [done..|].
  destruct (exec_first re_bare_S _ _ _ _ Hs Hm) as
    (mt & pre0 & tok0 & post0 & He & Hs0 & Hm0 & Hleft).
  apply bare_S_shape in Hm0 as
    (c0 & ds0 & tl & Htok & Hc0 & Hds0 & Hlen0 & Hb1 & Hb2 & [= _ <- _ Hg]).
  assert (Hmk0 : bare_marker_at (normalize t) pre0 ds0).
  { exists c0, post0. rewrite Hs0, Htok. split_and!; try done; try lia.
    - by apply cls_Ss_mem.
    - rewrite Htok in Hb1. unfold word_boundary in Hb1. simpl in Hb1.
      rewrite (cls_Ss_word c0 Hc0), xorb_true_r in Hb1. by apply negb_true_iff.
    - unfold word_boundary in Hb2.
      rewrite (prev_after_digits_word c0 ds0 (cls_Ss_word c0 Hc0) Hds0) in Hb2.
      simpl in Hb2. by apply negb_true_iff. }
  assert (Hb : exec re_bracket_S (normalize t) = None).
  { apply (exec_lacks re_bracket_S [Lit 91]); [in_requires|].
    rewrite normalize_map. apply Forall_fmap.
    eapply Forall_impl; [exact Hno|]. intros x Hx. simpl. unfold cls_mem. simpl.
    rewrite orb_false_r. apply N.eqb_neq. unfold underscore_to_space.
    destruct (N.eqb_spec x 95); [done|]. simpl in Hx. lia. }
  destruct (season_loop_first_match [SeasonPattern re_bracket_S extract_bracket_S]
              (SeasonPattern re_bare_S extract_parseInt)
              [SeasonPattern re_bracket_Season extract_parseInt;
               SeasonPattern re_bare_Season extract_parseInt;
               SeasonPattern re_bracket_ji extract_chinese;
               SeasonPattern re_bare_ji extract_chinese;
               SeasonPattern re_bracket_bu extract_chinese;
               SeasonPattern re_bare_bu extract_chinese]
              (normalize t) mt) as (z & Hx & Hl).
  { intros q ->%list_elem_of_singleton. exact Hb. }
  { exact He. }
  { unfold patterns. right. by left. }
  change (season_loop patterns (normalize t) = Normal (Some (Num z),
            trim (String_replace (normalize t) re_bare_S []))) in Hl.
  assert (z = decimal ds0) as ->.
  { simpl in Hx. unfold extract_parseInt, parseInt_arg in Hx. rewrite Hg in Hx.
    rewrite parseInt_digits in Hx; [congruence|done|]. destruct ds0; simpl in *; [lia|done]. }
  destruct (parse_normal t) as (sn & s1 & r & Hl' & Hpr & _ & Hsn & _).
  rewrite Hl in Hl'. injection Hl' as <- _.
  exists pre0, ds0, r. split_and!; try done.
  intros pre' ds' (c' & post' & Hs' & Hc' & Hds' & Hlen' & Hp' & Hpost').
  apply cls_Ss_mem in Hc'.
  destruct (bare_S_matches (last pre') c' ds' post' (length pre')) as [st' Hm']; [done..|].
  by eapply Hleft.
Qed.

Lemma bare_marker_season_witness :
  Forall (fun c => c <> 91) (js "Lost_第2季 s03 Season 4")
  /\ bare_marker_at (normalize (js "Lost_第2季 s03 Season 4")) (js "Lost 第2季 ") (js "03")
  /\ exists pre0 ds0 r,
       bare_marker_at (normalize (js "Lost_第2季 s03 Season 4")) pre0 ds0
       /\ (forall pre' ds', bare_marker_at (normalize (js "Lost_第2季 s03 Season 4")) pre' ds' ->
             (length pre0 <= length pre')%nat)
       /\ parseSeasonFromTitle (js "Lost_第2季 s03 Season 4") = Normal r
       /\ seasonNumber r = Some (Num (decimal ds0)).
Proof.
  assert (H1 : Forall (fun c => c <> 91) (js "Lost_第2季 s03 Season 4")).
  { vm_compute. repeat constructor; discriminate. }
  assert (H2 : bare_marker_at (normalize (js "Lost_第2季 s03 Season 4"))
                 (js "Lost 第2季 ") (js "03")).
  { exists 115, (js " Season 4").
    split_and!; [vm_compute; reflexivity|by right|by repeat constructor|
                 simpl; lia|simpl; lia|reflexivity|reflexivity]. }
  split; [exact H1|]. split; [exact H2|]. exact (bare_marker_season _ _ _ H1 H2).
Defined.

(** The title of the witness parsed: season 3, from the bare marker. *)
Example parse_bare_marker_first :
  parseSeasonFromTitle (js "Lost_第2季 s03 Season 4")
  = Normal (mkSeasonInfo (js "Lost 第2季 Season 4") (Some (Num 3)) None
              (js "Lost_第2季 s03 Season 4")).
Proof. vm_compute. reflexivity. Qed.

(** A literal of an [i] pattern: an upper-case letter stands for both cases,
    a code unit that is no letter for itself. *)
Lemma lit_ci_upper u c :
  is_upper u = true -> cls_mem true [Lit u] c = (c =? u) || (c =? u + 32).
Proof.
  intros Hu. unfold cls_mem. simpl. rewrite orb_false_r. unfold canon.
  assert (is_lower u = false) as -> by (apply not_true_iff_false; intros ?; char_lia).
  apply eq_true_iff_eq.
  destruct (is_lower c) eqn:Hl; to_prop; unfold is_upper, is_lower in *; to_prop; lia.
Qed.

Lemma lit_ci_other l c :
  is_upper l = false -> is_lower l = false -> cls_mem true [Lit l] c = (c =? l).
Proof.
  intros Hu Hl. unfold cls_mem. simpl. rewrite orb_false_r. unfold canon. rewrite Hl.
  apply eq_true_iff_eq.
  destruct (is_lower c) eqn:Hc; to_prop; unfold is_upper, is_lower in *; to_prop; lia.
Qed.

(** What the bare Chinese "season" rule matches at a position, with its
    group. *)
Lemma bare_ji_group p s i st' :
  matches false (source re_bare_ji) (MState p s i None) st' ->
  exists w tl,
    s = 31532 :: w ++ 23395 :: tl
    /\ Forall (fun c => cls_mem false cls_numeral c = true) w
    /\ (1 <= length w <= 2)%nat
    /\ st' = MState (Some 23395) tl (i + (2 + length w)) (Some w).
Proof.
  intros H. unfold_re. inv_matches. simpl in *. simplify_eq. lit_eqs.
  eexists _, _. split_and!; try done; try lia.
  rewrite take_read. f_equal. lia.
Qed.

Lemma bare_ji_matches p w post i :
  Forall (fun c => cls_mem false cls_numeral c = true) w ->
  (1 <= length w <= 2)%nat ->
  exists st', matches false (source re_bare_ji)
                (MState p (31532 :: w ++ 23395 :: post) i None) st'.
Proof.
  intros Hw Hlen. unfold_re. eexists.
  eapply M_Seq; [by apply M_Class|].
  eapply M_Seq.
  { apply M_Cap. apply M_Rep with (w := w); [done|lia|intros ? [= <-]; lia]. }
  eapply M_Seq; [|apply M_Eps]. simpl. by apply M_Class.
Qed.

(** X8: in a title without '[', 'S' and 's', the Chinese "season" rule reads
    the leftmost token 第, one or two Chinese numerals or digits, 季; the
    season is what [chineseNumberToInt] makes of the characters in between,
    even when a 部 token stands further left. *)
Theorem ji_marker_season t pre w :
  Forall (fun c => c <> 91 /\ c <> 83 /\ c <> 115) t ->
  ji_marker_at (normalize t) pre w ->
  exists pre0 w0 r,
    ji_marker_at (normalize t) pre0 w0
    /\ (forall pre' w', ji_marker_at (normalize t) pre' w' ->
          (length pre0 <= length pre')%nat)
    /\ parseSeasonFromTitle t = Normal r
    /\ seasonNumber r = Some (chineseNumberToInt w0).
Proof.
  intros Hno (post & Hs & Hw & Hlen).
  destruct (bare_ji_matches (last pre) w post (length pre)) as [st Hm]; [done..|].
  destruct (exec_first re_bare_ji _ _ _ _ Hs Hm) as
    (mt & pre0 & tok0 & post0 & He & Hs0 & Hm0 & Hleft).
  apply bare_ji_group in Hm0 as (w0 & tl & Htok & Hw0 & Hlen0 & [= _ <- _ Hg]).
  assert (Hmk0 : ji_marker_at (normalize t) pre0 w0).
  { exists post0. by rewrite Hs0, Htok. }
  assert (Hlack : forall ci cs,
            (forall x, x <> 91 -> x <> 83 -> x <> 115 ->
                       cls_mem ci cs (underscore_to_space x) = false) ->
            Forall (fun c => cls_mem ci cs c = false) (normalize t)).
  { intros ci cs Hcs. rewrite normalize_map. apply Forall_fmap.
    eapply Forall_impl; [exact Hno|]. intros x (? & ? & ?). simpl. by apply Hcs. }
  assert (H91 : forall ci x, x <> 91 ->
            cls_mem ci [Lit 91] (underscore_to_space x) = false).
  { intros ci x Hx. destruct ci; [rewrite lit_ci_other by done|];
      unfold cls_mem, underscore_to_space; simpl; rewrite ?orb_false_r;
      destruct (N.eqb_spec x 95) as [->|]; try done; apply N.eqb_neq; lia. }
  assert (HS : forall x, x <> 83 -> x <> 115 ->
            cls_mem false cls_Ss (underscore_to_space x) = false
            /\ cls_mem true [Lit 83] (underscore_to_space x) = false).
  { intros x H1 H2. rewrite lit_ci_upper by done.
    unfold cls_mem, cls_Ss, underscore_to_space. simpl. rewrite !orb_false_r.
    destruct (N.eqb_spec x 95) as [->|]; [done|].
    split; apply orb_false_iff; split; apply N.eqb_neq; lia. }
  destruct (season_loop_first_match
              [SeasonPattern re_bracket_S extract_bracket_S;
               SeasonPattern re_bare_S extract_parseInt;
               SeasonPattern re_bracket_Season extract_parseInt;
               SeasonPattern re_bare_Season extract_parseInt;
               SeasonPattern re_bracket_ji extract_chinese]
              (SeasonPattern re_bare_ji extract_chinese)
              [SeasonPattern re_bracket_bu extract_chinese;
               SeasonPattern re_bare_bu extract_chinese]
              (normalize t) mt) as (z & Hx & Hl).
  { intros q Hq. repeat (apply elem_of_cons in Hq as [->|Hq]); simpl;
      [ apply (exec_lacks re_bracket_S [Lit 91]); [in_requires|]
      | apply (exec_lacks re_bare_S cls_Ss); [in_requires|]
      | apply (exec_lacks re_bracket_Season [Lit 91]); [in_requires|]
      | apply (exec_lacks re_bare_Season [Lit 83]); [in_requires|]
      | apply (exec_lacks re_bracket_ji [Lit 91]); [in_requires|]
      | by apply elem_of_nil in Hq ];
      apply Hlack; intros x ? ? ?; first [by apply H91 | by apply HS]. }
  { exact He. }
  { unfold patterns. do 5 right. by left. }
  change (season_loop patterns (normalize t) = Normal (Some (Num z),
            trim (String_replace (normalize t) re_bare_ji []))) in Hl.
  assert (Num z = chineseNumberToInt w0) as Hz.
  { simpl in Hx. unfold extract_chinese, chineseNumberToInt_arg in Hx.
    rewrite Hg in Hx. simpl in Hx. congruence. }
  destruct (parse_normal t) as (sn & s1 & r & Hl' & Hpr & _ & Hsn & _).
  rewrite Hl in Hl'. injection Hl' as <- _.
  exists pre0, w0, r. split_and!; try done; [|by rewrite <- Hz].
  intros pre' w' (post' & Hs' & Hw' & Hlen').
  destruct (bare_ji_matches (last pre') w' post' (length pre')) as [st' Hm']; [done..|].
  by eapply Hleft.
Qed.

Lemma ji_marker_season_witness :
  Forall (fun c => c <> 91 /\ c <> 83 /\ c <> 115) (js "甄嬛传 第三部 第十二季")
  /\ ji_marker_at (normalize (js "甄嬛传 第三部 第十二季")) (js "甄嬛传 第三部 ") (js "十二")
  /\ exists pre0 w0 r,
       ji_marker_at (normalize (js "甄嬛传 第三部 第十二季")) pre0 w0
       /\ (forall pre' w', ji_marker_at (normalize (js "甄嬛传 第三部 第十二季")) pre' w' ->
             (length pre0 <= length pre')%nat)
       /\ parseSeasonFromTitle (js "甄嬛传 第三部 第十二季") = Normal r
       /\ seasonNumber r = Some (chineseNumberToInt w0).
Proof.
  assert (H1 : Forall (fun c => c <> 91 /\ c <> 83 /\ c <> 115)
                 (js "甄嬛传 第三部 第十二季")).
  { vm_compute. repeat constructor; discriminate. }
  assert (H2 : ji_marker_at (normalize (js "甄嬛传 第三部 第十二季"))
                 (js "甄嬛传 第三部 ") (js "十二")).
  { exists []. split_and!; [vm_compute; reflexivity|by repeat constructor|
                           simpl; lia|simpl; lia]. }
  split; [exact H1|]. split; [exact H2|]. exact (ji_marker_season _ _ _ H1 H2).
Defined.

(** The title of the witness parsed: season 12, and the 部 token stays. *)
Example parse_ji_before_bu :
  parseSeasonFromTitle (js "甄嬛传 第三部 第十二季")
  = Normal (mkSeasonInfo (js "甄嬛传 第三部") (Some (Num 12)) None
              (js "甄嬛传 第三部 第十二季")).
Proof. vm_compute. reflexivity. Qed.

(** ** The cleaner *)

Lemma drop_take_while p s : drop (length (take_while p s)) s = drop_while p s.
Proof. induction s as [|c tl IH]; simpl; [done|]. by destruct (p c). Qed.

Lemma drop_while_head p s : from_option p false (head (drop_while p s)) = false.
Proof. induction s as [|c tl IH]; simpl; [done|]. by destruct (p c) eqn:E; simpl. Qed.

Lemma drop_while_length p s : (length (drop_while p s) <= length s)%nat.
Proof. induction s as [|c tl IH]; simpl; [done|]. destruct (p c); simpl; lia. Qed.

(** A greedy repetition without upper bound, at the end of a pattern, reads
    the whole run. *)
Lemma rep_greedy_max ci cs s : forall lo p i cp,
  rep_greedy ci cs lo None Some p s i cp
  = let run := take_while (cls_mem ci cs) s in
    if (lo <=? length run)%nat
    then Some (MState (prev_after p run) (drop (length run) s) (i + length run) cp)
    else None.
Proof.
  induction s as [|c tl IH]; intros lo p i cp; simpl.
  - destruct lo; simpl; [|done]. by rewrite Nat.add_0_r.
  - destruct (cls_mem ci cs c) eqn:Hc; simpl.
    + rewrite IH. simpl. rewrite prev_after_cons.
      replace (i + S (length (take_while (cls_mem ci cs) tl)))%nat
        with (S i + length (take_while (cls_mem ci cs) tl))%nat by lia.
      destruct lo as [|lo]; simpl; [done|].
      destruct (lo <=? length (take_while (cls_mem ci cs) tl))%nat eqn:E; [done|].
      done.
    + destruct lo; simpl; [|done]. by rewrite Nat.add_0_r.
Qed.

Lemma cls_space_mem c : cls_mem false [ClsSpace] c = is_ws c.
Proof. unfold cls_mem. simpl. apply orb_false_r. Qed.

Lemma take_while_ext (p q : N -> bool) s :
  (forall c, p c = q c) -> take_while p s = take_while q s.
Proof. intros H. induction s as [|c tl IH]; simpl; [done|]. by rewrite H, IH. Qed.

Lemma match_at_spaces p s i :
  match_at re_spaces p s i
  = match take_while is_ws s with
    | [] => None
    | run => Some (RMatch i (i + length run) None)
    end.
Proof.
  unfold match_at. unfold_re. simpl. rewrite rep_greedy_max. simpl.
  rewrite (take_while_ext _ is_ws) by apply cls_space_mem.
  by destruct (take_while is_ws s).
Qed.

(** Skipping the code units a match has covered. *)
Lemma replace_all_skip rx rep n : forall s p i,
  (n <= length s)%nat ->
  replace_all_from rx rep p s i n
  = replace_all_from rx rep (prev_after p (take n s)) (drop n s) (i + n) 0.
Proof.
  induction n as [|n IH]; intros s p i Hn.
  - simpl. by rewrite Nat.add_0_r, drop_0.
  - destruct s as [|c tl]; simpl in Hn; [lia|].
    cbn [replace_all_from]. rewrite IH by lia.
    cbn [take drop]. rewrite prev_after_cons. f_equal. lia.
Qed.

(** The two cases of collapsing white space: a white-space run becomes one
    space, any other code unit is kept. *)
Lemma replace_spaces_cons p c tl i :
  replace_all_from re_spaces [32] p (c :: tl) i 0
  = if is_ws c
    then 32 :: replace_all_from re_spaces [32]
                 (prev_after (Some c) (take_while is_ws tl)) (drop_while is_ws tl)
                 (S i + length (take_while is_ws tl)) 0
    else c :: replace_all_from re_spaces [32] (Some c) tl (S i) 0.
Proof.
  cbn [replace_all_from]. rewrite match_at_spaces. simpl.
  destruct (is_ws c) eqn:Hc; [|done]. simpl.
  replace (i + S (length (take_while is_ws tl)) - i)%nat
    with (S (length (take_while is_ws tl))) by lia.
  rewrite replace_all_skip.
  - rewrite drop_take_while. do 2 f_equal.
    assert (take (length (take_while is_ws tl)) tl = take_while is_ws tl) as ->; [|done].
    clear. induction tl as [|d tl IH]; simpl; [done|]. destruct (is_ws d); simpl; [|done].
    by rewrite IH.
  - clear. induction tl as [|d tl IH]; simpl; [done|]. destruct (is_ws d); simpl; lia.
Qed.

Lemma replace_spaces_nil p i : replace_all_from re_spaces [32] p [] i 0 = [].
Proof. cbn [replace_all_from]. by rewrite match_at_spaces. Qed.

Lemma replace_spaces_single_spaced n : forall s p i,
  (length s <= n)%nat ->
  single_spaced (replace_all_from re_spaces [32] p s i 0) = true
  /\ from_option is_ws false (head (replace_all_from re_spaces [32] p s i 0))
     = from_option is_ws false (head s).
Proof.
  induction n as [|n IH]; intros s p i Hn.
  - destruct s; simpl in Hn; [|lia]. by rewrite replace_spaces_nil.
  - destruct s as [|c tl]; [by rewrite replace_spaces_nil|]. simpl in Hn.
    rewrite replace_spaces_cons. destruct (is_ws c) eqn:Hc.
    + pose proof (drop_while_length is_ws tl).
      destruct (IH (drop_while is_ws tl)
                  (prev_after (Some c) (take_while is_ws tl))
                  (S i + length (take_while is_ws tl))%nat) as [H1 H2]; [lia|].
      cbn [single_spaced head from_option]. change (is_ws 32) with true.
      cbn match. rewrite H1, H2, drop_while_head, Hc. done.
    + destruct (IH tl (Some c) (S i)) as [H1 _]; [lia|].
      cbn [single_spaced head from_option]. by rewrite Hc, H1.
Qed.

Lemma single_spaced_app a b :
  single_spaced (a ++ b) = true -> single_spaced a = true /\ single_spaced b = true.
Proof.
  induction a as [|c a IH]; simpl; [done|].
  intros [Hc Hab]%andb_true_iff. destruct (IH Hab) as [Ha Hb].
  split; [|done]. rewrite Ha, andb_true_r.
  destruct (is_ws c); [|done]. apply andb_true_iff in Hc as [-> Hh]. simpl.
  destruct a as [|d a]; [done|]. exact Hh.
Qed.

(** Replacing spaces leaves a single-spaced string as it is. *)
Lemma replace_spaces_id s : forall p i,
  single_spaced s = true -> replace_all_from re_spaces [32] p s i 0 = s.
Proof.
  induction s as [|c tl IH]; intros p i Hs; [apply replace_spaces_nil|].
  rewrite replace_spaces_cons. simpl in Hs. apply andb_true_iff in Hs as [Hc Htl].
  destruct (is_ws c).
  - apply andb_true_iff in Hc as [->%N.eqb_eq Hh]. apply negb_true_iff in Hh.
    rewrite (drop_while_id _ _ Hh). by rewrite IH.
  - by rewrite IH.
Qed.

Lemma trailing_matches pre c w :
  cls_mem false cls_trailing c = true ->
  Forall (fun d => cls_mem false cls_trailing d = true) w ->
  exists st',
    matches (ignoreCase re_trailing) (source re_trailing)
      (MState (last pre) (c :: w) (length pre) None) st'.
Proof.
  intros Hc Hw. eexists. unfold_re. simpl.
  eapply M_Seq; [|eapply M_Seq; [|apply M_Eps]].
  - replace (c :: w) with ((c :: w) ++ []) by apply app_nil_r.
    apply M_Rep; [by constructor|simpl; lia|done].
  - by apply M_Eol.
Qed.

Lemma trailing_shape p tok post i p' j g :
  matches (ignoreCase re_trailing) (source re_trailing)
    (MState p (tok ++ post) i None) (MState p' post j g) ->
  post = [] /\ Forall (fun d => cls_mem false cls_trailing d = true) tok.
Proof.
  unfold_re. simpl. intros Hm. inv_matches.
  match goal with H : rest _ = [] |- _ => simpl in H; subst end.
  match goal with H : _ ++ [] = tok ++ [] |- _ =>
    rewrite !app_nil_r in H; subst end.
  done.
Qed.

(** What [replace(/[·\-_\s]+$/, '')] returns: a prefix of its argument that
    does not end with a code unit of the class. *)
Lemma trailing_cut s :
  exists b,
    s = replace_first re_trailing [] s ++ b
    /\ Forall (fun d => cls_mem false cls_trailing d = true) b
    /\ from_option (cls_mem false cls_trailing) false
         (last (replace_first re_trailing [] s)) = false.
Proof.
  destruct (exec re_trailing s) as [mt|] eqn:He.
  - destruct (exec_Some _ _ _ He) as (pre & tok & post & Hs & Hmt & Hm & Hleft).
    assert (Hr : replace_first re_trailing [] s = pre ++ post).
    { rewrite (replace_first_cut re_trailing s mt pre tok post []); [done..| |];
        by rewrite Hmt. }
    apply trailing_shape in Hm as [-> Htok].
    rewrite app_nil_r in Hr. rewrite Hr. rewrite app_nil_r in Hs.
    exists tok. split_and!; [done..|].
    destruct (last pre) as [c|] eqn:El; [|done]. simpl.
    destruct (cls_mem false cls_trailing c) eqn:Hc; [|done].
    apply last_Some in El as [pre' ->].
    destruct (trailing_matches pre' c tok Hc) as [st' Hst]; [done|].
    apply match_at_complete in Hst as [x Hx].
    rewrite (Hleft pre' (c :: tok)) in Hx; [done| |].
    + by rewrite Hs, <- app_assoc.
    + rewrite length_app. simpl. lia.
  - exists []. unfold replace_first. rewrite He, app_nil_r. split_and!; [done..|].
    destruct (last s) as [c|] eqn:El; [|done]. simpl.
    destruct (cls_mem false cls_trailing c) eqn:Hc; [|done].
    apply last_Some in El as [pre' ->].
    destruct (trailing_matches pre' c [] Hc) as [st' Hst]; [done|].
    apply match_at_complete in Hst as [x Hx].
    by rewrite (exec_None _ _ He pre' [c] eq_refl) in Hx.
Qed.

Lemma trailing_not_ws c : cls_mem false cls_trailing c = false -> is_ws c = false.
Proof.
  unfold cls_mem, cls_trailing. simpl. intros H.
  repeat (apply orb_false_iff in H as [? H]). done.
Qed.

(** Trimming a string that does not end with white space only drops leading
    white space. *)
Lemma trim_drop_while s :
  from_option is_ws false (last s) = false -> trim s = drop_while is_ws s.
Proof.
  intros Hl. unfold trim.
  destruct (drop_while_suffix is_ws s) as (a & Ea & Ha).
  destruct (drop_while is_ws s) as [|c z] eqn:Ez; [done|].
  rewrite drop_while_id; [apply reverse_involutive|].
  rewrite head_reverse. rewrite Ea in Hl. rewrite last_app in Hl.
  by destruct (last (c :: z)) eqn:El.
Qed.

Lemma clean_tidy s : tidy (clean s) = true.
Proof.
  unfold clean, tidy.
  set (x := String_replace (String_replace s re_empty_brackets []) re_empty_parens []).
  change (String_replace x re_spaces [32])
    with (replace_all_from re_spaces [32] None x 0 0).
  set (y := replace_all_from re_spaces [32] None x 0 0).
  change (String_replace y re_trailing []) with (replace_first re_trailing [] y).
  destruct (trailing_cut y) as (b & Hy & _ & Hlast).
  set (z := replace_first re_trailing [] y) in *.
  rewrite (trim_drop_while z) by (destruct (last z); [by apply trailing_not_ws|done]).
  destruct (drop_while_suffix is_ws z) as (a & Ea & Ha).
  assert (Hss : single_spaced (drop_while is_ws z) = true).
  { destruct (replace_spaces_single_spaced (length x) x None 0%nat) as [Hs _]; [done|].
    fold y in Hs. rewrite Hy, Ea in Hs.
    apply single_spaced_app in Hs as [Hs _]. by apply single_spaced_app in Hs as [_ Hs]. }
  rewrite Hss, drop_while_head. simpl.
  destruct (drop_while is_ws z) as [|c w] eqn:Ez; [done|].
  rewrite Ea, last_app in Hlast. destruct (last (c :: w)); [|done].
  simpl in *. by rewrite Hlast.
Qed.

(** A tidy string without an empty bracket pair is left as it is. *)
Lemma tidy_parts s :
  tidy s = true ->
  single_spaced s = true
  /\ from_option is_ws false (head s) = false
  /\ from_option (cls_mem false cls_trailing) false (last s) = false.
Proof.
  unfold tidy. intros [[H1 H2]%andb_true_iff H3]%andb_true_iff.
  apply negb_true_iff in H2, H3. done.
Qed.

Lemma trailing_id s :
  from_option (cls_mem false cls_trailing) false (last s) = false ->
  replace_first re_trailing [] s = s.
Proof.
  intros Hl. destruct (trailing_cut s) as (b & Hs & Hb & _).
  destruct b as [|c b _] using rev_ind; [by rewrite app_nil_r in Hs|].
  assert (El : last s = Some c) by (by rewrite Hs, app_assoc, last_snoc).
  rewrite El in Hl. cbn [from_option] in Hl.
  rewrite Forall_app, Forall_singleton in Hb. destruct Hb as [_ Hc]. congruence.
Qed.

Lemma fold_space_no_underscore (t : list N) : Forall (fun c => c <> 95) (fold_space <$> t).
Proof.
  apply Forall_fmap, Forall_true. intros c. simpl. unfold fold_space.
  destruct (N.eqb_spec c 95) as [->|]; simpl; [done|]. by destruct (is_ws c).
Qed.

(** X9: the clean title is tidy and has no underscore.  Whatever the input,
    [cleanTitle] has no white space other than single spaces between other
    characters, does not start with white space, does not end with a
    character of [[·\-_\s]], and contains no underscore. *)
Theorem cleanTitle_tidy t :
  exists r, parseSeasonFromTitle t = Normal r
            /\ tidy (cleanTitle r) = true
            /\ Forall (fun c => c <> 95) (cleanTitle r).
Proof.
  destruct (parse_normal t) as (sn & s1 & r & Hl & Hp & Hc & _).
  exists r. split; [done|]. rewrite Hc. split; [apply clean_tidy|].
  eapply Forall_sublist; [|apply fold_space_no_underscore].
  etrans; [apply clean_sublist|]. rewrite <- fold_space_map. apply fmap_sublist.
  etrans; [apply year_loop_sublist|]. rewrite <- normalize_map.
  by eapply season_loop_sublist.
Qed.

Lemma clean_id s :
  tidy s = true -> Forall (fun c => c <> 91 /\ c <> 40) s -> clean s = s.
Proof.
  intros (Hss & Hh & Hl)%tidy_parts Hs. unfold clean.
  rewrite (String_replace_lacks re_empty_brackets [Lit 91]); [|in_requires|].
  2:{ eapply Forall_impl; [exact Hs|]. intros c [Hc _]. unfold cls_mem. simpl.
      rewrite orb_false_r. apply N.eqb_neq. congruence. }
  rewrite (String_replace_lacks re_empty_parens [Lit 40]); [|in_requires|].
  2:{ eapply Forall_impl; [exact Hs|]. intros c [_ Hc]. unfold cls_mem. simpl.
      rewrite orb_false_r. apply N.eqb_neq. congruence. }
  change (String_replace s re_spaces [32])
    with (replace_all_from re_spaces [32] None s 0 0).
  rewrite replace_spaces_id by done.
  change (String_replace s re_trailing []) with (replace_first re_trailing [] s).
  rewrite trailing_id by done.
  apply trim_id; [done|]. destruct (last s); [by apply trailing_not_ws|done].
Qed.

(** X10: a plain title comes back unchanged.  When the title is tidy and has
    no underscore, no '[', no '(' and neither a digit nor a Chinese numeral,
    the parser returns it as [cleanTitle], with no season and no year. *)
Theorem plain_title_unchanged t :
  tidy t = true ->
  Forall (fun c => c <> 95 /\ c <> 91 /\ c <> 40) t ->
  Forall (fun c => cls_mem false cls_numeral c = false) t ->
  parseSeasonFromTitle t = Normal (mkSeasonInfo t None None t).
Proof.
  intros Htidy Hc Hn.
  assert (Hnorm : normalize t = t).
  { rewrite normalize_map. apply fmap_underscore_id.
    eapply Forall_impl; [exact Hc|]. by intros c [? _]. }
  assert (Hd : Forall (fun c => is_digit c = false) t).
  { eapply Forall_impl; [exact Hn|]. intros c H. unfold cls_mem, cls_numeral in H.
    simpl in H. repeat (apply orb_false_iff in H as [? H]). done. }
  destruct (parse_normal t) as (sn & s1 & r & Hl & Hp & Hct & Hsn & Hy & Ho).
  assert (Hf : season_loop patterns (normalize t) = Normal (None, normalize t)).
  { rewrite season_loop_fired, fired_none_no_numeral; [done|]. by rewrite Hnorm. }
  rewrite Hf, Hnorm in Hl. injection Hl as <- <-.
  rewrite year_loop_no_digit in Hct, Hy by done. simpl in Hct, Hy.
  rewrite clean_id in Hct; [|done|].
  2:{ eapply Forall_impl; [exact Hc|]. by intros c (_ & ? & ?). }
  rewrite Hp. f_equal. destruct r. simpl in *. congruence.
Qed.

Lemma plain_title_unchanged_witness :
  parseSeasonFromTitle (js "Fullmetal Alchemist: Brotherhood")
  = Normal (mkSeasonInfo (js "Fullmetal Alchemist: Brotherhood") None None
              (js "Fullmetal Alchemist: Brotherhood")).
Proof.
  apply plain_title_unchanged.
  - vm_compute. reflexivity.
  - apply Forall_forall. intros c Hc. apply list_elem_of_In in Hc.
    vm_compute in Hc. repeat destruct Hc as [<-|Hc]; try done.
  - apply Forall_by_forallb. vm_compute. reflexivity.
Defined.

(** ** The numeral converter off its vocabulary *)

Lemma all_digits_matches ds :
  Forall (fun c => is_digit c = true) ds -> ds <> [] ->
  RegExp_test re_all_digits ds = true.
Proof.
  intros Hds Hne. unfold RegExp_test. apply bool_decide_eq_true.
  apply (exec_complete re_all_digits [] ds
           (MState (prev_after None ds) [] (0 + length ds) None)).
  unfold_re. simpl.
  eapply M_Seq; [by apply M_Bol|].
  eapply M_Seq.
  - rewrite <- (app_nil_r ds) at 1.
    apply M_Rep; [|destruct ds; simpl; [done|lia]|done].
    eapply Forall_impl; [exact Hds|]. intros c Hc. unfold cls_mem. simpl. by rewrite Hc.
  - eapply M_Seq; [by apply M_Eol|apply M_Eps].
Qed.

(** X11: a string of decimal digits is read as the decimal number it
    writes, leading zeros included.  (Up to 15 digits the JavaScript number
    is that integer exactly.) *)
Theorem chineseNumberToInt_digits ds :
  Forall (fun c => is_digit c = true) ds ->
  (1 <= length ds <= 15)%nat ->
  chineseNumberToInt ds = Num (decimal ds).
Proof.
  intros Hds Hlen.
  assert (Hne : ds <> []) by (destruct ds; simpl in Hlen; [lia|done]).
  unfold chineseNumberToInt. rewrite all_digits_matches by done.
  by apply parseInt_digits.
Qed.

Lemma chineseNumberToInt_digits_witness :
  chineseNumberToInt (js "007") = Num 7.
Proof.
  apply (chineseNumberToInt_digits (js "007")).
  - apply Forall_forall. intros c Hc. apply list_elem_of_In in Hc.
    vm_compute in Hc. repeat destruct Hc as [<-|Hc]; done.
  - vm_compute. lia.
Defined.

Lemma pair_values_checked : pair_values_check = true.
Proof. vm_compute. reflexivity. Qed.

Lemma num_between_eq v n : num_between v v n = true -> n = Num v.
Proof. intros (z & -> & Hz)%num_between_elim. f_equal. lia. Qed.

Lemma digit_cases d : is_digit d = true -> d ∈ decimal_digits.
Proof.
  intros H%digit_range. apply list_elem_of_In. unfold decimal_digits. simpl.
  lia.
Qed.

(** X12: what the converter returns on two-character captures outside its
    vocabulary.  A digit next to 十 is dropped ("十5" gives 10, "2十" gives 0),
    十十 gives 20, two Chinese digits or a Chinese digit before a decimal
    digit give the default 1, and a decimal digit before a Chinese digit
    gives that digit, or 1 when it is 0. *)
Theorem chineseNumberToInt_mixed_pairs d x y :
  is_digit d = true -> x ∈ chinese_units -> y ∈ chinese_units ->
  chineseNumberToInt [shi; d] = Num 10
  /\ chineseNumberToInt [d; shi] = Num 0
  /\ chineseNumberToInt [shi; shi] = Num 20
  /\ chineseNumberToInt [x; y] = Num 1
  /\ chineseNumberToInt [x; d] = Num 1
  /\ chineseNumberToInt [d; x] = Num (if d =? 48 then 1 else Z.of_N (d - 48)).
Proof.
  intros Hd%digit_cases%list_elem_of_In Hx%list_elem_of_In Hy%list_elem_of_In.
  pose proof pair_values_checked as Hc. unfold pair_values_check in Hc.
  apply andb_true_iff in Hc as [Hc1 Hc2].
  rewrite forallb_forall in Hc1, Hc2.
  specialize (Hc1 d Hd). apply andb_true_iff in Hc1 as [[H1 H2]%andb_true_iff H3].
  rewrite forallb_forall in H3. specialize (H3 x Hx).
  apply andb_true_iff in H3 as [H3 H4].
  specialize (Hc2 x Hx). rewrite forallb_forall in Hc2. specialize (Hc2 y Hy).
  split_and!; by apply num_between_eq.
Qed.

Lemma chineseNumberToInt_mixed_pairs_witness :
  chineseNumberToInt [shi; 53] = Num 10
  /\ chineseNumberToInt [53; shi] = Num 0
  /\ chineseNumberToInt [shi; shi] = Num 20
  /\ chineseNumberToInt [20108; 19977] = Num 1
  /\ chineseNumberToInt [20108; 53] = Num 1
  /\ chineseNumberToInt [53; 20108] = Num 5.
Proof.
  apply (chineseNumberToInt_mixed_pairs 53 20108 19977).
  - vm_compute. reflexivity.
  - apply list_elem_of_In. vm_compute. tauto.
  - apply list_elem_of_In. vm_compute. tauto.
Defined.

(** ** The Season-word rule *)

Lemma lit_ci_canon x c : cls_mem true [Lit x] c = true <-> canon c = canon x.
Proof.
  unfold cls_mem. simpl. rewrite orb_false_r, N.eqb_eq. split; congruence.
Qed.

Lemma canon_S_word c : canon c = canon 83 -> is_word c = true.
Proof.
  change (canon 83) with 83. unfold canon.
  destruct (is_lower c) eqn:Hl; intros H.
  - assert (c = 115) as -> by lia. done.
  - by subst c.
Qed.

(** What the bare Season-word rule matches at a position, with its group. *)
Lemma bare_Season_shape p s i st' :
  matches true (source re_bare_Season) (MState p s i None) st' ->
  exists w sp ds tl,
    s = w ++ sp ++ ds ++ tl
    /\ canon <$> w = season_letters
    /\ sp <> [] /\ Forall (fun c => is_ws c = true) sp
    /\ Forall (fun d => is_digit d = true) ds /\ (1 <= length ds <= 2)%nat
    /\ from_option is_word false p = false
    /\ from_option is_word false (head tl) = false
    /\ rest st' = tl /\ cap st' = Some ds.
Proof.
  intros H. unfold_re. inv_matches. simpl in *. simplify_eq.
  repeat match goal with
  | H : (canon _ =? canon _) || false = true |- _ =>
      rewrite orb_false_r in H; apply N.eqb_eq in H
  | H : forall h : nat, Some ?n = Some h -> _ |- _ => specialize (H n eq_refl)
  | H : Forall (fun c => _ || false = true) _ |- _ => setoid_rewrite orb_false_r in H
  end.
  match goal with
  | Hb1 : word_boundary ?p (?c4 :: ?c3 :: ?c2 :: ?c1 :: ?c0 :: ?c :: ?sp ++ ?ds ++ ?tl) = true,
    Hb2 : word_boundary (prev_after (prev_after (Some ?c) ?sp) ?ds) ?tl = true,
    HS : canon 83 = canon ?c4 |- _ =>
      exists [c4; c3; c2; c1; c0; c], sp, ds, tl;
      assert (Hw4 : is_word c4 = true) by (by apply canon_S_word);
      assert (Hd : from_option is_word false (prev_after (prev_after (Some c) sp) ds) = true)
  end.
  { unfold prev_after at 1.
    match goal with |- context [last ?ds] => destruct (last ds) as [d|] eqn:E end.
    - simpl. apply last_Some in E as [l' ->].
      match goal with H : Forall _ (l' ++ [d]) |- _ =>
        apply Forall_app in H as [_ H]; apply Forall_cons in H as [H _];
        by apply digit_word end.
    - apply last_None in E. subst. simpl in *. lia. }
  split_and!; try done; try lia.
  - unfold season_letters. simpl. repeat f_equal; symmetry; assumption.
  - intros ->. simpl in *. lia.
  - unfold word_boundary in *. simpl in *.
    match goal with H : xorb _ (is_word _) = true |- _ =>
      rewrite Hw4, xorb_true_r in H; by apply negb_true_iff in H end.
  - unfold word_boundary in *.
    match goal with H : xorb (from_option is_word false (prev_after _ _)) _ = true |- _ =>
      rewrite Hd in H; simpl in H; by apply negb_true_iff in H end.
  - by rewrite take_read.
Qed.

(** The bare Season-word rule matches wherever such a marker stands. *)
Lemma bare_Season_matches p w sp ds post i :
  canon <$> w = season_letters ->
  sp <> [] -> Forall (fun c => is_ws c = true) sp ->
  Forall (fun d => is_digit d = true) ds -> (1 <= length ds <= 2)%nat ->
  from_option is_word false p = false ->
  from_option is_word false (head post) = false ->
  exists st', matches true (source re_bare_Season)
                (MState p (w ++ sp ++ ds ++ post) i None) st'.
Proof.
  intros Hw Hne Hsp Hds Hlen Hp Hpost.
  destruct w as [|c4 [|c3 [|c2 [|c1 [|c0 [|c [|]]]]]]]; try done.
  unfold season_letters in Hw. simpl in Hw.
  injection Hw as H4 H3 H2 H1 H0 H.
  assert (Hw4 : is_word c4 = true) by (by apply canon_S_word).
  unfold_re. eexists. simpl.
  eapply M_Seq.
  { apply M_WordB. unfold word_boundary. simpl. by rewrite Hp, Hw4. }
  eapply M_Seq.
  { do 6 (eapply M_Seq; [apply M_Class; by apply lit_ci_canon|]). apply M_Eps. }
  eapply M_Seq.
  { apply M_Rep with (w := sp); [|destruct sp; simpl; [done|lia]|done].
    eapply Forall_impl; [exact Hsp|]. intros x Hx. unfold cls_mem. simpl.
    by rewrite Hx. }
  eapply M_Seq.
  { apply M_Cap. apply M_Rep with (w := ds); [|lia|intros ? [= <-]; lia].
    eapply Forall_impl; [exact Hds|]. intros d Hd. unfold cls_mem. simpl.
    by rewrite Hd. }
  eapply M_Seq; [|apply M_Eps].
  apply M_WordB. unfold word_boundary. simpl.
  assert (from_option is_word false (prev_after (prev_after (Some c) sp) ds) = true) as ->.
  { unfold prev_after at 1. destruct (last ds) as [d|] eqn:E.
    - simpl. apply last_Some in E as [l' ->].
      apply Forall_app in Hds as [_ Hd]. apply Forall_cons in Hd as [Hd _].
      by apply digit_word.
    - apply last_None in E. subst. simpl in *. lia. }
  by rewrite Hpost.
Qed.

Lemma bare_S_exec_marker s mt :
  exec re_bare_S s = Some mt -> exists pre ds, bare_marker_at s pre ds.
Proof.
  intros He. destruct (exec_Some _ _ _ He) as (pre & tok & post & Hs & _ & Hm & _).
  apply bare_S_shape in Hm as
    (c & ds & tl & Htok & Hc & Hds & Hlen & Hb1 & Hb2 & [= _ <- _ _]).
  exists pre, ds, c, post. rewrite Hs, Htok. split_and!; try done; try lia.
  - by apply cls_Ss_mem.
  - rewrite Htok in Hb1. unfold word_boundary in Hb1. simpl in Hb1.
    rewrite (cls_Ss_word c Hc), xorb_true_r in Hb1. by apply negb_true_iff.
  - unfold word_boundary in Hb2.
    rewrite (prev_after_digits_word c ds (cls_Ss_word c Hc) Hds) in Hb2.
    simpl in Hb2. by apply negb_true_iff.
Qed.

(** X13: in a title without '[' and without a bare S marker, the Season-word
    rule reads the leftmost marker made of the word "Season" in any casing,
    white space (underscores count, being normalized to spaces) and one or
    two digits, with no word character before or after; the season is the
    number the digits spell. *)
Theorem season_word_season t pre ds :
  Forall (fun c => c <> 91) t ->
  (forall pre' ds', ~ bare_marker_at (normalize t) pre' ds') ->
  season_word_at (normalize t) pre ds ->
  exists pre0 ds0 r,
    season_word_at (normalize t) pre0 ds0
    /\ (forall pre' ds', season_word_at (normalize t) pre' ds' ->
          (length pre0 <= length pre')%nat)
    /\ parseSeasonFromTitle t = Normal r
    /\ seasonNumber r = Some (Num (decimal ds0)).
Proof.
  intros Hno Hbare (w & sp & post & Hs & Hw & Hne & Hsp & Hds & Hlen & Hp & Hpost).
  destruct (bare_Season_matches (last pre) w sp ds post (length pre)) as [st Hm];
    [done..|].
  destruct (exec_first re_bare_Season _ _ _ _ Hs Hm) as
    (mt & pre0 & tok0 & post0 & He & Hs0 & Hm0 & Hleft).
  apply bare_Season_shape in Hm0 as
    (w0 & sp0 & ds0 & tl & Htok & Hw0 & Hne0 & Hsp0 & Hds0 & Hlen0 & Hp0 & Htl
     & Hrest & Hg).
  simpl in Hrest, Hg. subst tl.
  assert (Hmk0 : season_word_at (normalize t) pre0 ds0).
  { exists w0, sp0, post0. by rewrite Hs0, Htok. }
  assert (H91 : forall ci, Forall (fun c => cls_mem ci [Lit 91] c = false) (normalize t)).
  { intros ci. rewrite normalize_map. apply Forall_fmap.
    eapply Forall_impl; [exact Hno|]. intros x Hx.
    change (x <> 91) in Hx.
    change (cls_mem ci [Lit 91] (underscore_to_space x) = false).
    destruct ci; [rewrite lit_ci_other by done|];
      unfold cls_mem, underscore_to_space; simpl; rewrite ?orb_false_r;
      destruct (N.eqb_spec x 95) as [->|]; try done; apply N.eqb_neq; lia. }
  destruct (season_loop_first_match
              [SeasonPattern re_bracket_S extract_bracket_S;
               SeasonPattern re_bare_S extract_parseInt;
               SeasonPattern re_bracket_Season extract_parseInt]
              (SeasonPattern re_bare_Season extract_parseInt)
              [SeasonPattern re_bracket_ji extract_chinese;
               SeasonPattern re_bare_ji extract_chinese;
               SeasonPattern re_bracket_bu extract_chinese;
               SeasonPattern re_bare_bu extract_chinese]
              (normalize t) mt) as (z & Hx & Hl).
  { intros q Hq. repeat (apply elem_of_cons in Hq as [->|Hq]); simpl.
    - apply (exec_lacks re_bracket_S [Lit 91]); [in_requires|apply H91].
    - destruct (exec re_bare_S (normalize t)) as [m2|] eqn:E2; [|done].
      apply bare_S_exec_marker in E2 as (pre2 & ds2 & H2). by destruct (Hbare pre2 ds2).
    - apply (exec_lacks re_bracket_Season [Lit 91]); [in_requires|apply H91].
    - by apply elem_of_nil in Hq. }
  { exact He. }
  { unfold patterns. do 3 right. by left. }
  change (season_loop patterns (normalize t) = Normal (Some (Num z),
            trim (String_replace (normalize t) re_bare_Season []))) in Hl.
  assert (z = decimal ds0) as ->.
  { simpl in Hx. unfold extract_parseInt, parseInt_arg in Hx. rewrite Hg in Hx.
    rewrite parseInt_digits in Hx; [congruence|done|].
    destruct ds0; simpl in *; [lia|done]. }
  destruct (parse_normal t) as (sn & s1 & r & Hl' & Hpr & _ & Hsn & _).
  rewrite Hl in Hl'. injection Hl' as <- _.
  exists pre0, ds0, r. split_and!; try done.
  intros pre' ds' (w' & sp' & post' & Hs' & Hw' & Hne' & Hsp' & Hds' & Hlen' & Hp' & Hpost').
  destruct (bare_Season_matches (last pre') w' sp' ds' post' (length pre')) as [st' Hm'];
    [done..|].
  by eapply Hleft.
Qed.

Lemma no_bare_marker s :
  exec re_bare_S s = None -> forall pre ds, ~ bare_marker_at s pre ds.
Proof.
  intros He pre ds (c & post & Hs & Hc & Hds & Hlen & Hp & Hpost).
  apply cls_Ss_mem in Hc.
  destruct (bare_S_matches (last pre) c ds post (length pre)) as [st Hm]; [done..|].
  apply (match_at_complete re_bare_S) in Hm as [x Hx].
  by rewrite (exec_None _ _ He pre (c :: ds ++ post) Hs) in Hx.
Qed.

Lemma season_word_season_witness :
  exists pre0 ds0 r,
    season_word_at (normalize (js "Lost_SEASON_02 第3季")) pre0 ds0
    /\ (forall pre' ds', season_word_at (normalize (js "Lost_SEASON_02 第3季")) pre' ds' ->
          (length pre0 <= length pre')%nat)
    /\ parseSeasonFromTitle (js "Lost_SEASON_02 第3季") = Normal r
    /\ seasonNumber r = Some (Num (decimal ds0)).
Proof.
  apply (season_word_season (js "Lost_SEASON_02 第3季") (js "Lost ") (js "02")).
  - vm_compute. repeat constructor; discriminate.
  - apply no_bare_marker. vm_compute. reflexivity.
  - exists (js "SEASON"), (js " "), (js " 第3季").
    split_and!; [vm_compute; reflexivity|vm_compute; reflexivity|done
                |by repeat constructor|by repeat constructor
                |simpl; lia|simpl; lia|reflexivity|reflexivity].
Defined.

(** The title of the witness parsed: season 2, from the Season word. *)
Example parse_season_word :
  parseSeasonFromTitle (js "Lost_SEASON_02 第3季")
  = Normal (mkSeasonInfo (js "Lost 第3季") (Some (Num 2)) None
              (js "Lost_SEASON_02 第3季")).
Proof. vm_compute. reflexivity. Qed.

(** ** A title in the canonical layout *)

Lemma exec_first_cut rx s pre post st :
  s = pre ++ post ->
  matches (ignoreCase rx) (source rx) (MState (last pre) post (length pre) None) st ->
  exists mt pre0 tok0 post0,
    exec rx s = Some mt
    /\ s = pre0 ++ tok0 ++ post0
    /\ matches (ignoreCase rx) (source rx)
         (MState (last pre0) (tok0 ++ post0) (length pre0) None)
         (MState (prev_after (last pre0) tok0) post0 (length pre0 + length tok0)
            (group1 mt))
    /\ (length pre0 <= length pre)%nat
    /\ replace_first rx [] s = pre0 ++ post0.
Proof.
  intros Hs Hm.
  destruct (exec rx s) as [mt|] eqn:He.
  - destruct (exec_Some _ _ _ He) as (pre0 & tok0 & post0 & Hs0 & Hmt & Hm0 & Hleft).
    exists mt, pre0, tok0, post0. split_and!; [done..| |].
    + destruct (decide (length pre < length pre0)%nat) as [Hlt|]; [|lia].
      apply match_at_complete in Hm as [x Hx].
      by rewrite (Hleft _ _ Hs Hlt) in Hx.
    + rewrite (replace_first_cut rx s mt pre0 tok0 post0 []); [done..| |];
        by rewrite Hmt.
  - apply match_at_complete in Hm as [x Hx].
    by rewrite (exec_None _ _ He _ _ Hs) in Hx.
Qed.

(** Where a string that lacks [P] ends, a [P] code unit cannot stand yet. *)
Lemma prefix_lacks_length (P : N -> bool) (a : jsstring) : forall x b d y,
  a ++ x = b ++ d :: y -> Forall (fun e => P e = false) a -> P d = true ->
  (length a <= length b)%nat.
Proof.
  induction a as [|e a IH]; intros x b d y He Ha Hd; simpl; [lia|].
  apply Forall_cons in Ha as [He' Ha].
  destruct b as [|e' b]; simpl in He.
  - injection He as -> _. congruence.
  - injection He as _ He. simpl. apply le_n_S. by eapply IH.
Qed.

Lemma digits_split ds0 : forall tl ds c rest,
  ds0 ++ tl = ds ++ c :: rest ->
  Forall (fun d => is_digit d = true) ds0 ->
  Forall (fun d => is_digit d = true) ds ->
  is_digit c = false ->
  from_option is_digit false (head tl) = false ->
  ds0 = ds /\ tl = c :: rest.
Proof.
  induction ds0 as [|d0 ds0 IH]; intros tl ds c rest He H0 Hds Hc Htl.
  - simpl in He. destruct ds as [|d ds]; [done|].
    apply Forall_cons in Hds as [Hd _]. subst tl. simpl in Htl. congruence.
  - apply Forall_cons in H0 as [Hd0 H0].
    destruct ds as [|d ds]; simpl in He.
    + injection He as -> _. congruence.
    + injection He as -> He. apply Forall_cons in Hds as [_ Hds].
      destruct (IH tl ds c rest He H0 Hds Hc Htl) as [-> ->]. done.
Qed.

Lemma not_word_not_digit (o : option N) :
  from_option is_word false o = false -> from_option is_digit false o = false.
Proof.
  destruct o as [c|]; simpl; [|done]. intros H.
  destruct (is_digit c) eqn:E; [|done]. by rewrite (digit_word c E) in H.
Qed.

Lemma trim_tidy_spaces name :
  tidy name = true -> trim (name ++ [32; 32]) = name.
Proof.
  intros (_ & Hh & Hl)%tidy_parts. destruct name as [|c name]; [done|].
  unfold trim. rewrite (drop_while_id is_ws ((c :: name) ++ [32; 32])) by done.
  rewrite reverse_app. change (reverse [32; 32]) with [32; 32].
  change (drop_while is_ws ([32; 32] ++ reverse (c :: name)))
    with (drop_while is_ws (reverse (c :: name))).
  rewrite drop_while_id; [apply reverse_involutive|].
  rewrite head_reverse. destruct (last (c :: name)); [by apply trailing_not_ws|done].
Qed.

Lemma wrapped_year_group l r p s i st' :
  matches false (seq [chr l; Cap digits_4; chr r]) (MState p s i None) st' ->
  exists ds tl,
    s = l :: ds ++ r :: tl
    /\ length ds = 4%nat
    /\ Forall (fun c => is_digit c = true) ds
    /\ st' = MState (Some r) tl (i + 6) (Some ds).
Proof.
  intros H. unfold_re. inv_matches. simpl in *. simplify_eq. lit_eqs.
  eexists _, _. split_and!; try done; try lia.
  rewrite take_read. f_equal. lia.
Qed.

Lemma wrapped_year_matches l r p ys post i :
  Forall (fun c => is_digit c = true) ys -> length ys = 4%nat ->
  exists st', matches false (seq [chr l; Cap digits_4; chr r])
                (MState p (l :: ys ++ r :: post) i None) st'.
Proof.
  intros Hys Hlen. unfold_re. eexists.
  eapply M_Seq; [apply M_Class; unfold cls_mem; simpl; by rewrite N.eqb_refl|].
  eapply M_Seq.
  { apply M_Cap. apply M_Rep with (w := ys); [|lia|intros ? [= <-]; lia].
    eapply Forall_impl; [exact Hys|]. intros d Hd. unfold cls_mem. simpl.
    by rewrite Hd. }
  eapply M_Seq; [|apply M_Eps]. simpl.
  apply M_Class. unfold cls_mem. simpl. by rewrite N.eqb_refl.
Qed.

(** X14: a title in the canonical layout is taken apart exactly.  For a tidy
    name without underscore, '[', '(' and digit, one or two season digits
    and a four-digit year between 1900 and 2100, parsing "name Sdd (yyyy)"
    gives back the name as [cleanTitle], the season and the year. *)
Theorem canonical_title_parsed name ds ys :
  tidy name = true ->
  Forall (fun c => c <> 95 /\ c <> 91 /\ c <> 40 /\ is_digit c = false) name ->
  Forall (fun d => is_digit d = true) ds -> (1 <= length ds <= 2)%nat ->
  Forall (fun d => is_digit d = true) ys -> length ys = 4%nat ->
  (1900 <= decimal ys <= 2100)%Z ->
  parseSeasonFromTitle (canonical_title name ds ys)
  = Normal (mkSeasonInfo name (Some (Num (decimal ds))) (Some (Num (decimal ys)))
              (canonical_title name ds ys)).
Proof.
  intros Htidy Hname Hds Hlen Hys Hlen4 Hrange.
  set (t := canonical_title name ds ys).
  assert (Hd_ne : forall d, is_digit d = true -> d <> 95 /\ d <> 91 /\ d <> 40).
  { intros d Hd%digit_range. lia. }
  assert (Ht : Forall (fun c => c <> 95 /\ c <> 91) t).
  { unfold t, canonical_title. repeat (apply Forall_app; split).
    - eapply Forall_impl; [exact Hname|]. by intros c (? & ? & _).
    - by repeat constructor.
    - eapply Forall_impl; [exact Hds|]. intros d Hd. destruct (Hd_ne d Hd) as (? & ? & _).
      done.
    - by repeat constructor.
    - eapply Forall_impl; [exact Hys|]. intros d Hd. destruct (Hd_ne d Hd) as (? & ? & _).
      done.
    - by repeat constructor. }
  assert (Hnorm : normalize t = t).
  { rewrite normalize_map. apply fmap_underscore_id.
    eapply Forall_impl; [exact Ht|]. by intros c [? _]. }
  assert (H91 : forall s : jsstring, Forall (fun c => c <> 91) s ->
            Forall (fun c => cls_mem false [Lit 91] c = false) s).
  { intros s Hs. eapply Forall_impl; [exact Hs|]. intros c Hc. unfold cls_mem. simpl.
    rewrite orb_false_r. apply N.eqb_neq. congruence. }
  (* the season step *)
  assert (Hs : t = (name ++ [32]) ++ 83 :: ds ++ 32 :: 40 :: ys ++ [41]).
  { unfold t, canonical_title. by rewrite <- !app_assoc. }
  destruct (bare_S_matches (last (name ++ [32])) 83 ds (32 :: 40 :: ys ++ [41])
              (length (name ++ [32]))) as [st Hm]; [done|done|done| |done|].
  { by rewrite last_snoc. }
  destruct (exec_first_cut re_bare_S _ _ _ _ Hs Hm) as
    (mt & pre0 & tok0 & post0 & He & Hs0 & Hm0 & Hle & Hcut).
  apply bare_S_shape in Hm0 as
    (c0 & ds0 & tl & Htok & Hc0 & Hds0 & Hlen0 & Hb1 & Hb2 & [= _ <- _ Hg]).
  assert (Hpost0 : from_option is_word false (head post0) = false).
  { unfold word_boundary in Hb2.
    rewrite (prev_after_digits_word c0 ds0 (cls_Ss_word c0 Hc0) Hds0) in Hb2.
    simpl in Hb2. by apply negb_true_iff. }
  assert (Hpre0 : pre0 = name ++ [32] /\ c0 = 83 /\ ds0 = ds
                  /\ post0 = 32 :: 40 :: ys ++ [41]).
  { destruct ds0 as [|d0 ds0']; [simpl in Hlen0; lia|].
    assert (Hd0 : is_digit d0 = true) by (by apply Forall_cons in Hds0 as [? _]).
    assert (Hge : (length (name ++ [32%N; 83%N]) <= length (pre0 ++ [c0]))%nat).
    { apply (prefix_lacks_length is_digit (name ++ [32; 83])
               (ds ++ 32 :: 40 :: ys ++ [41]) (pre0 ++ [c0]) d0 (ds0' ++ post0)).
      - transitivity t; [unfold t, canonical_title; by rewrite <- !app_assoc|].
        rewrite Hs0, Htok. by rewrite <- !app_assoc.
      - apply Forall_app. split; [|by repeat constructor].
        eapply Forall_impl; [exact Hname|]. by intros c (_ & _ & _ & ?).
      - done. }
    rewrite (length_app name), (length_app pre0) in Hge.
    rewrite length_app in Hle. simpl in Hge, Hle.
    assert (Hlen_pre : length pre0 = length (name ++ [32])).
    { rewrite length_app. simpl. lia. }
    rewrite Hs, Htok in Hs0.
    apply app_inj_1 in Hs0 as [Hp Hrest]; [|done].
    injection Hrest as Hc Hrest.
    destruct (digits_split (d0 :: ds0') post0 ds 32 (40 :: ys ++ [41]))
      as [Hd Hp0]; [done|done|done|done|by apply not_word_not_digit|].
    done. }
  destruct Hpre0 as (-> & -> & -> & ->).
  destruct (season_loop_first_match [SeasonPattern re_bracket_S extract_bracket_S]
              (SeasonPattern re_bare_S extract_parseInt)
              [SeasonPattern re_bracket_Season extract_parseInt;
               SeasonPattern re_bare_Season extract_parseInt;
               SeasonPattern re_bracket_ji extract_chinese;
               SeasonPattern re_bare_ji extract_chinese;
               SeasonPattern re_bracket_bu extract_chinese;
               SeasonPattern re_bare_bu extract_chinese]
              t mt) as (z & Hx & Hl).
  { intros q ->%list_elem_of_singleton.
    apply (exec_lacks re_bracket_S [Lit 91]); [in_requires|]. apply H91.
    eapply Forall_impl; [exact Ht|]. by intros c [_ ?]. }
  { exact He. }
  { unfold patterns. right. by left. }
  change (season_loop patterns t = Normal (Some (Num z),
            trim (String_replace t re_bare_S []))) in Hl.
  assert (z = decimal ds) as ->.
  { simpl in Hx. unfold extract_parseInt, parseInt_arg in Hx. rewrite Hg in Hx.
    rewrite parseInt_digits in Hx; [congruence|done|].
    destruct ds; simpl in *; [lia|done]. }
  change (String_replace t re_bare_S []) with (replace_first re_bare_S [] t) in Hl.
  rewrite Hcut in Hl.
  (* the title handed to the year step *)
  assert (Hs1 : exists name',
            trim ((name ++ [32]) ++ 32 :: 40 :: ys ++ [41]) = name' ++ 40 :: ys ++ [41]
            /\ Forall (fun c => c <> 91 /\ c <> 40) name'
            /\ trim name' = name).
  { rewrite trim_drop_while.
    2:{ rewrite !app_comm_cons, !app_assoc, last_snoc. done. }
    destruct name as [|c name].
    - exists []. done.
    - exists ((c :: name) ++ [32; 32]). split_and!.
      + rewrite drop_while_id; [by rewrite <- !app_assoc|].
        by apply tidy_parts in Htidy as (_ & ? & _).
      + apply Forall_app. split; [|by repeat constructor].
        eapply Forall_impl; [exact Hname|]. by intros x (_ & ? & ? & _).
      + by apply trim_tidy_spaces. }
  destruct Hs1 as (name' & Hs1 & Hname' & Htrim). rewrite Hs1 in Hl.
  set (s1 := name' ++ 40 :: ys ++ [41]) in *.
  (* the year step *)
  assert (Hy : year_loop yearPatterns s1 = (Some (Num (decimal ys)), name)).
  { assert (Hb : exec re_year_bracket s1 = None).
    { apply (exec_lacks re_year_bracket [Lit 91]); [in_requires|]. apply H91.
      unfold s1. apply Forall_app. split.
      - eapply Forall_impl; [exact Hname'|]. by intros c [? _].
      - constructor; [done|]. apply Forall_app. split; [|by repeat constructor].
        eapply Forall_impl; [exact Hys|]. intros d Hd. by destruct (Hd_ne d Hd) as (_ & ? & _). }
    destruct (wrapped_year_matches 40 41 (last name') ys [] (length name') Hys Hlen4)
      as [sty Hmy].
    destruct (exec_first_cut re_year_paren s1 name' (40 :: ys ++ [41]) sty eq_refl Hmy)
      as (my & p0 & tk0 & q0 & Hey & Hsy & Hmy0 & Hley & Hcuty).
    apply wrapped_year_group in Hmy0 as (ys0 & tl & Htk & Hl0 & Hys0 & [= _ <- _ Hgy]).
    assert (Hge : (length name' <= length p0)%nat).
    { apply (prefix_lacks_length (fun c => c =? 40) name' (40 :: ys ++ [41]) p0 40
               (ys0 ++ 41 :: q0)).
      - fold s1. by rewrite Hsy, Htk.
      - eapply Forall_impl; [exact Hname'|]. intros c [_ Hc]. by apply N.eqb_neq.
      - done. }
    rewrite Htk in Hsy. unfold s1 in Hsy.
    apply app_inj_1 in Hsy as [-> Hrest]; [|lia].
    injection Hrest as Hrest.
    apply app_inj_1 in Hrest as [<- [= <-]]; [|lia].
    unfold yearPatterns. cbn [year_loop]. unfold String_match.
    rewrite Hb, Hey. cbn zeta. rewrite Hgy.
    unfold parseInt_arg. rewrite parseInt_digits; [|done|by destruct ys].
    unfold num_ge, num_le.
    assert ((1900 <=? decimal ys)%Z && (decimal ys <=? 2100)%Z = true) as ->
      by (apply andb_true_iff; split; apply Z.leb_le; lia).
    change (String_replace s1 re_year_paren []) with (replace_first re_year_paren [] s1).
    by rewrite Hcuty, app_nil_r, Htrim. }
  destruct (parse_normal t) as (sn & sx & r & Hl' & Hp & Hct & Hsn & Hyr & Ho).
  rewrite Hnorm, Hl in Hl'. injection Hl' as <- <-.
  rewrite Hy in Hct, Hyr. cbn [fst snd] in Hct, Hyr.
  rewrite clean_id in Hct; [|done|].
  2:{ eapply Forall_impl; [exact Hname|]. by intros c (_ & ? & ? & _). }
  rewrite Hp. f_equal. destruct r. simpl in *. congruence.
Qed.

Lemma canonical_title_parsed_witness :
  parseSeasonFromTitle (canonical_title (js "Dark Matter") (js "02") (js "2024"))
  = Normal (mkSeasonInfo (js "Dark Matter") (Some (Num (decimal (js "02"))))
              (Some (Num (decimal (js "2024"))))
              (canonical_title (js "Dark Matter") (js "02") (js "2024"))).
Proof.
  apply canonical_title_parsed.
  - vm_compute. reflexivity.
  - apply Forall_forall. intros c Hc. apply list_elem_of_In in Hc.
    vm_compute in Hc. repeat destruct Hc as [<-|Hc]; done.
  - by repeat constructor.
  - vm_compute. lia.
  - by repeat constructor.
  - reflexivity.
  - vm_compute. split; discriminate.
Defined.
